(** * Gradient-descent linear regression on TensorFlow's low-level API

    A shallow embedding of the notebook
    [notebooks/introduction_to_tensorflow/labs/1_core_tensorflow.ipynb]:
    the tensor operations it calls, the eager runtime with its variable
    store and gradient tape, the notebook's own functions ([make_features],
    [predict], [loss_mse], [compute_gradients]) and its training loops.

    Scalars are kept abstract behind the [Scalar] interface, so that every
    structural result holds for any arithmetic (in particular for float32 as
    the notebook uses it).  Results that depend on the laws of arithmetic are
    proved at the instance [R] of exact real numbers.  The instance
    [spec_float] of IEEE 754 binary32 evaluates the code where the real
    numbers have no counterpart: the mean of no value and the square root
    of a negative number are NaN, large values overflow to an infinity and
    small ones underflow to zero. *)

From Stdlib Require Import List ZArith Arith Bool Lia String.
From Stdlib Require Import Reals Lra Psatz QArith.
From Stdlib Require Import SpecFloat.
From stdpp Require Import gmap.
Import ListNotations.

Set Implicit Arguments.

(** ** Scalars *)

(** The element type of a tensor with the arithmetic the kernels use. *)
Class Scalar (A : Type) := {
  szero : A;
  sone : A;
  sadd : A -> A -> A;
  ssub : A -> A -> A;
  smul : A -> A -> A;
  sdiv : A -> A -> A;
  sneg : A -> A;
  sofnat : nat -> A        (* integer-to-float cast *)
}.

(** The elementary functions that [make_features] applies. *)
Class Elementary (A : Type) := {
  ssqrt : A -> A;
  sexp : A -> A
}.

(** ** Errors and results *)

Definition shape := list nat.

(** The exceptions that the modelled calls raise.  Each one carries the
    shapes that TensorFlow prints in its message. *)
Inductive TFError :=
| MatrixSizeIncompatible (in0 in1 : shape)   (* "Matrix size-incompatible: In[0]: .., In[1]: .." *)
| MatMulRank (in0 in1 : shape)               (* an operand of rank below 2 *)
| IncompatibleShapes (op : string) (in0 in1 : shape)  (* "Incompatible shapes: .. vs. .." *)
| CannotSqueeze (s : shape)                  (* "Can not squeeze dim[..], expected a dimension of 1" *)
| StackShapeMismatch (s0 s1 : shape)         (* "Shapes of all inputs must match" *)
| AxisOutOfRange (op : string) (s : shape)
| AssignShapeMismatch (var val : shape)      (* assign_sub with another shape *)
| ReshapeSize (from to : shape)
| UnknownVariable (id : nat)
| NoGradientRule (op : string)               (* backpropagation through an op without a rule here *)
| PyTypeError (msg : string)                 (* Python's TypeError *)
| PyIndexError (msg : string)                (* Python's IndexError *)
| OutsideModel (what : string).              (* a tensor of rank 3 or more *)

Inductive result (X : Type) :=
| Ok (x : X)
| Err (e : TFError).
Arguments Ok {X} x.
Arguments Err {X} e.

Definition rbind {X Y} (r : result X) (k : X -> result Y) : result Y :=
  match r with
  | Ok x => k x
  | Err e => Err e
  end.

(** ** Tensors of rank 0, 1 and 2 *)

Section Tensors.
Context {A : Type} `{SA : Scalar A}.

(** A matrix keeps its number of columns, so that a matrix without rows
    still has a shape. *)
Inductive Tensor :=
| Scal (x : A)
| Vec (v : list A)
| Mat (ncols : nat) (rows : list (list A)).

Definition shape_of (t : Tensor) : shape :=
  match t with
  | Scal _ => []
  | Vec v => [length v]
  | Mat n rows => [length rows; n]
  end.

(** Every row of a matrix has [ncols] entries. *)
Definition wf (t : Tensor) : Prop :=
  match t with
  | Mat n rows => Forall (fun r => length r = n) rows
  | _ => True
  end.

Definition flatten (t : Tensor) : list A :=
  match t with
  | Scal x => [x]
  | Vec v => v
  | Mat _ rows => concat rows
  end.

Definition size (t : Tensor) : nat :=
  match t with
  | Scal _ => 1
  | Vec v => length v
  | Mat n rows => length rows * n
  end.

Definition tmap (f : A -> A) (t : Tensor) : Tensor :=
  match t with
  | Scal x => Scal (f x)
  | Vec v => Vec (map f v)
  | Mat n rows => Mat n (map (map f) rows)
  end.

Definition ssum (l : list A) : A := fold_right sadd szero l.

Definition dot (u v : list A) : A := ssum (zip_with smul u v).

Definition column (j : nat) (rows : list (list A)) : list A :=
  map (fun r => nth j r szero) rows.

Definition transpose (n : nat) (rows : list (list A)) : list (list A) :=
  map (fun j => column j rows) (seq 0 n).

Fixpoint spow (x : A) (n : nat) : A :=
  match n with
  | O => sone
  | S n' => smul x (spow x n')
  end.

(** *** Kernels *)

(** [tf.matmul(a, b, transpose_a, transpose_b)] on matrices. *)
Definition k_matmul (ta tb : bool) (a b : Tensor) : result Tensor :=
  match a, b with
  | Mat na ra, Mat nb rb =>
      let inner_a := if ta then length ra else na in
      let rows_a := if ta then transpose na ra else ra in
      let inner_b := if tb then nb else length rb in
      let ncols := if tb then length rb else nb in
      let cols_b := if tb then rb else transpose nb rb in
      if inner_a =? inner_b
      then Ok (Mat ncols (map (fun r => map (fun c => dot r c) cols_b) rows_a))
      else Err (MatrixSizeIncompatible (shape_of a) (shape_of b))
  | _, _ => Err (MatMulRank (shape_of a) (shape_of b))
  end.

(** A Python axis, negative ones counting from the end, as an index below
    [rank]. *)
Definition norm_axis (rank : nat) (axis : Z) : option nat :=
  let a := (if axis <? 0 then axis + Z.of_nat rank else axis)%Z in
  if ((0 <=? a) && (a <? Z.of_nat rank))%Z then Some (Z.to_nat a) else None.

(** [tf.squeeze(t, axis)]. *)
Definition k_squeeze (axis : Z) (t : Tensor) : result Tensor :=
  match norm_axis (length (shape_of t)) axis, t with
  | Some 0, Vec [x] => Ok (Scal x)
  | Some 0, Mat n [r] => Ok (Vec r)
  | Some 1, Mat 1 rows => Ok (Vec (column 0 rows))
  | Some _, _ => Err (CannotSqueeze (shape_of t))
  | None, _ => Err (AxisOutOfRange "Squeeze" (shape_of t))
  end.

(** Broadcasting of two dimensions, and of two shapes aligned at the right. *)
Definition bdim (a b : nat) : option nat :=
  if a =? b then Some a
  else if a =? 1 then Some b
  else if b =? 1 then Some a
  else None.

Fixpoint bshape_rev (s1 s2 : list nat) : option (list nat) :=
  match s1, s2 with
  | [], s => Some s
  | s, [] => Some s
  | a :: s1', b :: s2' =>
      match bdim a b, bshape_rev s1' s2' with
      | Some d, Some s => Some (d :: s)
      | _, _ => None
      end
  end.

Definition broadcast_shape (s1 s2 : shape) : option shape :=
  match bshape_rev (rev s1) (rev s2) with
  | Some s => Some (rev s)
  | None => None
  end.

(** Entry [(i, j)] of [t] seen at a broadcast shape: a dimension of size 1
    is read at index 0. *)
Definition bget (t : Tensor) (i j : nat) : A :=
  match t with
  | Scal x => x
  | Vec v => nth (if length v =? 1 then 0 else j) v szero
  | Mat n rows =>
      nth (if n =? 1 then 0 else j)
          (nth (if length rows =? 1 then 0 else i) rows []) szero
  end.

Definition tabulate (s : shape) (f : nat -> nat -> A) : result Tensor :=
  match s with
  | [] => Ok (Scal (f 0 0))
  | [n] => Ok (Vec (map (f 0) (seq 0 n)))
  | [m; n] => Ok (Mat n (map (fun i => map (f i) (seq 0 n)) (seq 0 m)))
  | _ => Err (OutsideModel "rank above 2")
  end.

Definition shape_eqb (s1 s2 : shape) : bool :=
  if decide (s1 = s2) then true else false.

(** Entry by entry on two tensors of one shape. *)
Definition k_zip (f : A -> A -> A) (a b : Tensor) : Tensor :=
  match a, b with
  | Scal x, Scal y => Scal (f x y)
  | Vec u, Vec v => Vec (zip_with f u v)
  | Mat n ra, Mat _ rb => Mat n (zip_with (zip_with f) ra rb)
  | _, _ => a
  end.

(** A binary element-wise op ([+], [-], [*], [/]) with broadcasting. *)
Definition k_binop (op : string) (f : A -> A -> A) (a b : Tensor)
  : result Tensor :=
  if shape_eqb (shape_of a) (shape_of b) then Ok (k_zip f a b)
  else match broadcast_shape (shape_of a) (shape_of b) with
       | Some s => tabulate s (fun i j => f (bget a i j) (bget b i j))
       | None => Err (IncompatibleShapes op (shape_of a) (shape_of b))
       end.

(** [x ** n] for a Python integer literal [n]. *)
Definition k_pow (t : Tensor) (n : nat) : Tensor :=
  tmap (fun x => spow x n) t.

(** [tf.reduce_mean(t)] over all axes. *)
Definition k_reduce_mean (t : Tensor) : Tensor :=
  Scal (sdiv (ssum (flatten t)) (sofnat (size t))).

(** A tensor of shape [s] filled with [x]. *)
Definition k_fill (s : shape) (x : A) : result Tensor :=
  tabulate s (fun _ _ => x).

Fixpoint chunks (n m : nat) (data : list A) : list (list A) :=
  match m with
  | O => []
  | S m' => firstn n data :: chunks n m' (skipn n data)
  end.

Definition shape_size (s : shape) : nat := fold_right Nat.mul 1 s.

(** [tf.reshape(t, s)]: the same entries in row-major order. *)
Definition k_reshape (s : shape) (t : Tensor) : result Tensor :=
  if size t =? shape_size s then
    match s with
    | [] => Ok (Scal (nth 0 (flatten t) szero))
    | [n] => Ok (Vec (flatten t))
    | [m; n] => Ok (Mat n (chunks n m (flatten t)))
    | _ => Err (OutsideModel "rank above 2")
    end
  else Err (ReshapeSize (shape_of t) s).

(** The sum of a gradient over the axes along which an operand of shape [s]
    was broadcast, reshaped to [s]. *)
Definition k_reduce_to (s : shape) (g : Tensor) : Tensor :=
  if shape_eqb (shape_of g) s then g
  else match s, g with
       | [], _ => Scal (ssum (flatten g))
       | [k], Vec v => Vec [ssum v]
       | [k], Mat n rows =>
           if k =? n then Vec (map ssum (transpose n rows))
           else Vec [ssum (flatten g)]
       | [a; b], Mat n rows =>
           if a =? length rows then Mat 1 (map (fun r => [ssum r]) rows)
           else if b =? n then Mat n [map ssum (transpose n rows)]
           else Mat 1 [[ssum (flatten g)]]
       | _, _ => g
       end.

(** [tf.stack(ts, axis=1)]: the inputs become the columns of the result. *)
Definition stack_rows (m : nat) (cols : list (list A)) : list (list A) :=
  map (fun i => map (fun c => nth i c szero) cols) (seq 0 m).

Fixpoint k_stack_cols (m : nat) (ts : list Tensor) : result (list (list A)) :=
  match ts with
  | [] => Ok []
  | Vec v :: ts' =>
      if length v =? m
      then rbind (k_stack_cols m ts') (fun cs => Ok (v :: cs))
      else Err (StackShapeMismatch [m] [length v])
  | t :: _ => Err (StackShapeMismatch [m] (shape_of t))
  end.

(** [tf.stack(ts, axis)] on tensors of rank 0 and 1. *)
Definition k_stack (axis : Z) (ts : list Tensor) : result Tensor :=
  match ts with
  | [] => Err (AxisOutOfRange "Pack" [])
  | Scal _ :: _ =>
      match norm_axis 1 axis with
      | Some _ =>
          if forallb (fun t => shape_eqb (shape_of t) []) ts
          then Ok (Vec (concat (map flatten ts)))
          else Err (StackShapeMismatch [] [])
      | None => Err (AxisOutOfRange "Pack" [])
      end
  | Vec v :: _ =>
      match norm_axis 2 axis with
      | Some 0 =>
          rbind (k_stack_cols (length v) ts)
                (fun rs => Ok (Mat (length v) rs))
      | Some _ =>
          rbind (k_stack_cols (length v) ts)
                (fun cs => Ok (Mat (length ts) (stack_rows (length v) cs)))
      | None => Err (AxisOutOfRange "Pack" [length v])
      end
  | Mat _ _ :: _ => Err (OutsideModel "rank above 2")
  end.

(** [np.zeros((m, n))]. *)
Definition zeros (m n : nat) : Tensor := Mat n (replicate m (replicate n szero)).

End Tensors.
Arguments Tensor A : clear implicits.

(** ** The eager runtime: handles, the variable store and gradient tapes *)

Section Runtime.
Context {A : Type} `{SA : Scalar A}.

(** An eager tensor: an immutable value under a unique id. *)
Record ETensor := { tid : nat; tval : Tensor A }.

(** A [tf.Variable]: a handle on a cell of the variable store. *)
Record TFVariable := { vid : nat }.

(** What a tape records for an executed op: its inputs with their values,
    and the id of its output. *)
Inductive OpRec :=
| RecMatMul (a b : ETensor) (out : nat)
| RecSqueeze (a : ETensor) (out : nat)
| RecSub (a b : ETensor) (out : nat)
| RecMul (a b : ETensor) (out : nat)
| RecAdd (a b : ETensor) (out : nat)
| RecPow (a : ETensor) (n : nat) (out : nat)
| RecMean (a : ETensor) (out : nat)
| RecOther (op : string) (out : nat).

Record Runtime := {
  next_id : nat;                       (* the runtime's id counter *)
  vars : gmap nat (Tensor A);          (* current value of every variable *)
  tapes : list (list OpRec)            (* the active tapes, innermost first *)
}.

(** Computations that read and update the runtime and may raise. *)
Definition TF (X : Type) := Runtime -> result (X * Runtime).

Definition ret {X} (x : X) : TF X := fun rt => Ok (x, rt).

Definition bind {X Y} (m : TF X) (k : X -> TF Y) : TF Y :=
  fun rt => match m rt with
            | Ok (x, rt') => k x rt'
            | Err e => Err e
            end.

Definition raise {X} (e : TFError) : TF X := fun _ => Err e.

Definition lift {X} (r : result X) : TF X :=
  fun rt => match r with
            | Ok x => Ok (x, rt)
            | Err e => Err e
            end.

End Runtime.
Arguments ETensor A : clear implicits.
Arguments OpRec A : clear implicits.
Arguments Runtime A : clear implicits.
Arguments TF A X : clear implicits.

Declare Scope tf_scope.
Delimit Scope tf_scope with tf.
Notation "x <- m ;; k" := (bind m (fun x => k))
  (at level 20, m at level 99, k at level 200, only parsing) : tf_scope.
Notation "' pat <- m ;; k" := (bind m (fun x => match x with pat => k end))
  (at level 20, pat pattern, m at level 99, k at level 200, only parsing)
  : tf_scope.
Open Scope tf_scope.

(** ** Recording ops and running the backward pass *)

Section Tape.
Context {A : Type} `{SA : Scalar A}.

(** A new eager tensor holding [t], recorded as [r] on the active tapes. *)
Definition emit (t : Tensor A) (r : nat -> OpRec A) : TF A (ETensor A) :=
  fun rt =>
    let id := next_id rt in
    Ok ({| tid := id; tval := t |},
        {| next_id := S id; vars := vars rt;
           tapes := map (cons (r id)) (tapes rt) |}).

(** A new eager tensor that no op produced ([tf.constant], a converted
    Python number, a computed gradient). *)
Definition fresh (t : Tensor A) : TF A (ETensor A) :=
  fun rt =>
    Ok ({| tid := next_id rt; tval := t |},
        {| next_id := S (next_id rt); vars := vars rt; tapes := tapes rt |}).

Definition op_out (r : OpRec A) : nat :=
  match r with
  | RecMatMul _ _ o | RecSqueeze _ o | RecSub _ _ o | RecMul _ _ o
  | RecAdd _ _ o | RecPow _ _ o | RecMean _ o | RecOther _ o => o
  end.

(** The registered gradient of each op: from the gradient [g] of its output
    to the gradients of its inputs. *)
Definition op_grad (r : OpRec A) (g : Tensor A)
  : result (list (nat * Tensor A)) :=
  match r with
  | RecMatMul a b _ =>
      rbind (k_matmul false true g (tval b)) (fun ga =>
      rbind (k_matmul true false (tval a) g) (fun gb =>
      Ok [(tid a, ga); (tid b, gb)]))
  | RecSqueeze a _ =>
      rbind (k_reshape (shape_of (tval a)) g) (fun ga => Ok [(tid a, ga)])
  | RecSub a b _ =>
      Ok [(tid a, k_reduce_to (shape_of (tval a)) g);
          (tid b, k_reduce_to (shape_of (tval b)) (tmap sneg g))]
  | RecMul a b _ =>
      rbind (k_binop "Mul" smul g (tval b)) (fun ga =>
      rbind (k_binop "Mul" smul (tval a) g) (fun gb =>
      Ok [(tid a, k_reduce_to (shape_of (tval a)) ga);
          (tid b, k_reduce_to (shape_of (tval b)) gb)]))
  | RecAdd a b _ =>
      Ok [(tid a, k_reduce_to (shape_of (tval a)) g);
          (tid b, k_reduce_to (shape_of (tval b)) g)]
  | RecPow a n _ =>
      (* grad * y * pow(x, y - 1) *)
      rbind (k_binop "Mul" smul (tmap (fun gi => smul gi (sofnat n)) g)
                     (k_pow (tval a) (n - 1)))
            (fun ga => Ok [(tid a, ga)])
  | RecMean a _ =>
      (* the gradient tiled to the input's shape, divided by its size *)
      match g with
      | Scal gx =>
          rbind (k_fill (shape_of (tval a)) gx) (fun tiled =>
          Ok [(tid a,
               tmap (fun x => sdiv x (sofnat (size (tval a)))) tiled)])
      | _ => Err (IncompatibleShapes "Mean_grad" [] (shape_of g))
      end
  | RecOther op _ => Err (NoGradientRule op)
  end.

(** [tf.add_n]: the sum of tensors of one shape. *)
Fixpoint add_n_from (acc : Tensor A) (gs : list (Tensor A))
  : result (Tensor A) :=
  match gs with
  | [] => Ok acc
  | g :: gs' =>
      if shape_eqb (shape_of acc) (shape_of g)
      then add_n_from (k_zip sadd acc g) gs'
      else Err (IncompatibleShapes "AddN" (shape_of acc) (shape_of g))
  end.

Definition add_n (gs : list (Tensor A)) : result (Tensor A) :=
  match gs with
  | [] => Err (PyTypeError "add_n of no tensor")
  | g :: gs' => add_n_from g gs'
  end.

(** The gradients that have reached each tensor so far, in order of
    arrival.  They are summed when the tensor's own op is reached, or at
    the end for the source. *)
Definition push (grads : gmap nat (list (Tensor A))) (kv : nat * Tensor A)
  : gmap nat (list (Tensor A)) :=
  <[kv.1 := default [] (grads !! kv.1) ++ [kv.2]]> grads.

(** The backward pass over the records, newest first. *)
Fixpoint backprop (recs : list (OpRec A)) (grads : gmap nat (list (Tensor A)))
  : result (gmap nat (list (Tensor A))) :=
  match recs with
  | [] => Ok grads
  | r :: rest =>
      match grads !! op_out r with
      | None => backprop rest grads
      | Some gs =>
          rbind (add_n gs) (fun g =>
          rbind (op_grad r g) (fun ins =>
          backprop rest (fold_left push ins grads)))
      end
  end.

End Tape.

(** The calls into the [tf] namespace, under the names the notebook uses. *)
Module tf.
Section Ops.
Context {A : Type} `{SA : Scalar A} `{EA : Elementary A}.

Definition constant (t : Tensor A) : TF A (ETensor A) := fresh t.

Definition matmul (a b : ETensor A) : TF A (ETensor A) :=
  t <- lift (k_matmul false false (tval a) (tval b)) ;;
  emit t (RecMatMul a b).

Definition squeeze (a : ETensor A) (axis : Z) : TF A (ETensor A) :=
  t <- lift (k_squeeze axis (tval a)) ;;
  emit t (RecSqueeze a).

Definition sub (a b : ETensor A) : TF A (ETensor A) :=
  t <- lift (k_binop "Sub" ssub (tval a) (tval b)) ;;
  emit t (RecSub a b).

Definition mul (a b : ETensor A) : TF A (ETensor A) :=
  t <- lift (k_binop "Mul" smul (tval a) (tval b)) ;;
  emit t (RecMul a b).

Definition add (a b : ETensor A) : TF A (ETensor A) :=
  t <- lift (k_binop "AddV2" sadd (tval a) (tval b)) ;;
  emit t (RecAdd a b).

Definition pow (a : ETensor A) (n : nat) : TF A (ETensor A) :=
  emit (k_pow (tval a) n) (RecPow a n).

Definition reduce_mean (a : ETensor A) : TF A (ETensor A) :=
  emit (k_reduce_mean (tval a)) (RecMean a).

Definition ones_like (a : ETensor A) : TF A (ETensor A) :=
  emit (tmap (fun _ => sone) (tval a)) (RecOther "OnesLike").

Definition square (a : ETensor A) : TF A (ETensor A) :=
  emit (tmap (fun x => smul x x) (tval a)) (RecOther "Square").

Definition sqrt (a : ETensor A) : TF A (ETensor A) :=
  emit (tmap ssqrt (tval a)) (RecOther "Sqrt").

Definition exp (a : ETensor A) : TF A (ETensor A) :=
  emit (tmap sexp (tval a)) (RecOther "Exp").

Definition stack (ts : list (ETensor A)) (axis : Z) : TF A (ETensor A) :=
  t <- lift (k_stack axis (map tval ts)) ;;
  emit t (RecOther "Pack").

(** [t.shape[i]]. *)
Definition shape_index (a : ETensor A) (i : nat) : TF A nat :=
  match nth_error (shape_of (tval a)) i with
  | Some d => ret d
  | None => raise (PyIndexError "tuple index out of range")
  end.

(** *** Variables *)

(** [tf.Variable(init)]. *)
Definition mk_Variable (init : Tensor A) : TF A TFVariable :=
  fun rt =>
    Ok ({| vid := next_id rt |},
        {| next_id := S (next_id rt);
           vars := <[next_id rt := init]> (vars rt);
           tapes := tapes rt |}).

(** Using a variable as an operand reads its current value; the tensor that
    results stands for the variable on the tape. *)
Definition read_value (W : TFVariable) : TF A (ETensor A) :=
  fun rt =>
    match vars rt !! vid W with
    | Some v => Ok ({| tid := vid W; tval := v |}, rt)
    | None => Err (UnknownVariable (vid W))
    end.

(** [W.assign_sub(delta)]: in place, and only with a value of [W]'s shape. *)
Definition assign_sub (W : TFVariable) (delta : ETensor A) : TF A unit :=
  fun rt =>
    match vars rt !! vid W with
    | Some v =>
        if shape_eqb (shape_of v) (shape_of (tval delta))
        then Ok (tt, {| next_id := next_id rt;
                        vars := <[vid W := k_zip ssub v (tval delta)]> (vars rt);
                        tapes := tapes rt |})
        else Err (AssignShapeMismatch (shape_of v) (shape_of (tval delta)))
    | None => Err (UnknownVariable (vid W))
    end.

(** *** Gradient tapes *)

(** [with tf.GradientTape() as tape: body]: a new innermost tape is active
    while [body] runs; its records come back newest first. *)
Definition GradientTape {X} (body : TF A X) : TF A (X * list (OpRec A)) :=
  fun rt =>
    match body {| next_id := next_id rt; vars := vars rt;
                  tapes := [] :: tapes rt |} with
    | Ok (x, rt') =>
        Ok ((x, hd [] (tapes rt')),
            {| next_id := next_id rt'; vars := vars rt';
               tapes := tl (tapes rt') |})
    | Err e => Err e
    end.

(** The gradient that has reached [source], as a new tensor; [None] when
    none has. *)
Definition collect (grads : gmap nat (list (Tensor A))) (source : TFVariable)
  : TF A (option (ETensor A)) :=
  match grads !! vid source with
  | None => ret None
  | Some gs => g <- lift (add_n gs) ;; e <- fresh g ;; ret (Some e)
  end.

Fixpoint collect_all (grads : gmap nat (list (Tensor A)))
  (sources : list TFVariable) : TF A (list (option (ETensor A))) :=
  match sources with
  | [] => ret []
  | v :: sources' =>
      g <- collect grads v ;;
      gs <- collect_all grads sources' ;;
      ret (g :: gs)
  end.

(** [tape.gradient(target, source)]; [None] when [target] does not depend
    on [source]. *)
Definition gradient (recs : list (OpRec A)) (target : ETensor A)
  (source : TFVariable) : TF A (option (ETensor A)) :=
  seed <- lift (k_fill (shape_of (tval target)) sone) ;;
  grads <- lift (backprop recs {[ tid target := [seed] ]}) ;;
  collect grads source.

(** [tape.gradient(target, [source, ...])]. *)
Definition gradients (recs : list (OpRec A)) (target : ETensor A)
  (sources : list TFVariable) : TF A (list (option (ETensor A))) :=
  seed <- lift (k_fill (shape_of (tval target)) sone) ;;
  grads <- lift (backprop recs {[ tid target := [seed] ]}) ;;
  collect_all grads sources.

End Ops.
End tf.

(** ** Python's [for step in range(lo, hi)] *)

Definition py_range (lo hi : Z) : list Z :=
  map (fun i => (lo + Z.of_nat i)%Z) (seq 0 (Z.to_nat (hi - lo))).

Section Loops.
Context {A : Type}.

(** The loop body runs once per element, in order, on the loop's state; an
    exception leaves the loop. *)
Fixpoint for_each {I S} (items : list I) (body : I -> S -> TF A S) (s : S)
  : TF A S :=
  match items with
  | [] => ret s
  | i :: items' => s' <- body i s ;; for_each items' body s'
  end.

End Loops.

(** ** The notebook, section "Bonus": a linear model on engineered features *)

Module Bonus.
Section Bonus.
Context {A : Type} `{SA : Scalar A} `{EA : Elementary A}.

Definition make_features (X : ETensor A) : TF A (ETensor A) :=
  f1 <- tf.ones_like X ;;  (* Bias. *)
  let f2 := X in
  f3 <- tf.square X ;;
  f4 <- tf.sqrt X ;;
  f5 <- tf.exp X ;;
  tf.stack [f1; f2; f3; f4; f5] 1.

Definition predict (X : ETensor A) (W : TFVariable) : TF A (ETensor A) :=
  w <- tf.read_value W ;;
  XW <- tf.matmul X w ;;
  tf.squeeze XW (-1).

Definition loss_mse (X Y : ETensor A) (W : TFVariable) : TF A (ETensor A) :=
  Y_hat <- predict X W ;;
  diff <- tf.sub Y_hat Y ;;
  errors <- tf.pow diff 2 ;;
  tf.reduce_mean errors.

Definition compute_gradients (X Y : ETensor A) (W : TFVariable)
  : TF A (option (ETensor A)) :=
  ' (loss, tape) <- tf.GradientTape (loss_mse X Y W) ;;
  tf.gradient tape loss W.

(** [dW * LEARNING_RATE]; Python raises when [dW] is [None]. *)
Definition times_float (dW : option (ETensor A)) (c : A) : TF A (ETensor A) :=
  match dW with
  | Some d => c' <- tf.constant (Scal c) ;; tf.mul d c'
  | None =>
      raise (PyTypeError "unsupported operand type(s) for *: NoneType and float")
  end.

(** The lists [steps] and [losses] that the training cell appends to. *)
Record Report := { steps : list Z; losses : list (ETensor A) }.

(** The body of the training cell's [for] loop.  The calls to [plt] draw
    [steps] against [losses] and are not modelled. *)
Definition train_step (Xf Y : ETensor A) (W : TFVariable) (LEARNING_RATE : A)
  (step : Z) (rep : Report) : TF A Report :=
  dW <- compute_gradients Xf Y W ;;
  delta <- times_float dW LEARNING_RATE ;;
  _ <- tf.assign_sub W delta ;;
  if (step mod 100 =? 0)%Z then
    loss <- loss_mse Xf Y W ;;
    ret {| steps := steps rep ++ [step]; losses := losses rep ++ [loss] |}
  else ret rep.

(** The weights of the training cell: [n_weights = Xf.shape[1]] and
    [W = tf.Variable(np.zeros((n_weights, 1)))]. *)
Definition init_weights (Xf : ETensor A) : TF A TFVariable :=
  n_weights <- tf.shape_index Xf 1 ;;
  tf.mk_Variable (zeros n_weights 1).

(** The training cell, with the dataset, [STEPS] and [LEARNING_RATE] as its
    inputs.  It yields the variable [W], the report and the MSE it prints
    at the end. *)
Definition train (X Y : ETensor A) (STEPS : Z) (LEARNING_RATE : A)
  : TF A (TFVariable * Report * ETensor A) :=
  Xf <- make_features X ;;
  W <- init_weights Xf ;;
  rep <- for_each (py_range 1 (STEPS + 1))
                  (train_step Xf Y W LEARNING_RATE)
                  {| steps := []; losses := [] |} ;;
  mse <- loss_mse Xf Y W ;;
  ret (W, rep, mse).

End Bonus.
End Bonus.

(** ** The notebook, section "Linear Regression": two scalar weights *)

Module Lab.
Section Lab.
Context {A : Type} `{SA : Scalar A} `{EA : Elementary A}.

(** The toy dataset: [X = tf.constant(range(10))], [Y = 2 * X + 10]. *)
Definition dataset : TF A (ETensor A * ETensor A) :=
  X <- tf.constant (Vec (map sofnat (seq 0 10))) ;;
  two <- tf.constant (Scal (sofnat 2)) ;;
  X2 <- tf.mul two X ;;
  ten <- tf.constant (Scal (sofnat 10)) ;;
  Y <- tf.add X2 ten ;;
  ret (X, Y).

Definition loss_mse (X Y : ETensor A) (w0 w1 : TFVariable)
  : TF A (ETensor A) :=
  a <- tf.read_value w0 ;;
  b <- tf.read_value w1 ;;
  aX <- tf.mul a X ;;
  Y_hat <- tf.add aX b ;;
  diff <- tf.sub Y_hat Y ;;
  errors <- tf.pow diff 2 ;;
  tf.reduce_mean errors.

(** Modelled from the spec: the body of [compute_gradients(X, Y, w0, w1)],
    which the lab leaves to the student (Lab Task #6).  Section 4.2 allows
    reverse-mode differentiation over the loss evaluator, and the lab's text
    asks for it: the loss under a [tf.GradientTape], then
    [tape.gradient(loss, [w0, w1])]. *)
Definition compute_gradients (X Y : ETensor A) (w0 w1 : TFVariable)
  : TF A (option (ETensor A) * option (ETensor A)) :=
  ' (loss, tape) <- tf.GradientTape (loss_mse X Y w0 w1) ;;
  gs <- tf.gradients tape loss [w0; w1] ;;
  match gs with
  | [dw0; dw1] => ret (dw0, dw1)
  | _ => raise (PyTypeError "cannot unpack")
  end.

(** The gradient in the words of section 4.2, [(2/m) * X^T (X w - y)], for
    the two features [(x, 1)]:
    [dw0 = (2/m) * sum (x_i * (w0 * x_i + w1 - y_i))] and
    [dw1 = (2/m) * sum (w0 * x_i + w1 - y_i)]. *)
Definition analytic_gradient (xs ys : list A) (a b : A) : A * A :=
  let residual := zip_with (fun x y => ssub (sadd (smul a x) b) y) xs ys in
  let c := sdiv (sofnat 2) (sofnat (length xs)) in
  (smul c (dot xs residual), smul c (ssum residual)).

(** One line of the cell's output: [step], [loss], [w0] and [w1]. *)
Record Line := { l_step : Z; l_loss : Tensor A; l_w0 : Tensor A; l_w1 : Tensor A }.

(** Modelled from the spec: the statements of the loop body that the lab
    leaves to the student (Lab Task #7, section 4.3): the gradients from
    [compute_gradients], [w.assign_sub(dw * LEARNING_RATE)] for each weight,
    and [loss_mse] for the reported loss.  The loop, the reporting test and
    the printed line are the cell's. *)
Definition train_step (X Y : ETensor A) (w0 w1 : TFVariable)
  (LEARNING_RATE : A) (step : Z) (out : list Line) : TF A (list Line) :=
  ' (dw0, dw1) <- compute_gradients X Y w0 w1 ;;
  d0 <- Bonus.times_float dw0 LEARNING_RATE ;;
  _ <- tf.assign_sub w0 d0 ;;
  d1 <- Bonus.times_float dw1 LEARNING_RATE ;;
  _ <- tf.assign_sub w1 d1 ;;
  if (step mod 100 =? 0)%Z then
    loss <- loss_mse X Y w0 w1 ;;
    a <- tf.read_value w0 ;;
    b <- tf.read_value w1 ;;
    ret (out ++ [{| l_step := step; l_loss := tval loss;
                    l_w0 := tval a; l_w1 := tval b |}])
  else ret out.

Definition train (X Y : ETensor A) (STEPS : Z) (LEARNING_RATE : A)
  : TF A (TFVariable * TFVariable * list Line) :=
  w0 <- tf.mk_Variable (Scal szero) ;;
  w1 <- tf.mk_Variable (Scal szero) ;;
  out <- for_each (py_range 1 (STEPS + 1))
                  (train_step X Y w0 w1 LEARNING_RATE) [] ;;
  ret (w0, w1, out).

End Lab.
End Lab.

(** ** The notebook, sections "Toy Dataset" and "Loss Function": the test
    set and the baseline that always predicts the mean *)

Module Baseline.
Section Baseline.
Context {A : Type} `{SA : Scalar A}.

(** The two dataset cells, [X = tf.constant(range(10))] and
    [X_test = tf.constant(range(10, 20))], each followed by
    [Y = 2 * X + 10], with the bounds of the range as inputs. *)
Definition range_dataset (lo hi : nat) : TF A (ETensor A * ETensor A) :=
  X <- tf.constant (Vec (map sofnat (seq lo (hi - lo)))) ;;
  two <- tf.constant (Scal (sofnat 2)) ;;
  X2 <- tf.mul two X ;;
  ten <- tf.constant (Scal (sofnat 10)) ;;
  Y <- tf.add X2 ten ;;
  ret (X, Y).

(** [y_mean = Y.numpy().mean()]: the sum of all entries over their number. *)
Definition y_mean (Y : ETensor A) : A :=
  sdiv (ssum (flatten (tval Y))) (sofnat (size (tval Y))).

(** Python's [len(X)] on a tensor: its first dimension, and a [TypeError]
    on a scalar. *)
Definition len (X : ETensor A) : TF A nat :=
  match shape_of (tval X) with
  | [] => raise (PyTypeError "Scalar tensor has no `len()`")
  | d :: _ => ret d
  end.

(** [predict_mean(X)], with the global [y_mean] that it reads as an
    argument: the Python list [[y_mean] * len(X)]. *)
Definition predict_mean (y_mean : A) (X : ETensor A) : TF A (list A) :=
  n <- len X ;;
  let y_hat := replicate n y_mean in
  ret y_hat.

(** The cell [errors = (Y_hat - Y_test) ** 2; loss = tf.reduce_mean(errors)].
    [Y_hat] is a Python list: the overloaded [-] first converts it to a
    tensor. *)
Definition baseline_loss (Y_hat : list A) (Y_test : ETensor A)
  : TF A (ETensor A) :=
  Y_hat_t <- tf.constant (Vec Y_hat) ;;
  diff <- tf.sub Y_hat_t Y_test ;;
  errors <- tf.pow diff 2 ;;
  tf.reduce_mean errors.

(** The three cells in a row: the mean of the training targets, the
    baseline's predictions on the test inputs, and their loss against the
    test targets. *)
Definition baseline (Y X_test Y_test : ETensor A) : TF A (ETensor A) :=
  Y_hat <- predict_mean (y_mean Y) X_test ;;
  baseline_loss Y_hat Y_test.

End Baseline.
End Baseline.

(** ** Arithmetic: exact real numbers, rationals for evaluation, float32 *)

(** The real numbers stand for float32 without rounding.  They agree with
    it up to rounding where every value is a finite number; they have no
    NaN and no infinity, and nothing underflows.  The two differ where
    float32 leaves the finite numbers: the mean of no value ([0 / 0] is
    NaN, and [Rdiv] gives 0), the square root of a negative number (NaN,
    and [sqrt] gives 0) and an exponential that overflows.  The results
    below on the value of the loss and on the losses of a training run
    exclude these inputs by hypothesis; [Scalar_F32] shows what the code
    does on them. *)
#[global] Instance Scalar_R : Scalar R := {|
  szero := 0%R; sone := 1%R;
  sadd := Rplus; ssub := Rminus; smul := Rmult; sdiv := Rdiv;
  sneg := Ropp; sofnat := INR
|}.

#[global] Instance Elementary_R : Elementary R := {|
  ssqrt := R_sqrt.sqrt; sexp := Rtrigo_def.exp
|}.

#[global] Instance Scalar_Q : Scalar Q := {|
  szero := 0%Q; sone := 1%Q;
  sadd := Qplus; ssub := Qminus; smul := Qmult; sdiv := Qdiv;
  sneg := Qopp; sofnat := fun n => inject_Z (Z.of_nat n)
|}.

(** The float32 number nearest to [m * 2^e]. *)
Definition f32 (m e : Z) : spec_float := binary_normalize 24 128 m e false.

(** IEEE 754 binary32, the [tf.float32] of the notebook: 24 bits of
    mantissa, exponents below 128, rounding to nearest even, one NaN. *)
#[global] Instance Scalar_F32 : Scalar spec_float := {|
  szero := S754_zero false; sone := f32 1 0;
  sadd := SFadd 24 128; ssub := SFsub 24 128; smul := SFmul 24 128;
  sdiv := SFdiv 24 128; sneg := SFopp;
  sofnat := fun n => f32 (Z.of_nat n) 0
|}.

(** The elementary functions of float32: the square root of IEEE 754, and
    the exponential as a parameter, since [SpecFloat] has none. *)
Definition Elementary_F32 (exp32 : spec_float -> spec_float)
  : Elementary spec_float :=
  {| ssqrt := SFsqrt 24 128; sexp := exp32 |}.

(** The value that a computation returns, when it returns. *)
Definition run_value {A X} (r : result (X * Runtime A)) : option X :=
  match r with
  | Ok (x, _) => Some x
  | Err _ => None
  end.

(** A runtime in which nothing has been allocated. *)
Definition empty_runtime {A} : Runtime A :=
  {| next_id := 0; vars := ∅; tapes := [] |}.

(** ** What the notebook's functions compute, as plain functions on lists *)

Section Denotation.
Context {A : Type} `{SA : Scalar A} `{EA : Elementary A}.

(** The weight vector held by an [n x 1] matrix. *)
Definition weights (wrows : list (list A)) : list A := column 0 wrows.

Definition predictions (rows : list (list A)) (w : list A) : list A :=
  map (fun r => dot r w) rows.

Definition residuals (rows : list (list A)) (w ys : list A) : list A :=
  zip_with ssub (predictions rows w) ys.

Definition mean (l : list A) : A := sdiv (ssum l) (sofnat (length l)).

Definition mse (rows : list (list A)) (w ys : list A) : A :=
  mean (map (fun d => spow d 2) (residuals rows w ys)).

(** The loss in the words of the specification: the mean over the samples
    [(features, y)] of [(w . features - y)^2]. *)
Definition spec_loss (samples : list (list A * A)) (w : list A) : A :=
  mean (map (fun s => spow (ssub (dot s.1 w) s.2) 2) samples).

(** The five tape records of one run of [Bonus.loss_mse], newest first,
    when the first id it allocates is [i]. *)
Definition loss_records (X Y : ETensor A) (W : TFVariable)
  (n : nat) (rows wrows : list (list A)) (ys : list A) (i : nat)
  : list (OpRec A) :=
  let w := weights wrows in
  let XW := {| tid := i;
               tval := Mat 1 (map (fun r => [dot r w]) rows) |} in
  let Y_hat := {| tid := 1 + i; tval := Vec (predictions rows w) |} in
  let diff := {| tid := 2 + i; tval := Vec (residuals rows w ys) |} in
  let errors := {| tid := 3 + i;
                   tval := Vec (map (fun d => spow d 2)
                                    (residuals rows w ys)) |} in
  [ RecMean errors (4 + i);
    RecPow diff 2 (3 + i);
    RecSub Y_hat Y (2 + i);
    RecSqueeze XW (1 + i);
    RecMatMul X {| tid := vid W; tval := Mat 1 wrows |} i ].

(** The gradient that the backward pass sends to the residuals: the seed
    [1], through the rules of [Mean] and [Pow]. *)
Definition ad_residual_grads (rows : list (list A)) (w ys : list A) : list A :=
  let m := length rows in
  zip_with smul
    (map (fun gi => smul gi (sofnat 2))
         (map (fun x => sdiv x (sofnat m)) (map (fun _ => sone) (seq 0 m))))
    (map (fun d => spow d 1) (residuals rows w ys)).

(** The gradient that the backward pass sends to the weights: the rule of
    [MatMul] for its second operand. *)
Definition ad_gradient (n : nat) (rows : list (list A)) (w ys : list A)
  : Tensor A :=
  Mat 1 (map (fun c => [dot c (ad_residual_grads rows w ys)])
             (transpose n rows)).

(** The rows of [make_features(X)]: one row [1, x, x^2, sqrt x, exp x] per
    sample. *)
Definition feature_rows (xs : list A) : list (list A) :=
  stack_rows (length xs)
    [map (fun _ => sone) xs; xs; map (fun x => smul x x) xs;
     map ssqrt xs; map sexp xs].

(** The weight vector that a tensor holds. *)
Definition weights_of (Wv : Tensor A) : list A :=
  match Wv with
  | Scal x => [x]
  | Vec v => v
  | Mat _ wrows => weights wrows
  end.

(** One update of plain gradient descent on the value of [W]:
    [w - gradient(dataset, w) * learning_rate]. *)
Definition gd_map (n : nat) (rows : list (list A)) (ys : list A) (lr : A)
  (Wv : Tensor A) : Tensor A :=
  k_zip ssub Wv
        (tmap (fun g => smul g lr) (ad_gradient n rows (weights_of Wv) ys)).

(** The losses that the loop reports while it runs through [items]. *)
Fixpoint reported_losses (n : nat) (rows : list (list A)) (ys : list A)
  (lr : A) (items : list Z) (Wv : Tensor A) : list (Tensor A) :=
  match items with
  | [] => []
  | step :: items' =>
      let Wv' := gd_map n rows ys lr Wv in
      (if (step mod 100 =? 0)%Z
       then [Scal (mse rows (weights_of Wv') ys)] else [])
      ++ reported_losses n rows ys lr items' Wv'
  end.

(** An [n x 1] matrix. *)
Definition is_column (n : nat) (Wv : Tensor A) : Prop :=
  exists wrows, Wv = Mat 1 wrows /\ length wrows = n
                /\ Forall (fun r => length r = 1) wrows.

End Denotation.

(** ** What the lab's functions compute *)

Section LabDen.
Context {A : Type} `{SA : Scalar A}.

(** The predictions [w0 * x + w1] of the lab's model. *)
Definition lab_predictions (xs : list A) (a b : A) : list A :=
  map (fun x => sadd (smul a x) b) xs.

(** What [Lab.loss_mse] computes. *)
Definition lab_mse (xs ys : list A) (a b : A) : A :=
  mean (map (fun d => spow d 2) (zip_with ssub (lab_predictions xs a b) ys)).

Definition lab_residuals (xs ys : list A) (a b : A) : list A :=
  zip_with ssub (lab_predictions xs a b) ys.

(** The gradient that the backward pass sends to the residuals: the seed
    [1], through the rules of [Mean] and [Pow]. *)
Definition lab_residual_grads (xs ys : list A) (a b : A) : list A :=
  let m := length xs in
  zip_with smul
    (map (fun gi => smul gi (sofnat 2))
         (map (fun x => sdiv x (sofnat m)) (map (fun _ => sone) (seq 0 m))))
    (map (fun d => spow d 1) (lab_residuals xs ys a b)).

(** The gradients that the backward pass sends to [w0] and [w1]: the rules
    of [Mul] and [AddV2], summed over the samples along which the scalars
    were broadcast. *)
Definition lab_ad_gradient (xs ys : list A) (a b : A) : A * A :=
  let g := lab_residual_grads xs ys a b in
  (ssum (zip_with smul g xs), ssum g).

(** One update of both weights, from the gradient at the old weights. *)
Definition lab_gd_map (xs ys : list A) (lr : A) (ab : A * A) : A * A :=
  let g := lab_ad_gradient xs ys ab.1 ab.2 in
  (ssub ab.1 (smul g.1 lr), ssub ab.2 (smul g.2 lr)).

(** The five tape records of one run of [Lab.loss_mse], newest first, when
    the first id it allocates is [i]. *)
Definition lab_loss_records (X Y : ETensor A) (w0 w1 : TFVariable)
  (xs ys : list A) (a b : A) (i : nat) : list (OpRec A) :=
  let va := {| tid := vid w0; tval := Scal a |} in
  let vb := {| tid := vid w1; tval := Scal b |} in
  let aX := {| tid := i; tval := Vec (map (smul a) xs) |} in
  let Y_hat := {| tid := 1 + i; tval := Vec (lab_predictions xs a b) |} in
  let diff := {| tid := 2 + i; tval := Vec (lab_residuals xs ys a b) |} in
  let errors := {| tid := 3 + i;
                   tval := Vec (map (fun d => spow d 2)
                                    (lab_residuals xs ys a b)) |} in
  [ RecMean errors (4 + i);
    RecPow diff 2 (3 + i);
    RecSub Y_hat Y (2 + i);
    RecAdd aX vb (1 + i);
    RecMul va X i ].

(** The line printed at [step] when the weights are [ab]. *)
Definition lab_line (xs ys : list A) (step : Z) (ab : A * A) : Lab.Line :=
  {| Lab.l_step := step;
     Lab.l_loss := Scal (lab_mse xs ys ab.1 ab.2);
     Lab.l_w0 := Scal ab.1;
     Lab.l_w1 := Scal ab.2 |}.

(** The lines that the lab's loop prints while it runs through [items]. *)
Fixpoint lab_report (xs ys : list A) (lr : A) (items : list Z) (ab : A * A)
  : list Lab.Line :=
  match items with
  | [] => []
  | step :: items' =>
      let ab' := lab_gd_map xs ys lr ab in
      (if (step mod 100 =? 0)%Z then [lab_line xs ys step ab'] else [])
      ++ lab_report xs ys lr items' ab'
  end.

(** The toy dataset of the lab: [x = 0 .. 9] and [y = 2 x + 10]. *)
Definition toy_xs : list A := map sofnat (seq 0 10).
Definition toy_ys : list A :=
  map (fun x => sadd (smul (sofnat 2) x) (sofnat 10)) toy_xs.
End LabDen.

(** The error of the weights after [k] steps at learning rate 0.02 on the
    toy dataset, scaled by [50^k]: [w0 = 2 + e0 / 50^k] and
    [w1 = 10 + e1 / 50^k]. *)
Fixpoint toy_error (k : nat) : Z * Z :=
  match k with
  | O => (-2, -10)%Z
  | S k' => let e := toy_error k' in
            (-7 * e.1 - 9 * e.2, -9 * e.1 + 48 * e.2)%Z
  end.

(** ** The same functions over the real numbers *)

Section RealDenotation.
Local Open Scope R_scope.

(** The gradient in the words of the specification:
    [(2/m) * X^T (X w - y)] for [m] samples. *)
Definition closed_form_gradient (n : nat) (rows : list (list R))
  (w ys : list R) : Tensor R :=
  let m := length rows in
  let Xw := map (fun r => dot r w) rows in
  let diff := zip_with Rminus Xw ys in
  Mat 1 (map (fun col => [2 / INR m * dot col diff]) (transpose n rows)).

(** The gradient as a vector: entry [j] is [(2/m) * (column j . residuals)]. *)
Definition grad_vec (n : nat) (rows : list (list R)) (w ys : list R)
  : list R :=
  map (fun c => 2 / INR (length rows) * dot c (residuals rows w ys))
      (transpose n rows).

(** The sum of the squared residuals. *)
Definition sq_error (rows : list (list R)) (w ys : list R) : R :=
  ssum (map (fun d => d * d) (residuals rows w ys)).

(** [X^T e]: entry [j] is the product of column [j] with [e]. *)
Definition xt_times (n : nat) (rows : list (list R)) (e : list R) : list R :=
  map (fun c => dot c e) (transpose n rows).

(** The sum of the squares of all entries of the feature matrix. *)
Definition frobenius (rows : list (list R)) : R :=
  ssum (map (fun r => dot r r) rows).

(** The loss at the weights that a tensor holds. *)
Definition loss_at (rows : list (list R)) (ys : list R) (Wv : Tensor R) : R :=
  mse rows (weights_of Wv) ys.

(** A learning rate below which every update lowers the loss. *)
Definition safe_rate (rows : list (list R)) : R :=
  if (length rows =? 0)%nat then 1
  else INR (length rows) / (2 * frobenius rows + 1).

(** Each element is at most the one before it. *)
Fixpoint nonincreasing (l : list R) : Prop :=
  match l with
  | a :: ((b :: _) as t) => b <= a /\ nonincreasing t
  | _ => True
  end.

End RealDenotation.

(** ** Concrete inputs *)

Section Inputs.
Local Open Scope R_scope.

(** Two samples [(0, 10)] and [(1, 12)] of [y = 2 x + 10]; as a feature
    matrix with the columns [x] and [1]; the weights [(2, 10)] in a variable;
    and the same data under other ids in another runtime. *)
Definition ex_X : ETensor R := {| tid := 0; tval := Vec [0; 1] |}.
Definition ex_Y : ETensor R := {| tid := 1; tval := Vec [10; 12] |}.
Definition ex_rt : Runtime R := {| next_id := 2; vars := ∅; tapes := [] |}.

Definition ex_Xf : ETensor R := {| tid := 0; tval := Mat 2 [[0; 1]; [1; 1]] |}.
Definition ex_W : TFVariable := {| vid := 2 |}.
Definition ex_rtW : Runtime R :=
  {| next_id := 3; vars := {[ 2%nat := Mat 1 [[2]; [10]] ]}; tapes := [] |}.
Definition ex_w0 : TFVariable := {| vid := 2 |}.
Definition ex_w1 : TFVariable := {| vid := 3 |}.
Definition ex_rt_lab : Runtime R :=
  {| next_id := 4; vars := <[3%nat := Scal 10]> {[ 2%nat := Scal 2 ]}; tapes := [] |}.
Definition ex_rt_bad : Runtime R :=
  {| next_id := 3; vars := {[ 2%nat := zeros 3 1 ]}; tapes := [] |}.
Definition ex_Xf' : ETensor R := {| tid := 7; tval := Mat 2 [[0; 1]; [1; 1]] |}.
Definition ex_Y' : ETensor R := {| tid := 5; tval := Vec [10; 12] |}.
Definition ex_W' : TFVariable := {| vid := 9 |}.
Definition ex_rtW' : Runtime R :=
  {| next_id := 12;
     vars := <[9%nat := Mat 1 [[2]; [10]]]> {[ 2%nat := Scal 1 ]};
     tapes := [[]] |}.

(** A single number as input; the two targets as a [2 x 1] column; weights
    of two columns; and the lab's weights [(2, 10)] as weights of the five
    features. *)
Definition ex_x0 : ETensor R := {| tid := 0; tval := Scal 3 |}.
Definition ex_Ycol : ETensor R := {| tid := 1; tval := Mat 1 [[10]; [12]] |}.
Definition ex_rt_wide : Runtime R :=
  {| next_id := 3; vars := {[ 2%nat := Mat 2 [[1; 0]; [0; 1]] ]}; tapes := [] |}.
Definition ex_rt_feat : Runtime R :=
  {| next_id := 3;
     vars := {[ 2%nat := Mat 1 [[10]; [2]; [0]; [0]; [0]] ]};
     tapes := [] |}.

End Inputs.

Section RationalInputs.
Local Open Scope Q_scope.

(** Three samples of [y = 2 x + 1] with the features [(1, x)], and zero
    weights: the loss and its gradient. *)
Definition q_loss_and_gradient : TF Q (Tensor Q * option (Tensor Q)) :=
  X <- tf.constant (Mat 2 [[1; 0]; [1; 1]; [1; 2]]) ;;
  Y <- tf.constant (Vec [1; 3; 5]) ;;
  W <- tf.mk_Variable (zeros 2 1) ;;
  loss <- Bonus.loss_mse X Y W ;;
  dW <- Bonus.compute_gradients X Y W ;;
  ret (tmap Qred (tval loss), option_map (fun g => tmap Qred (tval g)) dW).

(** The same samples with three weights. *)
Definition q_mismatch : TF Q (ETensor Q) :=
  X <- tf.constant (Mat 2 [[1; 0]; [1; 1]; [1; 2]]) ;;
  Y <- tf.constant (Vec [1; 3; 5]) ;;
  W <- tf.mk_Variable (zeros 3 1) ;;
  Bonus.loss_mse X Y W.

(** One step of the lab's loop on the toy dataset. *)
Definition q_lab_step : TF Q (Tensor Q * Tensor Q) :=
  ' (X, Y) <- Lab.dataset ;;
  ' (w0, w1, _) <- Lab.train X Y 1 (2 # 100) ;;
  a <- tf.read_value w0 ;;
  b <- tf.read_value w1 ;;
  ret (tmap Qred (tval a), tmap Qred (tval b)).

Definition value_of {X} (r : result (X * Runtime Q)) : option X :=
  match r with
  | Ok (x, _) => Some x
  | Err _ => None
  end.

Definition error_of {X} (r : result (X * Runtime Q)) : option TFError :=
  match r with
  | Ok _ => None
  | Err e => Some e
  end.

End RationalInputs.

Section Float32Inputs.

(** The empty dataset: a feature matrix of five columns and no row, no
    target, and no sample for the lab's model. *)
Definition f_Xf_empty : ETensor spec_float := {| tid := 0; tval := Mat 5 [] |}.
Definition f_Y_empty : ETensor spec_float := {| tid := 1; tval := Vec [] |}.
Definition f_X_empty : ETensor spec_float := {| tid := 0; tval := Vec [] |}.

(** The one sample [x = -1], whose square root is NaN, and the one
    sample [x = 89], whose exponential is above the largest float32. *)
Definition f_X_negative : ETensor spec_float :=
  {| tid := 0; tval := Vec [f32 (-1) 0] |}.
Definition f_X_large : ETensor spec_float :=
  {| tid := 0; tval := Vec [f32 89 0] |}.
Definition f_Y_one : ETensor spec_float :=
  {| tid := 1; tval := Vec [f32 1 0] |}.

(** One sample with the feature [1] and the target [0], and the weight
    [2^-80]: the prediction [2^-80] is not the target, and its square is
    below the smallest float32. *)
Definition f_Xf_unit : ETensor spec_float :=
  {| tid := 0; tval := Mat 1 [[f32 1 0]] |}.
Definition f_X_unit : ETensor spec_float := {| tid := 0; tval := Vec [f32 1 0] |}.
Definition f_Y_zero : ETensor spec_float :=
  {| tid := 1; tval := Vec [S754_zero false] |}.

Definition f_W : TFVariable := {| vid := 2 |}.
Definition f_w0 : TFVariable := {| vid := 2 |}.
Definition f_w1 : TFVariable := {| vid := 3 |}.
Definition f_rt : Runtime spec_float :=
  {| next_id := 2; vars := ∅; tapes := [] |}.
Definition f_rt_zeros : Runtime spec_float :=
  {| next_id := 3; vars := {[ 2%nat := zeros 5 1 ]}; tapes := [] |}.
Definition f_rt_tiny : Runtime spec_float :=
  {| next_id := 3; vars := {[ 2%nat := Mat 1 [[f32 1 (-80)]] ]}; tapes := [] |}.
Definition f_rt_lab_tiny : Runtime spec_float :=
  {| next_id := 4;
     vars := <[3%nat := Scal (S754_zero false)]> {[ 2%nat := Scal (f32 1 (-80)) ]};
     tapes := [] |}.

(** The losses that the training cell reports in float32, as values. *)
Definition train_losses_f32 (exp32 : spec_float -> spec_float)
  (X Y : ETensor spec_float) (STEPS : Z) (LEARNING_RATE : spec_float)
  : option (list (Tensor spec_float)) :=
  option_map (fun r : TFVariable * Bonus.Report * ETensor spec_float =>
                map tval (Bonus.losses r.1.2))
    (run_value (Bonus.train (EA := Elementary_F32 exp32)
                            X Y STEPS LEARNING_RATE f_rt)).

End Float32Inputs.

(** The dot product and the sum at the real numbers. *)
Abbreviation rdot := (@dot R Scalar_R).
Abbreviation rsum := (@ssum R Scalar_R).

(** Shows the operations of [Scalar_R] as those of [R]. *)
Ltac real_ops :=
  cbn [szero sone sadd ssub smul sdiv sneg sofnat Scalar_R] in *.

Unset Implicit Arguments.

(** ** Facts about lists and kernels *)

Section KernelFacts.
Context {A : Type} `{SA : Scalar A}.

Lemma shape_eqb_refl (s : shape) : shape_eqb s s = true.
Proof. unfold shape_eqb. destruct (decide (s = s)); congruence. Qed.

Lemma shape_eqb_true (s1 s2 : shape) : shape_eqb s1 s2 = true -> s1 = s2.
Proof. unfold shape_eqb. destruct (decide (s1 = s2)); congruence. Qed.

Lemma shape_eqb_false (s1 s2 : shape) : s1 <> s2 -> shape_eqb s1 s2 = false.
Proof. unfold shape_eqb. destruct (decide (s1 = s2)); congruence. Qed.

Lemma transpose_one (wrows : list (list A)) :
  transpose 1 wrows = [weights wrows].
Proof. reflexivity. Qed.

(** [X @ W] for an [m x n] matrix and an [n x 1] matrix. *)
Lemma k_matmul_column (n : nat) (rows wrows : list (list A)) :
  length wrows = n ->
  k_matmul false false (Mat n rows) (Mat 1 wrows)
  = Ok (Mat 1 (map (fun r => [dot r (weights wrows)]) rows)).
Proof.
  intros Hn. unfold k_matmul. subst n.
  rewrite Nat.eqb_refl, transpose_one. reflexivity.
Qed.

Lemma k_matmul_mismatch (n p : nat) (rows wrows : list (list A)) :
  n <> length wrows ->
  k_matmul false false (Mat n rows) (Mat p wrows)
  = Err (MatrixSizeIncompatible [length rows; n] [length wrows; p]).
Proof.
  intros Hn. unfold k_matmul.
  destruct (Nat.eqb_spec n (length wrows)); [contradiction | reflexivity].
Qed.

Lemma column_singletons (f : list A -> A) (rows : list (list A)) :
  column 0 (map (fun r => [f r]) rows) = map f rows.
Proof. unfold column. rewrite map_map. reflexivity. Qed.

Lemma k_squeeze_column (rows : list (list A)) :
  k_squeeze (-1) (Mat 1 rows) = Ok (Vec (column 0 rows)).
Proof. reflexivity. Qed.

Lemma k_binop_same_length (op : string) (f : A -> A -> A) (u v : list A) :
  length u = length v ->
  k_binop op f (Vec u) (Vec v) = Ok (Vec (zip_with f u v)).
Proof.
  intros Hl. unfold k_binop. simpl. rewrite Hl, shape_eqb_refl. reflexivity.
Qed.

Lemma length_predictions (rows : list (list A)) (w : list A) :
  length (predictions rows w) = length rows.
Proof. apply length_map. Qed.

Lemma length_residuals (rows : list (list A)) (w ys : list A) :
  length rows = length ys -> length (residuals rows w ys) = length rows.
Proof.
  intros Hl. unfold residuals.
  rewrite length_zip_with, length_predictions. lia.
Qed.

Lemma push_lookup_eq (m : gmap nat (list (Tensor A))) k v :
  push m (k, v) !! k = Some (default [] (m !! k) ++ [v]).
Proof. unfold push. cbn [fst snd]. apply lookup_insert_eq. Qed.

Lemma push_lookup_ne (m : gmap nat (list (Tensor A))) k k' v :
  k <> k' -> push m (k, v) !! k' = m !! k'.
Proof. intros Hk. unfold push. cbn [fst snd]. apply lookup_insert_ne. exact Hk. Qed.

Lemma backprop_cons (r : OpRec A) rest grads gs g ins :
  grads !! op_out r = Some gs ->
  add_n gs = Ok g ->
  op_grad r g = Ok ins ->
  backprop (r :: rest) grads = backprop rest (fold_left push ins grads).
Proof.
  intros H1 H2 H3. cbn [backprop]. rewrite H1. cbn [rbind].
  rewrite H2. cbn [rbind]. rewrite H3. reflexivity.
Qed.

Lemma chunks_one (l : list A) : chunks 1 (length l) l = map (fun x => [x]) l.
Proof. induction l as [|x l IH]; [reflexivity|]. cbn. f_equal. exact IH. Qed.

Lemma column_0_singleton (l : list A) : column 0 (map (fun x => [x]) l) = l.
Proof. unfold column. rewrite map_map. cbn. apply map_id. Qed.

Lemma k_reduce_to_same (s : shape) (g : Tensor A) :
  shape_of g = s -> k_reduce_to s g = g.
Proof. intros <-. unfold k_reduce_to. rewrite shape_eqb_refl. reflexivity. Qed.

Lemma k_reshape_column (m : nat) (l : list A) :
  length l = m -> k_reshape [m; 1] (Vec l) = Ok (Mat 1 (map (fun x => [x]) l)).
Proof.
  intros <-. unfold k_reshape. cbn [size shape_size fold_right flatten].
  replace (length l * (1 * 1)) with (length l) by lia.
  rewrite Nat.eqb_refl, chunks_one. reflexivity.
Qed.

Lemma length_ad_residual_grads (rows : list (list A)) (w ys : list A) :
  length rows = length ys ->
  length (ad_residual_grads rows w ys) = length rows.
Proof.
  intros Hm. unfold ad_residual_grads.
  rewrite length_zip_with, !length_map, length_seq, length_residuals by exact Hm.
  lia.
Qed.

End KernelFacts.


(** ** One run of the loss evaluator and of the gradient computer *)

Section LossRun.
Context {A : Type} `{SA : Scalar A}.

Lemma loss_mse_run (X Y : ETensor A) (W : TFVariable) (rt : Runtime A)
  (n : nat) (rows wrows : list (list A)) (ys : list A) :
  tval X = Mat n rows ->
  tval Y = Vec ys ->
  length rows = length ys ->
  vars rt !! vid W = Some (Mat 1 wrows) ->
  length wrows = n ->
  Bonus.loss_mse X Y W rt
  = Ok ({| tid := 4 + next_id rt;
           tval := Scal (mse rows (weights wrows) ys) |},
        {| next_id := 5 + next_id rt;
           vars := vars rt;
           tapes := map (app (loss_records X Y W n rows wrows ys (next_id rt)))
                        (tapes rt) |}).
Proof.
  intros HX HY Hm HW Hn.
  unfold Bonus.loss_mse, Bonus.predict, bind, tf.read_value.
  rewrite HW. unfold tf.matmul, bind, lift. cbn [tval].
  rewrite HX, k_matmul_column by assumption.
  unfold emit, tf.squeeze, bind, lift. cbn [tval next_id vars tapes].
  rewrite k_squeeze_column, column_singletons.
  unfold tf.sub, bind, lift, emit. cbn [tval next_id vars tapes].
  rewrite HY. fold (predictions rows (weights wrows)).
  rewrite k_binop_same_length by (rewrite length_predictions; exact Hm).
  fold (residuals rows (weights wrows) ys).
  unfold tf.pow, tf.reduce_mean, emit. cbn [tval next_id vars tapes].
  unfold k_reduce_mean, k_pow, tmap, flatten, size.
  fold (mean (map (λ x : A, spow x 2) (residuals rows (weights wrows) ys))).
  fold (mse rows (weights wrows) ys).
  rewrite !map_map. reflexivity.
Qed.

Lemma grad_run (X Y : ETensor A) (W : TFVariable) (rt : Runtime A)
  (n : nat) (rows wrows : list (list A)) (ys : list A) :
  tval X = Mat n rows ->
  tval Y = Vec ys ->
  length rows = length ys ->
  vars rt !! vid W = Some (Mat 1 wrows) ->
  length wrows = n ->
  tid X < next_id rt -> tid Y < next_id rt -> vid W < next_id rt ->
  tid X <> vid W -> tid Y <> vid W ->
  Bonus.compute_gradients X Y W rt
  = Ok (Some {| tid := 5 + next_id rt; tval := ad_gradient n rows (weights wrows) ys |},
        {| next_id := 6 + next_id rt;
           vars := vars rt;
           tapes := map (app (loss_records X Y W n rows wrows ys (next_id rt)))
                        (tapes rt) |}).
Proof.
  intros HX HY Hm HW Hn HiX HiY HiW HXW HYW.
  unfold Bonus.compute_gradients, bind, tf.GradientTape.
  erewrite loss_mse_run; eauto.
  cbn [tval next_id vars tapes hd tl map].
  rewrite app_nil_r.
  unfold tf.gradient, bind, lift.
  cbn [tval tid shape_of k_fill tabulate].
  unfold loss_records.
  set (i := next_id rt) in *.
  set (w := weights wrows).
  assert (Hlr : length (residuals rows w ys) = length rows)
    by (apply length_residuals; exact Hm).
  (* Mean *)
  erewrite backprop_cons; cycle 1.
  { cbn [op_out]. apply lookup_singleton_eq. }
  { reflexivity. }
  { cbn [op_grad tval tid shape_of k_fill tabulate rbind size tmap].
    rewrite length_map, Hlr. reflexivity. }
  cbn [fold_left].
  (* Pow *)
  erewrite backprop_cons; cycle 1.
  { cbn [op_out]. rewrite push_lookup_eq.
    rewrite lookup_singleton_ne by lia. reflexivity. }
  { reflexivity. }
  { cbn [op_grad tval tid tmap k_pow rbind Nat.sub].
    rewrite k_binop_same_length; [reflexivity|].
    rewrite !length_map, length_seq, Hlr. reflexivity. }
  cbn [fold_left].
  (* Sub *)
  erewrite backprop_cons; cycle 1.
  { cbn [op_out]. rewrite push_lookup_eq, push_lookup_ne by lia.
    rewrite lookup_singleton_ne by lia. reflexivity. }
  { reflexivity. }
  { cbn [op_grad tval tid shape_of]. reflexivity. }
  cbn [fold_left].
  (* Squeeze *)
  erewrite backprop_cons; cycle 1.
  { cbn [op_out]. rewrite push_lookup_ne by lia. rewrite push_lookup_eq.
    rewrite !push_lookup_ne by lia.
    rewrite lookup_singleton_ne by lia. reflexivity. }
  { reflexivity. }
  { cbn [op_grad tval tid shape_of rbind].
    fold (ad_residual_grads rows w ys).
    rewrite k_reduce_to_same
      by (cbn [shape_of]; rewrite length_ad_residual_grads, length_predictions by exact Hm; reflexivity).
    rewrite k_reshape_column
      by (rewrite length_ad_residual_grads, length_map by exact Hm; reflexivity).
    reflexivity. }
  cbn [fold_left].
  (* MatMul *)
  erewrite backprop_cons; cycle 1.
  { cbn [op_out]. rewrite push_lookup_eq. rewrite !push_lookup_ne by lia.
    rewrite lookup_singleton_ne by lia. reflexivity. }
  { reflexivity. }
  { cbn [op_grad tval tid shape_of rbind]. rewrite HX.
    unfold k_matmul.
    rewrite length_map, length_ad_residual_grads by exact Hm.
    rewrite !Nat.eqb_refl. cbn [rbind]. reflexivity. }
  cbn [fold_left backprop]. unfold tf.collect, bind, lift.
  rewrite push_lookup_eq.
  rewrite !push_lookup_ne by (try lia; congruence).
  rewrite lookup_singleton_ne by lia.
  cbn [default app add_n add_n_from]. unfold fresh, ret.
  cbn [next_id vars tapes].
  rewrite transpose_one. unfold weights at 1. rewrite column_0_singleton.
  reflexivity.
Qed.
End LossRun.

(** ** The training loop of the bonus section *)

Section StepRun.
Context {A : Type} `{SA : Scalar A} `{EA : Elementary A}.

Lemma map_nth_seq {B C} (f : B -> C) (l : list B) (d : B) :
  map (fun i => f (nth i l d)) (seq 0 (length l)) = map f l.
Proof.
  induction l as [|x l IH]; [reflexivity|].
  cbn [length seq map nth]. f_equal.
  rewrite <- seq_shift, map_map. exact IH.
Qed.

Lemma length_transpose (n : nat) (rows : list (list A)) :
  length (transpose n rows) = n.
Proof. unfold transpose. rewrite length_map, length_seq. reflexivity. Qed.

(** [dW * LEARNING_RATE] for a column [dW]. *)
Lemma k_binop_column_scalar (op : string) (f : A -> A -> A)
  (grows : list (list A)) (c : A) :
  Forall (fun r => length r = 1) grows ->
  k_binop op f (Mat 1 grows) (Scal c)
  = Ok (Mat 1 (map (map (fun g => f g c)) grows)).
Proof.
  intros Hwf. unfold k_binop. cbn [shape_of].
  rewrite shape_eqb_false by discriminate.
  unfold broadcast_shape. cbn [rev app bshape_rev tabulate bget].
  rewrite Nat.eqb_refl. f_equal. f_equal.
  destruct (Nat.eqb_spec (length grows) 1) as [H1|H1].
  - destruct grows as [|r [|? ?]]; try discriminate.
    inversion Hwf as [|? ? Hr _]; subst.
    destruct r as [|x [|? ?]]; try discriminate. reflexivity.
  - rewrite <- (map_nth_seq (map (fun g => f g c)) grows []).
    apply map_ext_in. intros i Hi. apply in_seq in Hi.
    assert (Hr : length (nth i grows []) = 1).
    { rewrite List.Forall_forall in Hwf. apply Hwf. apply nth_In. lia. }
    destruct (nth i grows []) as [|x [|? ?]]; try discriminate. reflexivity.
Qed.

Lemma ad_gradient_rows_wf (n : nat) (rows : list (list A)) (w ys : list A) :
  exists grows, ad_gradient n rows w ys = Mat 1 grows /\ length grows = n
                /\ Forall (fun r => length r = 1) grows.
Proof.
  eexists. split; [reflexivity|]. split.
  - rewrite length_map. apply length_transpose.
  - apply List.Forall_forall. intros r Hr. apply in_map_iff in Hr.
    destruct Hr as (c & <- & _). reflexivity.
Qed.

Lemma Forall_singleton_zip (f : A -> A -> A) (u v : list (list A)) :
  Forall (fun r => length r = 1) u ->
  Forall (fun r => length r = 1) v ->
  Forall (fun r => length r = 1) (zip_with (zip_with f) u v).
Proof.
  intros Hu. revert v. induction Hu as [|a u Ha Hu IH]; intros v Hv.
  - constructor.
  - destruct Hv as [|b v Hb Hv]; [constructor|].
    cbn [zip_with]. constructor; [|apply IH; exact Hv].
    rewrite length_zip_with. lia.
Qed.

Lemma Forall_singleton_map (f : A -> A) (u : list (list A)) :
  Forall (fun r => length r = 1) u ->
  Forall (fun r => length r = 1) (map (map f) u).
Proof.
  induction 1 as [|a u Ha Hu IH]; cbn [map]; constructor; [|exact IH].
  rewrite length_map. exact Ha.
Qed.

Lemma gd_map_column (n : nat) (rows : list (list A)) (ys : list A) (lr : A)
  (Wv : Tensor A) :
  is_column n Wv -> is_column n (gd_map n rows ys lr Wv).
Proof.
  intros (wrows & -> & Hn & Hwf).
  destruct (ad_gradient_rows_wf n rows (weights wrows) ys)
    as (grows & Hg & Hgn & Hgwf).
  unfold gd_map. cbn [weights_of]. rewrite Hg. cbn [tmap k_zip].
  eexists. split; [reflexivity|]. split.
  - rewrite length_zip_with, length_map. lia.
  - apply Forall_singleton_zip; [exact Hwf|].
    apply Forall_singleton_map. exact Hgwf.
Qed.

Lemma shape_gd_operands (n : nat) (wrows grows : list (list A)) :
  length wrows = n -> length grows = n ->
  shape_of (Mat 1 wrows) = shape_of (Mat 1 grows).
Proof. intros. cbn [shape_of]. congruence. Qed.

Lemma gd_iter_column (n : nat) (rows : list (list A)) (ys : list A) (lr : A)
  (k : nat) (Wv : Tensor A) :
  is_column n Wv -> is_column n (Nat.iter k (gd_map n rows ys lr) Wv).
Proof.
  intros Hcol. induction k as [|k IH]; [exact Hcol|].
  cbn [Nat.iter nat_rect]. apply gd_map_column. exact IH.
Qed.

(** One pass through the body of the training loop. *)
Lemma train_step_run (Xf Y : ETensor A) (W : TFVariable) (LR : A) (step : Z)
  (rep : Bonus.Report) (rt : Runtime A)
  (n : nat) (rows : list (list A)) (ys : list A) (Wv : Tensor A) :
  tval Xf = Mat n rows ->
  tval Y = Vec ys ->
  length rows = length ys ->
  vars rt !! vid W = Some Wv ->
  is_column n Wv ->
  tid Xf < next_id rt -> tid Y < next_id rt -> vid W < next_id rt ->
  tid Xf <> vid W -> tid Y <> vid W ->
  exists rep' rt',
    Bonus.train_step Xf Y W LR step rep rt = Ok (rep', rt')
    /\ vars rt' = <[vid W := gd_map n rows ys LR Wv]> (vars rt)
    /\ next_id rt <= next_id rt'
    /\ Bonus.steps rep'
       = Bonus.steps rep ++ (if (step mod 100 =? 0)%Z then [step] else [])
    /\ map tval (Bonus.losses rep')
       = map tval (Bonus.losses rep)
         ++ (if (step mod 100 =? 0)%Z
             then [Scal (mse rows (weights_of (gd_map n rows ys LR Wv)) ys)]
             else []).
Proof.
  intros HX HY Hm HW Hcol HiX HiY HiW HXW HYW.
  pose proof (gd_map_column n rows ys LR _ Hcol) as Hcol'.
  destruct Hcol as (wrows & -> & Hn & Hwf).
  destruct (ad_gradient_rows_wf n rows (weights wrows) ys)
    as (grows & Hg & Hgn & Hgwf).
  unfold Bonus.train_step, bind.
  rewrite (grad_run Xf Y W rt n rows wrows ys
             HX HY Hm HW Hn HiX HiY HiW HXW HYW).
  unfold Bonus.times_float, bind, tf.constant, fresh, tf.mul, bind, lift.
  cbn [tval tid next_id vars tapes]. rewrite Hg.
  rewrite k_binop_column_scalar by exact Hgwf.
  unfold emit, tf.assign_sub. cbn [tval tid next_id vars tapes].
  rewrite HW.
  rewrite (shape_gd_operands n wrows (map (map (fun g => smul g LR)) grows))
    by (rewrite ?length_map; assumption).
  rewrite shape_eqb_refl.
  assert (Hupd : k_zip ssub (Mat 1 wrows) (Mat 1 (map (map (fun g => smul g LR)) grows))
                 = gd_map n rows ys LR (Mat 1 wrows)).
  { unfold gd_map. cbn [weights_of]. rewrite Hg. reflexivity. }
  rewrite Hupd. clear Hupd.
  destruct Hcol' as (wrows' & HW' & Hn' & Hwf').
  destruct (step mod 100 =? 0)%Z.
  - unfold bind.
    match goal with
    | |- context [Bonus.loss_mse Xf Y W ?r] =>
        rewrite (loss_mse_run Xf Y W r n rows wrows' ys HX HY Hm);
          [ | cbn [vars]; rewrite HW'; apply lookup_insert_eq | exact Hn' ]
    end.
    unfold ret. do 2 eexists. split; [reflexivity|].
    cbn [vars next_id Bonus.steps Bonus.losses].
    rewrite map_app. cbn [map tval]. rewrite HW'. cbn [weights_of].
    repeat split; try reflexivity. lia.
  - unfold ret. do 2 eexists. split; [reflexivity|].
    cbn [vars next_id]. rewrite !app_nil_r.
    repeat split; try reflexivity. lia.
Qed.

(** The whole [for] loop. *)
Lemma train_loop_run (Xf Y : ETensor A) (W : TFVariable) (LR : A)
  (n : nat) (rows : list (list A)) (ys : list A) (items : list Z) :
  tval Xf = Mat n rows ->
  tval Y = Vec ys ->
  length rows = length ys ->
  tid Xf <> vid W -> tid Y <> vid W ->
  forall (rep : Bonus.Report) (rt : Runtime A) (Wv : Tensor A),
  vars rt !! vid W = Some Wv ->
  is_column n Wv ->
  tid Xf < next_id rt -> tid Y < next_id rt -> vid W < next_id rt ->
  exists rep' rt',
    for_each items (Bonus.train_step Xf Y W LR) rep rt = Ok (rep', rt')
    /\ vars rt' !! vid W
       = Some (Nat.iter (length items) (gd_map n rows ys LR) Wv)
    /\ (forall k, k <> vid W -> vars rt' !! k = vars rt !! k)
    /\ next_id rt <= next_id rt'
    /\ Bonus.steps rep'
       = Bonus.steps rep ++ List.filter (fun s => (s mod 100 =? 0)%Z) items
    /\ map tval (Bonus.losses rep')
       = map tval (Bonus.losses rep)
         ++ reported_losses n rows ys LR items Wv.
Proof.
  intros HX HY Hm HXW HYW.
  induction items as [|step items IH]; intros rep rt Wv HW Hcol HiX HiY HiW.
  - exists rep, rt. cbn [for_each length Nat.iter nat_rect List.filter reported_losses].
    rewrite !app_nil_r. unfold ret. auto 10.
  - destruct (train_step_run Xf Y W LR step rep rt n rows ys Wv
                HX HY Hm HW Hcol HiX HiY HiW HXW HYW)
      as (rep1 & rt1 & Hrun & Hvars & Hid & Hsteps & Hlosses).
    destruct (IH rep1 rt1 (gd_map n rows ys LR Wv))
      as (rep2 & rt2 & Hrun2 & Hvars2 & Hframe2 & Hid2 & Hsteps2 & Hlosses2);
      try lia.
    { rewrite Hvars. apply lookup_insert_eq. }
    { apply gd_map_column. exact Hcol. }
    exists rep2, rt2. cbn [for_each]. unfold bind. rewrite Hrun.
    split; [exact Hrun2|]. split.
    { rewrite Hvars2. cbn [length]. rewrite Nat.iter_succ_r. reflexivity. }
    split.
    { intros k Hk. rewrite Hframe2 by exact Hk. rewrite Hvars.
      apply lookup_insert_ne. congruence. }
    split; [lia|]. split.
    { rewrite Hsteps2, Hsteps. cbn [List.filter].
      destruct (step mod 100 =? 0)%Z; rewrite <- app_assoc; reflexivity. }
    { rewrite Hlosses2, Hlosses. cbn [reported_losses].
      rewrite <- !app_assoc. reflexivity. }
Qed.

Lemma length_py_range (lo hi : Z) :
  length (py_range lo hi) = Z.to_nat (hi - lo).
Proof. unfold py_range. rewrite length_map, length_seq. reflexivity. Qed.

Lemma length_feature_rows (xs : list A) :
  length (feature_rows xs) = length xs.
Proof.
  unfold feature_rows, stack_rows. rewrite length_map, length_seq. reflexivity.
Qed.

Lemma make_features_run (X : ETensor A) (rt : Runtime A) (xs : list A) :
  tval X = Vec xs ->
  exists rt',
    Bonus.make_features X rt
    = Ok ({| tid := 4 + next_id rt; tval := Mat 5 (feature_rows xs) |}, rt')
    /\ next_id rt' = 5 + next_id rt
    /\ vars rt' = vars rt.
Proof.
  intros HX.
  unfold Bonus.make_features, bind, tf.ones_like, tf.square, tf.sqrt, tf.exp,
    tf.stack, bind, lift, emit.
  cbn [tval tid next_id vars tapes map]. rewrite HX.
  cbn [tmap k_stack norm_axis length Z.ltb Z.leb Z.compare Z.of_nat
       Pos.of_succ_nat Pos.succ Pos.compare Pos.compare_cont andb Z.to_nat
       Pos.to_nat Pos.iter_op Nat.add k_stack_cols].
  rewrite !length_map, !Nat.eqb_refl. cbn [rbind].
  eexists. split; [reflexivity|]. split; reflexivity.
Qed.

Lemma zeros_column (n : nat) : is_column n (zeros n 1).
Proof.
  unfold zeros. eexists. split; [reflexivity|]. split.
  - apply length_replicate.
  - apply Forall_replicate. reflexivity.
Qed.

(** The training cell as a whole. *)
Lemma train_run (X Y : ETensor A) (STEPS : Z) (LR : A) (rt : Runtime A)
  (xs ys : list A) :
  tval X = Vec xs ->
  tval Y = Vec ys ->
  length xs = length ys ->
  tid X < next_id rt -> tid Y < next_id rt ->
  let rows := feature_rows xs in
  let final := Nat.iter (Z.to_nat STEPS) (gd_map 5 rows ys LR) (zeros 5 1) in
  exists W rep mse_out rt',
    Bonus.train X Y STEPS LR rt = Ok ((W, rep, mse_out), rt')
    /\ vars rt' !! vid W = Some final
    /\ (forall k, k <> vid W -> vars rt' !! k = vars rt !! k)
    /\ Bonus.steps rep
       = List.filter (fun s => (s mod 100 =? 0)%Z) (py_range 1 (STEPS + 1))
    /\ map tval (Bonus.losses rep)
       = reported_losses 5 rows ys LR (py_range 1 (STEPS + 1)) (zeros 5 1)
    /\ tval mse_out = Scal (mse rows (weights_of final) ys).
Proof.
  intros HX HY Hm HiX HiY rows final.
  unfold Bonus.train, bind.
  destruct (make_features_run X rt xs HX) as (rt1 & Hmf & Hid1 & Hvars1).
  rewrite Hmf. unfold Bonus.init_weights, bind, tf.shape_index.
  cbn [tval shape_of nth_error].
  unfold ret, tf.mk_Variable.
  set (Xf := {| tid := 4 + next_id rt; tval := Mat 5 (feature_rows xs) |}).
  set (W := {| vid := next_id rt1 |}).
  set (rt2 := {| next_id := S (next_id rt1);
                 vars := <[next_id rt1 := zeros 5 1]> (vars rt1);
                 tapes := tapes rt1 |}).
  assert (Hrows : length rows = length ys)
    by (unfold rows; rewrite length_feature_rows; exact Hm).
  destruct (train_loop_run Xf Y W LR 5 rows ys (py_range 1 (STEPS + 1)))
    with (rep := @Bonus.Build_Report A [] []) (rt := rt2)
         (Wv := zeros 5 1)
    as (rep' & rt' & Hrun & Hvars & Hframe & Hid & Hsteps & Hlosses);
    try reflexivity; try exact HY; try exact Hrows;
    try (cbn [tid vid next_id Xf W rt2]; lia).
  { cbn [vars rt2 vid W]. apply lookup_insert_eq. }
  { apply zeros_column. }
  rewrite Hrun.
  rewrite length_py_range in Hvars.
  replace (Z.to_nat (STEPS + 1 - 1)) with (Z.to_nat STEPS) in Hvars
    by (f_equal; lia).
  fold final in Hvars.
  destruct (gd_iter_column 5 rows ys LR (Z.to_nat STEPS) (zeros 5 1)
              (zeros_column 5)) as (wrows & Hfin & Hn & Hwf).
  fold final in Hfin.
  rewrite (loss_mse_run Xf Y W rt' 5 rows wrows ys);
    try reflexivity; try assumption; [|rewrite Hvars, Hfin; reflexivity].
  exists W, rep', {| tid := 4 + next_id rt';
                     tval := Scal (mse rows (weights wrows) ys) |}.
  eexists. split; [reflexivity|].
  split; [exact Hvars|]. split.
  { intros k Hk. rewrite Hframe by exact Hk. cbn [vars rt2].
    rewrite lookup_insert_ne by (cbn [vid W] in Hk; congruence).
    rewrite Hvars1. reflexivity. }
  split; [exact Hsteps|]. split; [exact Hlosses|].
  cbn [tval]. rewrite Hfin. reflexivity.
Qed.

End StepRun.

(** ** Gradient descent over the real numbers *)

Section RealFacts.
Local Open Scope R_scope.

Lemma rsum_cons (x : R) (l : list R) : rsum (x :: l) = x + rsum l.
Proof. reflexivity. Qed.

Lemma rdot_cons (x y : R) (u v : list R) :
  rdot (x :: u) (y :: v) = x * y + rdot u v.
Proof. reflexivity. Qed.

Lemma rdot_nil_r (u : list R) : rdot u [] = 0.
Proof. destruct u; reflexivity. Qed.

Lemma rdot_comm (u v : list R) : rdot u v = rdot v u.
Proof.
  revert v. induction u as [|x u IH]; intros [|y v]; try reflexivity.
  rewrite !rdot_cons, IH. ring.
Qed.

Lemma rdot_scale_r (c : R) (u v : list R) :
  rdot u (map (fun x => c * x) v) = c * rdot u v.
Proof.
  revert v. induction u as [|x u IH]; intros [|y v]; cbn [map];
    rewrite ?rdot_nil_r; try (unfold dot; cbn; ring).
  rewrite !rdot_cons, IH. ring.
Qed.

Lemma rdot_sub_r (u v g : list R) :
  length v = length g ->
  rdot u (zip_with Rminus v g) = rdot u v - rdot u g.
Proof.
  revert v g. induction u as [|x u IH]; intros [|y v] [|z g] Hl;
    try discriminate; cbn [zip_with];
    rewrite ?rdot_nil_r; try (unfold dot; cbn; ring).
  rewrite !rdot_cons, IH by (cbn in Hl; lia). ring.
Qed.

Lemma rsum_nonneg_sq (l : list R) : 0 <= rsum (map (fun d => d * d) l).
Proof.
  induction l as [|x l IH]; cbn [map]; [unfold ssum; cbn; lra|].
  rewrite rsum_cons. nra.
Qed.

Lemma rsum_sq_zero (l : list R) :
  rsum (map (fun d => d * d) l) = 0 -> Forall (fun d => d = 0) l.
Proof.
  induction l as [|x l IH]; cbn [map]; intros H; [constructor|].
  rewrite rsum_cons in H. pose proof (rsum_nonneg_sq l).
  constructor; [nra|]. apply IH. nra.
Qed.

Lemma zip_with_const {B C D} (f : B -> C -> D) (k : B) (s : nat) (v : list C) :
  zip_with f (map (fun _ => k) (seq s (length v))) v = map (f k) v.
Proof.
  revert s. induction v as [|y v IH]; intros s; [reflexivity|].
  cbn [length seq map zip_with]. f_equal. apply IH.
Qed.

(** What the backward pass sends to the residuals is [2/m] times the
    residuals. *)
Lemma ad_residual_grads_real (rows : list (list R)) (w ys : list R) :
  length rows = length ys ->
  ad_residual_grads rows w ys
  = map (fun d => 2 / INR (length rows) * d) (residuals rows w ys).
Proof.
  intros Hm. unfold ad_residual_grads. real_ops.
  set (c := INR (length rows)).
  replace (seq 0 (length rows))
    with (seq 0 (length (map (fun d : R => spow d 1) (residuals rows w ys))))
    by (rewrite length_map, length_residuals by exact Hm; reflexivity).
  rewrite !map_map, zip_with_const, map_map.
  apply map_ext. intros d. cbn [spow]. real_ops.
  change (INR 2) with (1 + 1). unfold Rdiv. ring.
Qed.


Lemma ad_gradient_closed_form (n : nat) (rows : list (list R))
  (w ys : list R) :
  length rows = length ys ->
  ad_gradient n rows w ys = closed_form_gradient n rows w ys.
Proof.
  intros Hm. unfold ad_gradient, closed_form_gradient.
  rewrite ad_residual_grads_real by exact Hm.
  f_equal. apply map_ext. intros c. rewrite rdot_scale_r. reflexivity.
Qed.

Lemma length_grad_vec (n : nat) (rows : list (list R)) (w ys : list R) :
  length (grad_vec n rows w ys) = n.
Proof. unfold grad_vec. rewrite length_map. apply length_transpose. Qed.

Lemma column_zip_singletons (f : R -> R -> R) (u v : list (list R)) :
  Forall (fun r => length r = 1%nat) u ->
  Forall (fun r => length r = 1%nat) v ->
  column 0 (zip_with (zip_with f) u v) = zip_with f (column 0 u) (column 0 v).
Proof.
  intros Hu. revert v. induction Hu as [|a u Ha Hu IH]; intros v Hv.
  - reflexivity.
  - destruct Hv as [|b v Hb Hv]; [reflexivity|].
    cbn [zip_with column map]. fold (column 0 u) (column 0 v).
    unfold column in IH. rewrite IH by exact Hv.
    destruct a as [|x [|? ?]]; try discriminate.
    destruct b as [|y [|? ?]]; try discriminate. reflexivity.
Qed.

(** The weights after one update. *)
Lemma weights_of_gd_map (n : nat) (rows : list (list R)) (ys : list R)
  (lr : R) (Wv : Tensor R) :
  length rows = length ys ->
  is_column n Wv ->
  weights_of (gd_map n rows ys lr Wv)
  = zip_with Rminus (weights_of Wv)
             (map (fun g => lr * g) (grad_vec n rows (weights_of Wv) ys)).
Proof.
  intros Hm (wrows & -> & Hn & Hwf). unfold gd_map. cbn [weights_of].
  rewrite ad_gradient_closed_form by exact Hm.
  unfold closed_form_gradient. cbn [tmap k_zip weights_of]. real_ops.
  unfold weights at 1. rewrite column_zip_singletons.
  - f_equal. unfold column, grad_vec. rewrite !map_map.
    apply map_ext. intros c. cbn [map nth]. unfold residuals, predictions.
    real_ops. ring.
  - exact Hwf.
  - apply List.Forall_forall. intros r Hr. apply in_map_iff in Hr.
    destruct Hr as (r' & <- & Hr'). apply in_map_iff in Hr'.
    destruct Hr' as (c & <- & _). reflexivity.
Qed.

Lemma mse_sq_error (rows : list (list R)) (w ys : list R) :
  length rows = length ys ->
  mse rows w ys = sq_error rows w ys / INR (length rows).
Proof.
  intros Hm. unfold mse, mean, sq_error. real_ops.
  rewrite length_map, length_residuals by exact Hm.
  f_equal. f_equal. apply map_ext. intros d. cbn [spow]. real_ops. ring.
Qed.

Lemma residuals_update (rows : list (list R)) (w g ys : list R) (lr : R) :
  length w = length g ->
  length rows = length ys ->
  residuals rows (zip_with Rminus w (map (fun x => lr * x) g)) ys
  = zip_with Rminus (residuals rows w ys)
             (map (fun x => lr * x) (map (fun r => rdot r g) rows)).
Proof.
  intros Hw. revert ys. unfold residuals, predictions. real_ops.
  induction rows as [|r rows IH]; intros [|y ys] Hm; try discriminate;
    [reflexivity|].
  cbn [map zip_with]. f_equal.
  - rewrite rdot_sub_r by (rewrite length_map; exact Hw).
    rewrite rdot_scale_r. ring.
  - apply IH. cbn in Hm. lia.
Qed.

Lemma rsum_sq_sub (e q : list R) (lr : R) :
  length e = length q ->
  rsum (map (fun d => d * d) (zip_with Rminus e (map (fun x => lr * x) q)))
  = rsum (map (fun d => d * d) e) - 2 * lr * rdot e q
    + lr * lr * rsum (map (fun d => d * d) q).
Proof.
  revert q. induction e as [|x e IH]; intros [|y q] Hl; try discriminate.
  - unfold dot, ssum. cbn. ring.
  - cbn [map zip_with]. rewrite !rsum_cons, rdot_cons, IH by (cbn in Hl; lia).
    ring.
Qed.

Lemma rdot_zero_r (u : list R) (l : list nat) :
  rdot u (map (fun _ => 0) l) = 0.
Proof.
  revert l. induction u as [|x u IH]; intros [|j l]; try reflexivity.
  cbn [map]. rewrite rdot_cons, IH. ring.
Qed.

Lemma rdot_map_add (u : list R) (f h : nat -> R) (l : list nat) :
  rdot u (map (fun j => f j + h j) l) = rdot u (map f l) + rdot u (map h l).
Proof.
  revert l. induction u as [|x u IH]; intros [|j l]; cbn [map];
    try (unfold dot, ssum; cbn; ring).
  rewrite !rdot_cons, IH. ring.
Qed.

Lemma rdot_map_scale (u : list R) (f : nat -> R) (c : R) (l : list nat) :
  rdot u (map (fun j => f j * c) l) = c * rdot u (map f l).
Proof.
  revert l. induction u as [|x u IH]; intros [|j l]; cbn [map];
    try (unfold dot, ssum; cbn; ring).
  rewrite !rdot_cons, IH. ring.
Qed.

(** Summing over the samples first or over the features first. *)
Lemma rdot_exchange (n : nat) (rows : list (list R)) (e g : list R) :
  Forall (fun r => length r = n) rows ->
  length e = length rows ->
  rdot e (map (fun r => rdot r g) rows)
  = rdot g (map (fun c => rdot c e) (transpose n rows)).
Proof.
  intros Hwf. revert e. induction Hwf as [|r rows Hr Hwf IH]; intros e He.
  - destruct e; [|discriminate]. unfold transpose. rewrite map_map.
    cbn [column map]. rewrite rdot_zero_r. reflexivity.
  - destruct e as [|e0 e]; [discriminate|].
    cbn [map]. rewrite rdot_cons, IH by (cbn in He; lia).
    unfold transpose. rewrite !map_map. cbn [column map].
    setoid_rewrite rdot_cons.
    rewrite rdot_map_add, rdot_map_scale.
    rewrite <- Hr, (map_nth_seq (fun x => x) r szero), map_id.
    rewrite (rdot_comm g r). reflexivity.
Qed.

Lemma rdot_self_nonneg (u : list R) : 0 <= rdot u u.
Proof.
  induction u as [|x u IH]; [unfold dot, ssum; cbn; lra|].
  rewrite rdot_cons. nra.
Qed.

Lemma rdot_quadratic (u v : list R) (t : R) :
  0 <= t * t * rdot u u - 2 * t * rdot u v + rdot v v.
Proof.
  revert v. induction u as [|x u IH]; intros [|y v].
  - change (rdot [] []) with 0. lra.
  - pose proof (rdot_self_nonneg (y :: v)).
    change (rdot [] []) with 0. change (rdot [] (y :: v)) with 0. lra.
  - rewrite rdot_nil_r. pose proof (rdot_self_nonneg (x :: u)).
    change (rdot [] []) with 0. nra.
  - rewrite !rdot_cons. specialize (IH v).
    pose proof (Rle_0_sqr (t * x - y)) as Hsq. unfold Rsqr in Hsq. nra.
Qed.

(** Cauchy-Schwarz. *)
Lemma rdot_cauchy_schwarz (u v : list R) :
  rdot u v * rdot u v <= rdot u u * rdot v v.
Proof.
  pose proof (rdot_self_nonneg u) as Hu.
  pose proof (rdot_self_nonneg v) as Hv.
  destruct (Req_dec (rdot u u) 0) as [H0|H0].
  - assert (rdot u v = 0); [|nra].
    destruct (Req_dec (rdot u v) 0) as [|Hne]; [assumption|exfalso].
    pose proof (rdot_quadratic u v ((rdot v v + 1) / (2 * rdot u v))) as Hq.
    rewrite H0 in Hq.
    replace (2 * ((rdot v v + 1) / (2 * rdot u v)) * rdot u v)
      with (rdot v v + 1) in Hq by (field; exact Hne).
    lra.
  - pose proof (rdot_quadratic u v (rdot u v / rdot u u)) as Hq.
    assert (Hpos : 0 < rdot u u) by lra.
    replace (rdot u v / rdot u u * (rdot u v / rdot u u) * rdot u u
             - 2 * (rdot u v / rdot u u) * rdot u v + rdot v v)
      with ((rdot u u * rdot v v - rdot u v * rdot u v) / rdot u u) in Hq
      by (field; exact H0).
    apply Rmult_le_compat_r with (r := rdot u u) in Hq; [|lra].
    unfold Rdiv in Hq. rewrite Rmult_assoc, Rinv_l, Rmult_1_r in Hq by exact H0.
    lra.
Qed.

Lemma frobenius_nonneg (rows : list (list R)) : 0 <= frobenius rows.
Proof.
  unfold frobenius. induction rows as [|r rows IH]; cbn [map].
  - unfold ssum. cbn. lra.
  - rewrite rsum_cons. pose proof (rdot_self_nonneg r). lra.
Qed.

Lemma grad_vec_xt (n : nat) (rows : list (list R)) (w ys : list R) :
  grad_vec n rows w ys
  = map (fun x => 2 / INR (length rows) * x)
        (xt_times n rows (residuals rows w ys)).
Proof. unfold grad_vec, xt_times. rewrite map_map. reflexivity. Qed.

Lemma rsum_sq_rows_bound (rows : list (list R)) (v : list R) :
  rsum (map (fun d => d * d) (map (fun r => rdot r v) rows))
  <= frobenius rows * rdot v v.
Proof.
  unfold frobenius. induction rows as [|r rows IH]; cbn [map].
  - unfold ssum. cbn. lra.
  - rewrite !rsum_cons. pose proof (rdot_cauchy_schwarz r v). nra.
Qed.

Lemma rsum_sq_scale (c : R) (l : list R) :
  rsum (map (fun d => d * d) (map (fun x => c * x) l))
  = c * c * rsum (map (fun d => d * d) l).
Proof.
  induction l as [|x l IH]; cbn [map]; [unfold ssum; cbn; ring|].
  rewrite !rsum_cons, IH. ring.
Qed.

(** One update with step [t] lowers the sum of squared residuals by at least
    [(2t/m)] times the squared norm of [X^T e], provided [2 t |X|^2 <= m]. *)
Lemma sq_error_descent (n : nat) (rows : list (list R)) (w ys : list R)
  (t : R) :
  Forall (fun r => length r = n) rows ->
  length rows = length ys ->
  length w = n ->
  (0 < length rows)%nat ->
  0 <= t ->
  2 * t * frobenius rows <= INR (length rows) ->
  let e := residuals rows w ys in
  let v := xt_times n rows e in
  sq_error rows (zip_with Rminus w
                   (map (fun x => t * x) (grad_vec n rows w ys))) ys
  <= sq_error rows w ys - 2 * t / INR (length rows) * rdot v v.
Proof.
  intros Hwf Hm Hw Hpos Ht Hsmall e v.
  assert (HM : 0 < INR (length rows)) by (apply lt_0_INR; exact Hpos).
  set (M := INR (length rows)) in *.
  unfold sq_error.
  rewrite residuals_update
    by (rewrite ?length_grad_vec; assumption).
  fold e.
  rewrite rsum_sq_sub
    by (rewrite length_map; unfold e; apply length_residuals; exact Hm).
  rewrite (rdot_exchange n rows e (grad_vec n rows w ys) Hwf)
    by (unfold e; apply length_residuals; exact Hm).
  fold (xt_times n rows e). fold v.
  rewrite grad_vec_xt. fold e v. fold M.
  rewrite (rdot_comm (map (fun x => 2 / M * x) v) v), rdot_scale_r.
  assert (Hq : map (fun r => rdot r (map (fun x => 2 / M * x) v)) rows
               = map (fun x => 2 / M * x) (map (fun r => rdot r v) rows)).
  { rewrite map_map. apply map_ext. intros r. apply rdot_scale_r. }
  rewrite Hq, rsum_sq_scale.
  pose proof (rsum_sq_rows_bound rows v) as HQ.
  pose proof (rdot_self_nonneg v) as Hv.
  pose proof (frobenius_nonneg rows) as HF.
  set (Q := rsum (map (fun d => d * d) (map (fun r => rdot r v) rows))) in *.
  set (V := rdot v v) in *. set (F := frobenius rows) in *.
  set (E := rsum (map (fun d => d * d) e)).
  (* E - 2 t (2/M) V + t t (2/M)(2/M) Q <= E - (2t/M) V *)
  assert (Hk : t * t * (2 / M * (2 / M) * Q) <= 2 * t / M * V).
  { assert (H1 : t * t * (2 / M * (2 / M) * Q)
                 = (2 * t / M) * ((2 * t * Q) / M)) by (field; lra).
    rewrite H1. apply Rmult_le_compat_l.
    - apply Rmult_le_pos; [lra|]. apply Rlt_le, Rinv_0_lt_compat. exact HM.
    - apply Rmult_le_reg_r with (r := M); [exact HM|].
      unfold Rdiv. rewrite Rmult_assoc, Rinv_l, Rmult_1_r by lra.
      (* 2 t Q <= V M *)
      assert (2 * t * Q <= 2 * t * (F * V)) by (apply Rmult_le_compat_l; lra).
      nra. }
  replace (2 * t * (2 / M * V)) with (2 * (2 * t / M * V)) by (field; lra).
  lra.
Qed.

Lemma safe_rate_pos (rows : list (list R)) : 0 < safe_rate rows.
Proof.
  unfold safe_rate. destruct (Nat.eqb_spec (length rows) 0) as [H0|H0]; [lra|].
  pose proof (frobenius_nonneg rows).
  apply Rdiv_lt_0_compat; [|lra]. apply lt_0_INR. lia.
Qed.

Lemma safe_rate_small (rows : list (list R)) (t : R) :
  (0 < length rows)%nat -> 0 <= t -> t <= safe_rate rows ->
  2 * t * frobenius rows <= INR (length rows).
Proof.
  intros Hpos Ht Hle. unfold safe_rate in Hle.
  destruct (Nat.eqb_spec (length rows) 0) as [H0|H0]; [lia|].
  pose proof (frobenius_nonneg rows) as HF.
  assert (HM : 0 < INR (length rows)) by (apply lt_0_INR; exact Hpos).
  set (M := INR (length rows)) in *. set (F := frobenius rows) in *.
  assert (H1 : t * (2 * F + 1) <= M).
  { apply Rmult_le_compat_r with (r := 2 * F + 1) in Hle; [|lra].
    unfold Rdiv in Hle. rewrite Rmult_assoc, Rinv_l, Rmult_1_r in Hle by lra.
    exact Hle. }
  nra.
Qed.

Lemma weights_of_column_length (n : nat) (Wv : Tensor R) :
  is_column n Wv -> length (weights_of Wv) = n.
Proof.
  intros (wrows & -> & Hn & _). cbn [weights_of]. unfold weights, column.
  rewrite length_map. exact Hn.
Qed.

(** One update lowers the loss, by at least [(2t/m^2) |X^T e|^2]. *)
Lemma loss_descent (n : nat) (rows : list (list R)) (ys : list R) (t : R)
  (Wv : Tensor R) :
  Forall (fun r => length r = n) rows ->
  length rows = length ys ->
  is_column n Wv ->
  (0 < length rows)%nat ->
  0 <= t -> t <= safe_rate rows ->
  let v := xt_times n rows (residuals rows (weights_of Wv) ys) in
  loss_at rows ys (gd_map n rows ys t Wv)
  <= loss_at rows ys Wv
     - 2 * t / (INR (length rows) * INR (length rows)) * rdot v v.
Proof.
  intros Hwf Hm Hcol Hpos Ht Hle v. unfold loss_at.
  rewrite weights_of_gd_map by assumption.
  rewrite !mse_sq_error by exact Hm.
  assert (HM : 0 < INR (length rows)) by (apply lt_0_INR; exact Hpos).
  pose proof (sq_error_descent n rows (weights_of Wv) ys t Hwf Hm
                (weights_of_column_length n Wv Hcol) Hpos Ht
                (safe_rate_small rows t Hpos Ht Hle)) as Hd.
  cbv zeta in Hd. fold v in Hd.
  set (M := INR (length rows)) in *.
  apply Rmult_le_reg_r with (r := M); [exact HM|].
  unfold Rdiv at 1. rewrite Rmult_assoc, Rinv_l, Rmult_1_r by lra.
  replace ((sq_error rows (weights_of Wv) ys / M - 2 * t / (M * M) * rdot v v)
           * M)
    with (sq_error rows (weights_of Wv) ys - 2 * t / M * rdot v v)
    by (field; lra).
  exact Hd.
Qed.

Lemma sq_error_empty (w ys : list R) : sq_error [] w ys = 0.
Proof. reflexivity. Qed.

(** For a sufficiently small learning rate, one update does not raise the
    loss. *)
Lemma loss_nonincreasing_step (n : nat) (rows : list (list R)) (ys : list R)
  (t : R) (Wv : Tensor R) :
  Forall (fun r => length r = n) rows ->
  length rows = length ys ->
  is_column n Wv ->
  0 <= t -> t <= safe_rate rows ->
  loss_at rows ys (gd_map n rows ys t Wv) <= loss_at rows ys Wv.
Proof.
  intros Hwf Hm Hcol Ht Hle.
  destruct (Nat.eq_dec (length rows) 0%nat) as [H0|H0].
  - destruct rows; [|discriminate]. unfold loss_at.
    rewrite !mse_sq_error by exact Hm. rewrite !sq_error_empty. lra.
  - pose proof (loss_descent n rows ys t Wv Hwf Hm Hcol ltac:(lia) Ht Hle)
      as Hd. cbv zeta in Hd.
    pose proof (rdot_self_nonneg
                  (xt_times n rows (residuals rows (weights_of Wv) ys))) as Hv.
    assert (HM : 0 < INR (length rows)) by (apply lt_0_INR; lia).
    assert (0 <= 2 * t / (INR (length rows) * INR (length rows))).
    { apply Rmult_le_pos; [lra|]. apply Rlt_le, Rinv_0_lt_compat. nra. }
    nra.
Qed.

End RealFacts.

(** ** The training loop of the lab *)

Section LabRun.
Context {A : Type} `{SA : Scalar A}.

Lemma map_bget_seq {B} (f : A -> B) (v : list A) :
  map (fun j => f (nth (if length v =? 1 then 0 else j) v szero))
      (seq 0 (length v))
  = map f v.
Proof.
  destruct (Nat.eqb_spec (length v) 1) as [H1|H1].
  - destruct v as [|x [|? ?]]; try discriminate. reflexivity.
  - apply map_nth_seq.
Qed.

Lemma k_binop_scalar_vec (op : string) (f : A -> A -> A) (a : A) (v : list A) :
  k_binop op f (Scal a) (Vec v) = Ok (Vec (map (f a) v)).
Proof.
  unfold k_binop. cbn [shape_of]. rewrite shape_eqb_false by discriminate.
  unfold broadcast_shape. cbn [rev app bshape_rev tabulate bget].
  rewrite (map_bget_seq (f a)). reflexivity.
Qed.

Lemma k_binop_vec_scalar (op : string) (f : A -> A -> A) (v : list A) (b : A) :
  k_binop op f (Vec v) (Scal b) = Ok (Vec (map (fun x => f x b) v)).
Proof.
  unfold k_binop. cbn [shape_of]. rewrite shape_eqb_false by discriminate.
  unfold broadcast_shape. cbn [rev app bshape_rev tabulate bget].
  rewrite (map_bget_seq (fun x => f x b)). reflexivity.
Qed.

Lemma k_binop_scalars (op : string) (f : A -> A -> A) (a b : A) :
  k_binop op f (Scal a) (Scal b) = Ok (Scal (f a b)).
Proof. reflexivity. Qed.

Lemma length_lab_residuals (xs ys : list A) (a b : A) :
  length xs = length ys -> length (lab_residuals xs ys a b) = length xs.
Proof.
  intros Hm. unfold lab_residuals, lab_predictions.
  rewrite length_zip_with, length_map. lia.
Qed.

(** [Lab.loss_mse] on [m] samples: the value it returns and the runtime it
    leaves. *)
Lemma lab_loss_run_exact (X Y : ETensor A) (w0 w1 : TFVariable)
  (rt : Runtime A) (xs ys : list A) (a b : A) :
  tval X = Vec xs ->
  tval Y = Vec ys ->
  length xs = length ys ->
  vars rt !! vid w0 = Some (Scal a) ->
  vars rt !! vid w1 = Some (Scal b) ->
  Lab.loss_mse X Y w0 w1 rt
  = Ok ({| tid := 4 + next_id rt; tval := Scal (lab_mse xs ys a b) |},
        {| next_id := 5 + next_id rt;
           vars := vars rt;
           tapes := map (app (lab_loss_records X Y w0 w1 xs ys a b
                                (next_id rt)))
                        (tapes rt) |}).
Proof.
  intros HX HY Hm H0 H1.
  unfold Lab.loss_mse, bind, tf.read_value. rewrite H0, H1.
  unfold tf.mul, tf.add, tf.sub, bind, lift, emit.
  cbn [tval tid next_id vars tapes]. rewrite HX, k_binop_scalar_vec.
  cbn [tval tid next_id vars tapes]. rewrite k_binop_vec_scalar.
  cbn [tval tid next_id vars tapes]. rewrite HY.
  rewrite map_map. fold (lab_predictions xs a b).
  rewrite k_binop_same_length
    by (unfold lab_predictions; rewrite length_map; exact Hm).
  fold (lab_residuals xs ys a b).
  unfold tf.pow, tf.reduce_mean, emit. cbn [tval tid next_id vars tapes].
  unfold k_reduce_mean, k_pow, tmap, flatten, size.
  rewrite !map_map. reflexivity.
Qed.

Lemma lab_loss_run (X Y : ETensor A) (w0 w1 : TFVariable) (rt : Runtime A)
  (xs ys : list A) (a b : A) :
  tval X = Vec xs ->
  tval Y = Vec ys ->
  length xs = length ys ->
  vars rt !! vid w0 = Some (Scal a) ->
  vars rt !! vid w1 = Some (Scal b) ->
  exists l rt',
    Lab.loss_mse X Y w0 w1 rt = Ok (l, rt')
    /\ tval l = Scal (lab_mse xs ys a b)
    /\ vars rt' = vars rt
    /\ next_id rt <= next_id rt'
    /\ (tapes rt = [] -> tapes rt' = []).
Proof.
  intros HX HY Hm H0 H1.
  rewrite (lab_loss_run_exact X Y w0 w1 rt xs ys a b HX HY Hm H0 H1).
  do 2 eexists. split; [reflexivity|]. cbn [tval vars next_id tapes].
  repeat split.
  - lia.
  - intros ->. reflexivity.
Qed.

Lemma length_lab_residual_grads (xs ys : list A) (a b : A) :
  length xs = length ys ->
  length (lab_residual_grads xs ys a b) = length xs.
Proof.
  intros Hm. unfold lab_residual_grads.
  rewrite length_zip_with, !length_map, length_seq, length_lab_residuals
    by exact Hm.
  lia.
Qed.

Lemma k_reduce_to_scalar (v : list A) :
  k_reduce_to [] (Vec v) = Scal (ssum v).
Proof. reflexivity. Qed.

(** [Lab.compute_gradients]: the gradients it returns and the runtime it
    leaves. *)
Lemma lab_grad_run (X Y : ETensor A) (w0 w1 : TFVariable) (rt : Runtime A)
  (xs ys : list A) (a b : A) :
  tval X = Vec xs ->
  tval Y = Vec ys ->
  length xs = length ys ->
  vars rt !! vid w0 = Some (Scal a) ->
  vars rt !! vid w1 = Some (Scal b) ->
  tid X < next_id rt -> tid Y < next_id rt ->
  vid w0 < next_id rt -> vid w1 < next_id rt ->
  vid w0 <> vid w1 ->
  tid X <> vid w0 -> tid X <> vid w1 -> tid Y <> vid w0 -> tid Y <> vid w1 ->
  Lab.compute_gradients X Y w0 w1 rt
  = Ok ((Some {| tid := 5 + next_id rt;
                 tval := Scal (lab_ad_gradient xs ys a b).1 |},
         Some {| tid := 6 + next_id rt;
                 tval := Scal (lab_ad_gradient xs ys a b).2 |}),
        {| next_id := 7 + next_id rt;
           vars := vars rt;
           tapes := map (app (lab_loss_records X Y w0 w1 xs ys a b
                                (next_id rt)))
                        (tapes rt) |}).
Proof.
  intros HX HY Hm H0 H1 HiX HiY Hi0 Hi1 H01 HX0 HX1 HY0 HY1.
  unfold Lab.compute_gradients, bind, tf.GradientTape.
  match goal with
  | |- context [Lab.loss_mse X Y w0 w1 ?r] =>
      rewrite (lab_loss_run_exact X Y w0 w1 r xs ys a b HX HY Hm H0 H1)
  end.
  cbn [tval next_id vars tapes hd tl map].
  rewrite app_nil_r.
  unfold tf.gradients, bind, lift.
  cbn [tval tid shape_of k_fill tabulate].
  unfold lab_loss_records.
  set (i := next_id rt) in *.
  assert (Hlr : length (lab_residuals xs ys a b) = length xs)
    by (apply length_lab_residuals; exact Hm).
  (* Mean *)
  erewrite backprop_cons; cycle 1.
  { cbn [op_out]. apply lookup_singleton_eq. }
  { reflexivity. }
  { cbn [op_grad tval tid shape_of k_fill tabulate rbind size tmap].
    rewrite length_map, Hlr. reflexivity. }
  cbn [fold_left].
  (* Pow *)
  erewrite backprop_cons; cycle 1.
  { cbn [op_out]. rewrite push_lookup_eq.
    rewrite lookup_singleton_ne by lia. reflexivity. }
  { reflexivity. }
  { cbn [op_grad tval tid tmap k_pow rbind Nat.sub].
    rewrite k_binop_same_length; [reflexivity|].
    rewrite !length_map, length_seq, Hlr. reflexivity. }
  cbn [fold_left]. fold (lab_residual_grads xs ys a b).
  set (R := lab_residual_grads xs ys a b).
  assert (HR : length R = length xs)
    by (apply length_lab_residual_grads; exact Hm).
  (* Sub *)
  erewrite backprop_cons; cycle 1.
  { cbn [op_out]. rewrite push_lookup_eq, push_lookup_ne by lia.
    rewrite lookup_singleton_ne by lia. reflexivity. }
  { reflexivity. }
  { cbn [op_grad tval tid shape_of].
    rewrite k_reduce_to_same
      by (cbn [shape_of]; unfold lab_predictions;
          rewrite HR, length_map; reflexivity).
    reflexivity. }
  cbn [fold_left].
  (* AddV2 *)
  erewrite backprop_cons; cycle 1.
  { cbn [op_out]. rewrite push_lookup_ne by lia. rewrite push_lookup_eq.
    rewrite !push_lookup_ne by lia.
    rewrite lookup_singleton_ne by lia. reflexivity. }
  { reflexivity. }
  { cbn [op_grad tval tid shape_of].
    rewrite k_reduce_to_same
      by (cbn [shape_of]; rewrite HR, length_map; reflexivity).
    rewrite k_reduce_to_scalar. reflexivity. }
  cbn [fold_left].
  (* Mul *)
  erewrite backprop_cons; cycle 1.
  { cbn [op_out]. rewrite push_lookup_ne by lia. rewrite push_lookup_eq.
    rewrite !push_lookup_ne by lia.
    rewrite lookup_singleton_ne by lia. reflexivity. }
  { reflexivity. }
  { cbn [op_grad tval tid shape_of]. rewrite HX.
    rewrite k_binop_same_length by exact HR.
    rewrite k_binop_scalar_vec. cbn [rbind shape_of].
    rewrite k_reduce_to_scalar.
    rewrite k_reduce_to_same
      by (cbn [shape_of]; rewrite length_map, HR; reflexivity).
    reflexivity. }
  cbn [fold_left backprop tf.collect_all].
  match goal with
  | |- context [tf.collect ?G w0] => set (grads := G)
  end.
  assert (Hg0 : grads !! vid w0
                = Some [Scal (ssum (zip_with smul R xs))]).
  { subst grads.
    rewrite (push_lookup_ne _ (tid X) (vid w0)) by congruence.
    rewrite push_lookup_eq.
    rewrite !push_lookup_ne by (try lia; congruence).
    rewrite lookup_singleton_ne by lia. reflexivity. }
  assert (Hg1 : grads !! vid w1 = Some [Scal (ssum R)]).
  { subst grads.
    rewrite (push_lookup_ne _ (tid X) (vid w1)) by congruence.
    rewrite (push_lookup_ne _ (vid w0) (vid w1)) by congruence.
    rewrite push_lookup_eq.
    rewrite !push_lookup_ne by (try lia; congruence).
    rewrite lookup_singleton_ne by lia. reflexivity. }
  clearbody grads.
  unfold bind, tf.collect, bind, lift. rewrite Hg0, Hg1.
  cbn [add_n add_n_from]. unfold fresh, ret.
  cbn [next_id vars tapes]. reflexivity.
Qed.

(** One pass through the body of the lab's training loop. *)
Lemma lab_step_run (X Y : ETensor A) (w0 w1 : TFVariable) (LR : A) (step : Z)
  (out : list Lab.Line) (rt : Runtime A) (xs ys : list A) (ab : A * A) :
  tval X = Vec xs ->
  tval Y = Vec ys ->
  length xs = length ys ->
  vid w0 <> vid w1 ->
  tid X <> vid w0 -> tid X <> vid w1 -> tid Y <> vid w0 -> tid Y <> vid w1 ->
  vars rt !! vid w0 = Some (Scal ab.1) ->
  vars rt !! vid w1 = Some (Scal ab.2) ->
  tid X < next_id rt -> tid Y < next_id rt ->
  vid w0 < next_id rt -> vid w1 < next_id rt ->
  exists out' rt',
    Lab.train_step X Y w0 w1 LR step out rt = Ok (out', rt')
    /\ vars rt' !! vid w0 = Some (Scal (lab_gd_map xs ys LR ab).1)
    /\ vars rt' !! vid w1 = Some (Scal (lab_gd_map xs ys LR ab).2)
    /\ (forall k, k <> vid w0 -> k <> vid w1 -> vars rt' !! k = vars rt !! k)
    /\ next_id rt <= next_id rt'
    /\ out' = out ++
         (if (step mod 100 =? 0)%Z
          then [lab_line xs ys step (lab_gd_map xs ys LR ab)] else []).
Proof.
  intros HX HY Hm Hne HX0 HX1 HY0 HY1 H0 H1 HiX HiY Hi0 Hi1.
  destruct ab as [a b]. cbn [fst snd] in *.
  unfold Lab.train_step, bind.
  rewrite (lab_grad_run X Y w0 w1 rt xs ys a b HX HY Hm H0 H1
             HiX HiY Hi0 Hi1 Hne HX0 HX1 HY0 HY1).
  unfold Bonus.times_float, bind, tf.constant, fresh, tf.mul, bind, lift,
    emit, tf.assign_sub.
  cbn [tval tid next_id vars tapes fst snd].
  rewrite !k_binop_scalars. cbn [tval tid next_id vars tapes].
  rewrite H0. cbn [shape_of]. rewrite shape_eqb_refl.
  cbn [tval tid next_id vars tapes k_zip].
  rewrite lookup_insert_ne by exact Hne. rewrite H1.
  cbn [shape_of]. rewrite shape_eqb_refl. cbn [k_zip].
  set (g := lab_ad_gradient xs ys a b).
  set (a' := ssub a (smul g.1 LR)). set (b' := ssub b (smul g.2 LR)).
  match goal with
  | |- exists _ _, ?f ?r = _ /\ _ => set (rt1 := r)
  end.
  assert (Hv0 : vars rt1 !! vid w0 = Some (Scal a')).
  { cbn [vars rt1]. rewrite lookup_insert_ne by congruence.
    apply lookup_insert_eq. }
  assert (Hv1 : vars rt1 !! vid w1 = Some (Scal b')).
  { cbn [vars rt1]. apply lookup_insert_eq. }
  assert (Hfr : forall k, k <> vid w0 -> k <> vid w1 ->
                          vars rt1 !! k = vars rt !! k).
  { intros k Hk0 Hk1. cbn [vars rt1].
    rewrite !lookup_insert_ne by congruence. reflexivity. }
  assert (Hid : next_id rt <= next_id rt1) by (cbn [next_id rt1]; lia).
  destruct (step mod 100 =? 0)%Z.
  - destruct (lab_loss_run X Y w0 w1 rt1 xs ys a' b' HX HY Hm Hv0 Hv1)
      as (l & rt2 & Hl & Hlv & Hvars & Hid2 & _).
    unfold bind. rewrite Hl. unfold tf.read_value.
    rewrite Hvars, Hv0. cbv beta iota. rewrite Hvars, Hv1.
    do 2 eexists. split; [reflexivity|]. rewrite Hvars. cbn [tval].
    rewrite Hlv. repeat split; try assumption. lia.
  - do 2 eexists. split; [reflexivity|]. rewrite app_nil_r.
    repeat split; assumption.
Qed.

Lemma lab_loop_run (X Y : ETensor A) (w0 w1 : TFVariable) (LR : A)
  (xs ys : list A) (items : list Z) :
  tval X = Vec xs ->
  tval Y = Vec ys ->
  length xs = length ys ->
  vid w0 <> vid w1 ->
  tid X <> vid w0 -> tid X <> vid w1 -> tid Y <> vid w0 -> tid Y <> vid w1 ->
  forall (out : list Lab.Line) (rt : Runtime A) (ab : A * A),
  vars rt !! vid w0 = Some (Scal ab.1) ->
  vars rt !! vid w1 = Some (Scal ab.2) ->
  tid X < next_id rt -> tid Y < next_id rt ->
  vid w0 < next_id rt -> vid w1 < next_id rt ->
  exists out' rt',
    for_each items (Lab.train_step X Y w0 w1 LR) out rt = Ok (out', rt')
    /\ vars rt' !! vid w0
       = Some (Scal (Nat.iter (length items) (lab_gd_map xs ys LR) ab).1)
    /\ vars rt' !! vid w1
       = Some (Scal (Nat.iter (length items) (lab_gd_map xs ys LR) ab).2)
    /\ (forall k, k <> vid w0 -> k <> vid w1 -> vars rt' !! k = vars rt !! k)
    /\ out' = out ++ lab_report xs ys LR items ab.
Proof.
  intros HX HY Hm Hne HX0 HX1 HY0 HY1.
  induction items as [|step items IH];
    intros out rt ab H0 H1 HiX HiY Hi0 Hi1.
  - exists out, rt. cbn [for_each length Nat.iter nat_rect lab_report].
    rewrite app_nil_r. unfold ret. auto 10.
  - destruct (lab_step_run X Y w0 w1 LR step out rt xs ys ab
                HX HY Hm Hne HX0 HX1 HY0 HY1 H0 H1 HiX HiY Hi0 Hi1)
      as (out1 & rt1 & Hrun & Hv0 & Hv1 & Hfr & Hid & Hout).
    destruct (IH out1 rt1 (lab_gd_map xs ys LR ab) Hv0 Hv1
                ltac:(lia) ltac:(lia) ltac:(lia) ltac:(lia))
      as (out2 & rt2 & Hrun2 & Hw0 & Hw1 & Hfr2 & Hout2).
    exists out2, rt2. cbn [for_each]. unfold bind. rewrite Hrun.
    cbn [length]. rewrite Nat.iter_succ_r.
    repeat split; try assumption.
    + intros k Hk0 Hk1. rewrite Hfr2, Hfr by assumption. reflexivity.
    + rewrite Hout2, Hout. cbn [lab_report]. rewrite <- app_assoc.
      reflexivity.
Qed.

Lemma lab_report_snoc (xs ys : list A) (lr : A) (items : list Z) (s : Z)
  (ab : A * A) :
  lab_report xs ys lr (items ++ [s]) ab
  = lab_report xs ys lr items ab
    ++ (if (s mod 100 =? 0)%Z
        then [lab_line xs ys s
                (Nat.iter (S (length items)) (lab_gd_map xs ys lr) ab)]
        else []).
Proof.
  revert ab. induction items as [|i items IH]; intros ab.
  - cbn [app lab_report length Nat.iter nat_rect]. rewrite app_nil_r.
    reflexivity.
  - cbn [app lab_report length]. rewrite IH, <- app_assoc.
    rewrite (Nat.iter_succ_r (S (length items))). reflexivity.
Qed.

Lemma py_range_snoc (lo hi : Z) :
  (lo <= hi)%Z -> py_range lo (hi + 1) = py_range lo hi ++ [hi].
Proof.
  intros Hle. unfold py_range.
  replace (Z.to_nat (hi + 1 - lo)) with (S (Z.to_nat (hi - lo))) by lia.
  rewrite seq_S, map_app. cbn [map Nat.add]. f_equal. f_equal. lia.
Qed.

(** The lab's training cell as a whole. *)
Lemma lab_train_run (X Y : ETensor A) (STEPS : Z) (LR : A) (rt : Runtime A)
  (xs ys : list A) :
  tval X = Vec xs ->
  tval Y = Vec ys ->
  length xs = length ys ->
  tid X < next_id rt -> tid Y < next_id rt ->
  let final := Nat.iter (Z.to_nat STEPS) (lab_gd_map xs ys LR)
                        (szero, szero) in
  exists w0 w1 out rt',
    Lab.train X Y STEPS LR rt = Ok ((w0, w1, out), rt')
    /\ vars rt' !! vid w0 = Some (Scal final.1)
    /\ vars rt' !! vid w1 = Some (Scal final.2)
    /\ (forall k, k < next_id rt -> vars rt' !! k = vars rt !! k)
    /\ out = lab_report xs ys LR (py_range 1 (STEPS + 1)) (szero, szero).
Proof.
  intros HX HY Hm HiX HiY final. unfold Lab.train, bind, tf.mk_Variable.
  cbn [next_id vars tapes].
  set (w0 := {| vid := next_id rt |}). set (w1 := {| vid := S (next_id rt) |}).
  match goal with
  | |- context [for_each _ _ _ ?r] => set (rt1 := r)
  end.
  destruct (lab_loop_run X Y w0 w1 LR xs ys (py_range 1 (STEPS + 1))
              HX HY Hm ltac:(cbn; lia) ltac:(cbn; lia) ltac:(cbn; lia)
              ltac:(cbn; lia) ltac:(cbn; lia) [] rt1 (szero, szero))
    as (out & rt' & Hrun & Hw0 & Hw1 & Hfr & Hout);
    try (cbn [next_id rt1 vid w0 w1]; lia).
  { cbn [vars rt1 vid w0 fst]. rewrite lookup_insert_ne by lia.
    apply lookup_insert_eq. }
  { cbn [vars rt1 vid w1 snd]. apply lookup_insert_eq. }
  rewrite Hrun. unfold ret.
  rewrite length_py_range in Hw0, Hw1.
  replace (Z.to_nat (STEPS + 1 - 1)) with (Z.to_nat STEPS) in Hw0, Hw1
    by (f_equal; lia).
  exists w0, w1, out, rt'. repeat split; try assumption.
  intros k Hk. rewrite Hfr by (cbn [vid w0 w1]; lia).
  cbn [vars rt1]. rewrite !lookup_insert_ne by lia. reflexivity.
Qed.

Lemma dataset_run (rt : Runtime A) :
  exists X Y rt',
    Lab.dataset rt = Ok ((X, Y), rt')
    /\ tval X = Vec toy_xs /\ tval Y = Vec toy_ys
    /\ tid X < next_id rt' /\ tid Y < next_id rt'.
Proof.
  unfold Lab.dataset, bind, tf.constant, fresh, tf.mul, tf.add, bind, lift,
    emit, ret.
  cbn [tval tid next_id vars tapes].
  rewrite k_binop_scalar_vec. cbn [tval tid next_id vars tapes].
  rewrite k_binop_vec_scalar.
  do 3 eexists. split; [reflexivity|]. split; [reflexivity|].
  cbn [tval tid next_id]. rewrite map_map.
  split; [reflexivity|]. lia.
Qed.

End LabRun.

Section LabReal.
Local Open Scope R_scope.

(** What the backward pass of the lab's loss sends to the residuals is
    [2/m] times the residuals. *)
Lemma lab_residual_grads_real (xs ys : list R) (a b : R) :
  length xs = length ys ->
  lab_residual_grads xs ys a b
  = map (fun d => 2 / INR (length xs) * d) (lab_residuals xs ys a b).
Proof.
  intros Hm. unfold lab_residual_grads. real_ops.
  replace (seq 0 (length xs))
    with (seq 0 (length (map (fun d : R => spow d 1)
                             (lab_residuals xs ys a b)))).
  2:{ unfold lab_residuals, lab_predictions.
      rewrite length_map, length_zip_with, length_map. f_equal. lia. }
  rewrite !map_map, zip_with_const, map_map.
  apply map_ext. intros d. cbn [spow]. real_ops.
  change (INR 2) with (1 + 1). unfold Rdiv. ring.
Qed.

Lemma lab_residuals_zip (xs ys : list R) (a b : R) :
  lab_residuals xs ys a b
  = zip_with (fun x y => ssub (sadd (smul a x) b) y) xs ys.
Proof.
  unfold lab_residuals, lab_predictions. revert ys.
  induction xs as [|x xs IH]; intros [|y ys]; try reflexivity.
  cbn [map zip_with]. f_equal. apply IH.
Qed.

Lemma rsum_scale (c : R) (l : list R) :
  rsum (map (fun d => c * d) l) = c * rsum l.
Proof.
  induction l as [|d l IH]; [unfold ssum; cbn; real_ops; ring|].
  cbn [map]. rewrite !rsum_cons, IH. ring.
Qed.

(** Over the reals the gradient of the backward pass is the gradient of
    section 4.2. *)
Lemma lab_ad_gradient_analytic (xs ys : list R) (a b : R) :
  length xs = length ys ->
  lab_ad_gradient xs ys a b = Lab.analytic_gradient xs ys a b.
Proof.
  intros Hm. unfold lab_ad_gradient, Lab.analytic_gradient.
  rewrite lab_residual_grads_real by exact Hm.
  rewrite <- lab_residuals_zip.
  set (r := lab_residuals xs ys a b). real_ops.
  f_equal.
  - change (rdot (map (fun d : R => 2 / INR (length xs) * d) r) xs
            = 2 / INR (length xs) * rdot xs r).
    rewrite (rdot_comm _ xs). apply rdot_scale_r.
  - apply rsum_scale.
Qed.

(** One update on the toy dataset at learning rate 0.02, in terms of the
    distance to [(2, 10)]. *)
Lemma toy_gd_map (e0 e1 : R) :
  lab_gd_map toy_xs toy_ys (2 / 100) (2 + e0, 10 + e1)
  = (2 + (-7 * e0 - 9 * e1) / 50, 10 + (-9 * e0 + 48 * e1) / 50).
Proof.
  unfold lab_gd_map.
  rewrite lab_ad_gradient_analytic
    by (unfold toy_ys; rewrite length_map; reflexivity).
  unfold Lab.analytic_gradient, toy_ys, toy_xs, dot, ssum.
  cbn [seq map zip_with fold_right length fst snd]. real_ops.
  cbn [INR]. f_equal; field.
Qed.
Lemma toy_iterates (k : nat) :
  Nat.iter k (lab_gd_map toy_xs toy_ys (2 / 100)) (0, 0)
  = (2 + IZR (toy_error k).1 / 50 ^ k, 10 + IZR (toy_error k).2 / 50 ^ k).
Proof.
  induction k as [|k IH].
  - cbn [Nat.iter nat_rect toy_error fst snd pow]. f_equal; field.
  - cbn [Nat.iter nat_rect]. fold (Nat.iter k (lab_gd_map (A:=R) toy_xs toy_ys (2 / 100)) (0, 0)).
    rewrite IH, toy_gd_map. cbn [toy_error fst snd].
    rewrite !plus_IZR, !minus_IZR, !mult_IZR. cbn [pow].
    assert (50 ^ k <> 0) by (apply pow_nonzero; lra).
    f_equal; field; assumption.
Qed.

Lemma toy_error_1000 :
  (Z.abs (toy_error 1000).1 * 100000 <= 2 * 50 ^ 1000
   /\ Z.abs (toy_error 1000).2 * 100000 <= 12 * 50 ^ 1000)%Z.
Proof. split; vm_compute; discriminate. Qed.

Lemma scaled_bound (p : Z) (c : Z) (k : nat) :
  (Z.abs p * 100000 <= c * 50 ^ Z.of_nat k)%Z ->
  Rabs (IZR p / 50 ^ k) <= IZR c / 100000.
Proof.
  intros H. apply IZR_le in H.
  rewrite !mult_IZR, abs_IZR, <- pow_IZR in H.
  assert (Hp : 0 < 50 ^ k) by (apply pow_lt; lra).
  unfold Rdiv. rewrite Rabs_mult, (Rabs_pos_eq (/ 50 ^ k))
    by (apply Rlt_le, Rinv_0_lt_compat; exact Hp).
  set (P := Rabs (IZR p)) in *. set (D := 50 ^ k) in *.
  apply Rmult_le_reg_r with (r := D); [exact Hp|].
  rewrite Rmult_assoc, Rinv_l, Rmult_1_r by lra.
  lra.
Qed.

(** After 1000 steps the weights are within [2e-5] and [12e-5] of
    [(2, 10)]. *)
Lemma toy_weights_1000 :
  let ab := Nat.iter 1000 (lab_gd_map toy_xs toy_ys (2 / 100)) (0, 0) in
  Rabs (ab.1 - 2) <= 2 / 100000 /\ Rabs (ab.2 - 10) <= 12 / 100000.
Proof.
  intros ab. subst ab. rewrite toy_iterates. cbn [fst snd].
  destruct toy_error_1000 as [H0 H1].
  split.
  - replace (2 + IZR (toy_error 1000).1 / 50 ^ 1000 - 2)
      with (IZR (toy_error 1000).1 / 50 ^ 1000) by ring.
    apply (scaled_bound _ 2 1000). exact H0.
  - replace (10 + IZR (toy_error 1000).2 / 50 ^ 1000 - 10)
      with (IZR (toy_error 1000).2 / 50 ^ 1000) by ring.
    apply (scaled_bound _ 12 1000). exact H1.
Qed.

Lemma zip_with_maps {B C D E} (f : C -> D -> E) (g : B -> C) (h : B -> D)
  (l : list B) :
  zip_with f (map g l) (map h l) = map (fun x => f (g x) (h x)) l.
Proof. induction l as [|x l IH]; [reflexivity|]. cbn. f_equal. exact IH. Qed.

Lemma mean_sq_bounds (l : list R) (c : R) :
  (0 < length l)%nat ->
  Forall (fun d => d * d <= c) l ->
  0 <= mean (map (fun d => spow d 2) l) <= c.
Proof.
  intros Hpos Hall. unfold mean. real_ops. rewrite length_map.
  assert (HM : 0 < INR (length l)) by (apply lt_0_INR; exact Hpos).
  assert (Hs : 0 <= ssum (map (fun d : R => spow d 2) l)
               <= INR (length l) * c).
  { clear Hpos HM. induction Hall as [|d l Hd Hall IH].
    - unfold ssum. cbn. lra.
    - cbn [map length]. rewrite S_INR, rsum_cons.
      set (S := ssum (map (fun d : R => spow d 2) l)) in *.
      cbn [spow]. real_ops. nra. }
  set (S := ssum (map (fun d : R => spow d 2) l)) in *.
  set (M := INR (length l)) in *.
  split.
  - apply Rmult_le_pos; [lra|]. apply Rlt_le, Rinv_0_lt_compat. exact HM.
  - apply Rmult_le_reg_r with (r := M); [exact HM|].
    unfold Rdiv. rewrite Rmult_assoc, Rinv_l, Rmult_1_r by lra. lra.
Qed.

(** Near [(2, 10)] the loss on the toy dataset is small. *)
Lemma toy_loss_small (a b : R) :
  Rabs (a - 2) <= 2 / 100000 ->
  Rabs (b - 10) <= 12 / 100000 ->
  0 <= lab_mse toy_xs toy_ys a b <= 1 / 1000000.
Proof.
  intros Ha Hb. unfold lab_mse, lab_predictions, toy_ys.
  rewrite zip_with_maps.
  apply mean_sq_bounds.
  - unfold toy_xs. rewrite !length_map, length_seq. lia.
  - unfold toy_xs. rewrite map_map.
    apply List.Forall_forall. intros d Hd. apply in_map_iff in Hd.
    destruct Hd as (j & <- & Hj). apply in_seq in Hj. real_ops.
    assert (Hx : 0 <= INR j <= 9).
    { split; [apply pos_INR|].
      assert (H9 : INR j <= INR 9) by (apply le_INR; lia).
      cbn [INR] in H9. lra. }
    change (INR 2) with (1 + 1). change (INR 10) with (1+1+1+1+1+1+1+1+1+1).
    set (x := INR j) in *.
    set (e0 := a - 2) in *. set (e1 := b - 10) in *.
    assert (Ha' : - (2 / 100000) <= e0 <= 2 / 100000)
      by (unfold Rabs in Ha; destruct (Rcase_abs e0); lra).
    assert (Hb' : - (12 / 100000) <= e1 <= 12 / 100000)
      by (unfold Rabs in Hb; destruct (Rcase_abs e1); lra).
    replace (a * x + b - ((1 + 1) * x + (1+1+1+1+1+1+1+1+1+1)))
      with (e0 * x + e1) by (unfold e0, e1; ring).
    assert (Hu : - (3 / 10000) <= e0 * x + e1 <= 3 / 10000) by nra.
    nra.
Qed.

End LabReal.

(** ** Further facts about the loss evaluator *)

Section MoreFacts.
Context {A : Type} `{SA : Scalar A} `{EA : Elementary A}.

Lemma mse_spec_loss (rows : list (list A)) (w ys : list A) :
  length rows = length ys ->
  mse rows w ys = spec_loss (combine rows ys) w.
Proof.
  intros Hm. unfold mse, spec_loss, mean. f_equal.
  - f_equal. unfold residuals, predictions. revert ys Hm.
    induction rows as [|r rows IH]; intros [|y ys] Hm; try discriminate;
      [reflexivity|].
    cbn [map zip_with combine fst snd]. f_equal. apply IH. cbn in Hm. lia.
  - rewrite !length_map, length_residuals, length_combine by exact Hm.
    f_equal. lia.
Qed.

Lemma feature_rows_wf (xs : list A) :
  Forall (fun r => length r = 5) (feature_rows xs).
Proof.
  unfold feature_rows, stack_rows. apply List.Forall_forall. intros r Hr.
  apply in_map_iff in Hr. destruct Hr as (i & <- & _). reflexivity.
Qed.

Lemma length_reported_losses (n : nat) (rows : list (list A)) (ys : list A)
  (lr : A) (items : list Z) (Wv : Tensor A) :
  length (reported_losses n rows ys lr items Wv)
  = length (List.filter (fun s => (s mod 100 =? 0)%Z) items).
Proof.
  revert Wv. induction items as [|step items IH]; intros Wv; [reflexivity|].
  cbn [reported_losses List.filter]. rewrite length_app, IH.
  destruct (step mod 100 =? 0)%Z; reflexivity.
Qed.

(** [loss_mse] raises when the weights do not have shape [(n, 1)]. *)
Lemma loss_mse_mismatch (X Y : ETensor A) (W : TFVariable) (rt : Runtime A)
  (n : nat) (rows : list (list A)) (Wv : Tensor A) :
  tval X = Mat n rows ->
  vars rt !! vid W = Some Wv ->
  shape_of Wv <> [n; 1] ->
  exists e,
    Bonus.loss_mse X Y W rt = Err e
    /\ (forall p wrows, Wv = Mat p wrows -> length wrows <> n ->
        e = MatrixSizeIncompatible [length rows; n] [length wrows; p]).
Proof.
  intros HX HW Hshape.
  unfold Bonus.loss_mse, Bonus.predict, bind, tf.read_value. rewrite HW.
  unfold tf.matmul, bind, lift. cbn [tval]. rewrite HX.
  destruct Wv as [x|v|p wrows].
  - eexists. split; [reflexivity|]. intros ? ? [=].
  - eexists. split; [reflexivity|]. intros ? ? [=].
  - destruct (Nat.eq_dec n (length wrows)) as [Hn|Hn].
    + assert (Hp : p <> 1) by (intros ->; apply Hshape; cbn; congruence).
      unfold k_matmul. rewrite Hn, Nat.eqb_refl.
      unfold emit, tf.squeeze, bind, lift. cbn [tval next_id vars tapes].
      assert (Hsq : forall rs, exists e, k_squeeze (-1) (Mat p rs) = Err e).
      { intros rs. unfold k_squeeze. cbn [shape_of length norm_axis].
        cbn. destruct p as [|[|p]]; [| contradiction |];
          destruct rs as [|? [|? ?]]; eexists; reflexivity. }
      match goal with
      | |- context [k_squeeze (-1) (Mat p ?rs)] =>
          destruct (Hsq rs) as (e & He); rewrite He
      end.
      exists e. split; [reflexivity|].
      intros p' wrows' [= -> ->] Hne. congruence.
    + rewrite (k_matmul_mismatch n p rows wrows Hn).
      eexists. split; [reflexivity|].
      intros p' wrows' [= -> ->] _. reflexivity.
Qed.

End MoreFacts.

(** ** Results that hold for every arithmetic *)

Section GenericClaims.
Context {A : Type} `{SA : Scalar A} `{EA : Elementary A}.

(** C1.  The training cell returns, for every dataset of [(x, y)] pairs,
    every learning rate and every step count [STEPS], and the value it
    leaves in [W] is the [STEPS]-fold iterate, from the zero weights, of the
    update [w |-> w - gradient(dataset, w) * learning_rate]: the loop runs
    its body once per element of [range(1, STEPS + 1)] and looks at no
    loss to decide whether to go on.  The gradient in that update is the
    tensor that [compute_gradients] returns at the weights [w]. *)
Theorem train_iterates_update (X Y : ETensor A) (STEPS : Z)
  (LEARNING_RATE : A) (rt : Runtime A) (xs ys : list A) :
  tval X = Vec xs ->
  tval Y = Vec ys ->
  length xs = length ys ->
  tid X < next_id rt ->
  tid Y < next_id rt ->
  (exists W rep mse_out rt',
      Bonus.train X Y STEPS LEARNING_RATE rt = Ok ((W, rep, mse_out), rt')
      /\ length (py_range 1 (STEPS + 1)) = Z.to_nat STEPS
      /\ vars rt' !! vid W
         = Some (Nat.iter (Z.to_nat STEPS)
                          (gd_map 5 (feature_rows xs) ys LEARNING_RATE)
                          (zeros 5 1)))
  /\ (forall (Xf Y0 : ETensor A) (V : TFVariable) (rt0 : Runtime A)
             (n : nat) (rows wrows : list (list A)) (ys0 : list A),
        tval Xf = Mat n rows ->
        tval Y0 = Vec ys0 ->
        length rows = length ys0 ->
        vars rt0 !! vid V = Some (Mat 1 wrows) ->
        length wrows = n ->
        tid Xf < next_id rt0 -> tid Y0 < next_id rt0 ->
        vid V < next_id rt0 ->
        tid Xf <> vid V -> tid Y0 <> vid V ->
        exists g rt1,
          Bonus.compute_gradients Xf Y0 V rt0 = Ok (Some g, rt1)
          /\ gd_map n rows ys0 LEARNING_RATE (Mat 1 wrows)
             = k_zip ssub (Mat 1 wrows)
                     (tmap (fun d => smul d LEARNING_RATE) (tval g))).
Proof.
  intros HX HY Hm HiX HiY. split.
  - destruct (train_run X Y STEPS LEARNING_RATE rt xs ys HX HY Hm HiX HiY)
      as (W & rep & mse_out & rt' & Hrun & Hfinal & _).
    exists W, rep, mse_out, rt'. split; [exact Hrun|]. split; [|exact Hfinal].
    rewrite length_py_range. f_equal. lia.
  - intros Xf Y0 V rt0 n rows wrows ys0 HXf HY0 Hm0 HV Hn Hi1 Hi2 Hi3 Hn1 Hn2.
    rewrite (grad_run Xf Y0 V rt0 n rows wrows ys0
               HXf HY0 Hm0 HV Hn Hi1 Hi2 Hi3 Hn1 Hn2).
    do 2 eexists. split; reflexivity.
Qed.

(** C2.  On [m] samples and weights of matching dimension the loss
    evaluator returns the mean over the samples of
    [(w . features(x) - y)^2], and it changes neither a variable nor a
    tape: it only allocates the ids of its results.  The same holds for the
    lab's evaluator with the prediction [w0 * x + w1]. *)
Theorem loss_mse_is_mean_squared_error :
  (forall (X Y : ETensor A) (W : TFVariable) (rt : Runtime A) (n : nat)
          (rows wrows : list (list A)) (ys : list A),
      tval X = Mat n rows ->
      tval Y = Vec ys ->
      length rows = length ys ->
      vars rt !! vid W = Some (Mat 1 wrows) ->
      length wrows = n ->
      exists l rt',
        Bonus.loss_mse X Y W rt = Ok (l, rt')
        /\ tval l = Scal (spec_loss (combine rows ys) (weights wrows))
        /\ vars rt' = vars rt
        /\ (tapes rt = [] -> tapes rt' = []))
  /\ (forall (X Y : ETensor A) (w0 w1 : TFVariable) (rt : Runtime A)
             (xs ys : list A) (a b : A),
      tval X = Vec xs ->
      tval Y = Vec ys ->
      length xs = length ys ->
      vars rt !! vid w0 = Some (Scal a) ->
      vars rt !! vid w1 = Some (Scal b) ->
      exists l rt',
        Lab.loss_mse X Y w0 w1 rt = Ok (l, rt')
        /\ tval l
           = Scal (mean (map (fun s => spow (ssub (sadd (smul a s.1) b) s.2) 2)
                             (combine xs ys)))
        /\ vars rt' = vars rt
        /\ (tapes rt = [] -> tapes rt' = [])).
Proof.
  split.
  - intros X Y W rt n rows wrows ys HX HY Hm HW Hn.
    rewrite (loss_mse_run X Y W rt n rows wrows ys HX HY Hm HW Hn).
    do 2 eexists. split; [reflexivity|]. cbn [tval vars tapes].
    rewrite mse_spec_loss by exact Hm. repeat split.
    intros ->. reflexivity.
  - intros X Y w0 w1 rt xs ys a b HX HY Hm H0 H1.
    destruct (lab_loss_run X Y w0 w1 rt xs ys a b HX HY Hm H0 H1)
      as (l & rt' & Hrun & Hl & Hvars & _ & Htapes).
    exists l, rt'. split; [exact Hrun|]. split; [|split; assumption].
    rewrite Hl. unfold lab_mse, mean, lab_predictions. f_equal. f_equal.
    + f_equal. clear. revert ys.
      induction xs as [|x xs IH]; intros [|y ys]; try reflexivity.
      cbn [map zip_with combine fst snd]. f_equal. apply IH.
    + rewrite !length_map, length_zip_with, length_map, length_combine.
      reflexivity.
Qed.

(** C5.  When the weights do not have the shape [(n, 1)] that [n] features
    call for, the loss evaluator and the gradient computer both raise, and
    raise the same error; when the number of weights differs from [n] it is
    the matrix product's error, which names both shapes.  No value comes
    back. *)
Theorem dimension_mismatch_raises (X Y : ETensor A) (W : TFVariable)
  (rt : Runtime A) (n : nat) (rows : list (list A)) (Wv : Tensor A) :
  tval X = Mat n rows ->
  vars rt !! vid W = Some Wv ->
  shape_of Wv <> [n; 1] ->
  exists e,
    Bonus.loss_mse X Y W rt = Err e
    /\ Bonus.compute_gradients X Y W rt = Err e
    /\ (forall p wrows, Wv = Mat p wrows -> length wrows <> n ->
        e = MatrixSizeIncompatible [length rows; n] [length wrows; p]).
Proof.
  intros HX HW Hshape.
  destruct (loss_mse_mismatch X Y W rt n rows Wv HX HW Hshape)
    as (e & Hloss & He).
  set (rt1 := {| next_id := next_id rt; vars := vars rt;
                 tapes := [] :: tapes rt |}).
  destruct (loss_mse_mismatch X Y W rt1 n rows Wv HX HW Hshape)
    as (e1 & Hloss1 & He1).
  assert (e1 = e).
  { revert Hloss Hloss1. unfold Bonus.loss_mse, Bonus.predict, bind,
      tf.read_value. cbn [vars rt1]. rewrite HW.
    unfold tf.matmul, bind, lift.
    destruct (k_matmul false false (tval X) (tval {| tid := vid W; tval := Wv |}))
      as [t|e0]; [|intros; congruence].
    unfold emit, tf.squeeze, bind, lift. cbn [tval next_id vars tapes].
    destruct (k_squeeze (-1) t) as [t'|e0]; [|intros; congruence].
    unfold emit, tf.sub, bind, lift. cbn [tval next_id vars tapes].
    destruct (k_binop "Sub" ssub t' (tval Y));
      unfold tf.pow, tf.reduce_mean, emit; cbv beta iota zeta;
      intros; congruence. }
  subst e1. exists e. split; [exact Hloss|]. split; [|exact He].
  unfold Bonus.compute_gradients, bind, tf.GradientTape.
  fold rt1. rewrite Hloss1. reflexivity.
Qed.

(** C7.  Two runs of the training loop on the same dataset, from the same
    initial weights, with the same learning rate and the same number of
    steps leave the same weights, whatever else differs between the two
    runtimes: the ids of the tensors, the id counter, the other variables
    and the active tapes. *)
Theorem training_is_deterministic
  (Xf1 Y1 Xf2 Y2 : ETensor A) (W1 W2 : TFVariable) (rt1 rt2 : Runtime A)
  (rep1 rep2 : Bonus.Report) (LEARNING_RATE : A) (STEPS : Z)
  (n : nat) (rows : list (list A)) (ys : list A) (W0 : Tensor A) :
  tval Xf1 = Mat n rows -> tval Xf2 = Mat n rows ->
  tval Y1 = Vec ys -> tval Y2 = Vec ys ->
  length rows = length ys ->
  is_column n W0 ->
  vars rt1 !! vid W1 = Some W0 -> vars rt2 !! vid W2 = Some W0 ->
  tid Xf1 < next_id rt1 -> tid Y1 < next_id rt1 -> vid W1 < next_id rt1 ->
  tid Xf1 <> vid W1 -> tid Y1 <> vid W1 ->
  tid Xf2 < next_id rt2 -> tid Y2 < next_id rt2 -> vid W2 < next_id rt2 ->
  tid Xf2 <> vid W2 -> tid Y2 <> vid W2 ->
  exists r1 rt1' r2 rt2' Wfinal,
    for_each (py_range 1 (STEPS + 1))
             (Bonus.train_step Xf1 Y1 W1 LEARNING_RATE) rep1 rt1
    = Ok (r1, rt1')
    /\ for_each (py_range 1 (STEPS + 1))
                (Bonus.train_step Xf2 Y2 W2 LEARNING_RATE) rep2 rt2
       = Ok (r2, rt2')
    /\ vars rt1' !! vid W1 = Some Wfinal
    /\ vars rt2' !! vid W2 = Some Wfinal.
Proof.
  intros HX1 HX2 HY1 HY2 Hm Hcol HW1 HW2
         HiX1 HiY1 HiW1 HXW1 HYW1 HiX2 HiY2 HiW2 HXW2 HYW2.
  destruct (train_loop_run Xf1 Y1 W1 LEARNING_RATE n rows ys
              (py_range 1 (STEPS + 1)) HX1 HY1 Hm HXW1 HYW1
              rep1 rt1 W0 HW1 Hcol HiX1 HiY1 HiW1)
    as (r1 & rt1' & Hrun1 & Hv1 & _).
  destruct (train_loop_run Xf2 Y2 W2 LEARNING_RATE n rows ys
              (py_range 1 (STEPS + 1)) HX2 HY2 Hm HXW2 HYW2
              rep2 rt2 W0 HW2 Hcol HiX2 HiY2 HiW2)
    as (r2 & rt2' & Hrun2 & Hv2 & _).
  exists r1, rt1', r2, rt2'. eexists.
  split; [exact Hrun1|]. split; [exact Hrun2|]. split; [exact Hv1|exact Hv2].
Qed.

Lemma is_column_shape (n : nat) (Wv : Tensor A) :
  is_column n Wv -> shape_of Wv = [n; 1].
Proof. intros (wrows & -> & Hn & _). cbn [shape_of]. congruence. Qed.

(** C9.  The training cell creates [W] with one row per column of the
    feature matrix, and after any number of passes through the loop body
    [W] still has that shape. *)
Theorem weight_shape_is_invariant (Xf Y : ETensor A) (LEARNING_RATE : A)
  (rt : Runtime A) (n : nat) (rows : list (list A)) (ys : list A) :
  tval Xf = Mat n rows ->
  tval Y = Vec ys ->
  length rows = length ys ->
  tid Xf < next_id rt ->
  tid Y < next_id rt ->
  exists W rt0 W0,
    Bonus.init_weights Xf rt = Ok (W, rt0)
    /\ vars rt0 !! vid W = Some W0
    /\ shape_of W0 = [n; 1]
    /\ forall (items : list Z) (rep : Bonus.Report),
       exists rep' rt' Wk,
         for_each items (Bonus.train_step Xf Y W LEARNING_RATE) rep rt0
         = Ok (rep', rt')
         /\ vars rt' !! vid W = Some Wk
         /\ shape_of Wk = shape_of W0.
Proof.
  intros HX HY Hm HiX HiY.
  unfold Bonus.init_weights, bind, tf.shape_index. rewrite HX.
  cbn [tval shape_of nth_error]. unfold ret, tf.mk_Variable.
  set (W := {| vid := next_id rt |}).
  set (rt0 := {| next_id := S (next_id rt);
                 vars := <[next_id rt := zeros n 1]> (vars rt);
                 tapes := tapes rt |}).
  assert (HW0 : vars rt0 !! vid W = Some (zeros n 1))
    by (cbn [vars rt0 vid W]; apply lookup_insert_eq).
  exists W, rt0, (zeros n 1). split; [reflexivity|]. split; [exact HW0|].
  split; [apply is_column_shape, zeros_column|].
  intros items rep.
  destruct (train_loop_run Xf Y W LEARNING_RATE n rows ys items HX HY Hm)
    with (rep := rep) (rt := rt0) (Wv := zeros n 1)
    as (rep' & rt' & Hrun & Hv & _);
    try (cbn [vid W next_id rt0]; lia); try exact HW0.
  { apply zeros_column. }
  exists rep', rt'. eexists. split; [exact Hrun|]. split; [exact Hv|].
  rewrite !(is_column_shape n); [reflexivity| apply zeros_column |].
  apply gd_iter_column, zeros_column.
Qed.

End GenericClaims.

(** ** Results over the real numbers *)

Section RealClaims.
Local Open Scope R_scope.


Lemma zip_minus_zero (p ys : list R) :
  length p = length ys ->
  Forall (fun d => d = 0) (zip_with Rminus p ys) -> p = ys.
Proof.
  revert ys. induction p as [|x p IH]; intros [|y ys] Hl Hall;
    try discriminate; [reflexivity|].
  cbn [zip_with] in Hall. inversion Hall as [|? ? Hd Hrest]; subst.
  f_equal; [lra|]. apply IH; [cbn in Hl; lia | exact Hrest].
Qed.

Lemma zip_minus_self (p : list R) :
  map (fun d => d * d) (zip_with Rminus p p) = map (fun _ => 0) p.
Proof.
  induction p as [|x p IH]; [reflexivity|].
  cbn [zip_with map]. f_equal; [ring | exact IH].
Qed.

Lemma rsum_zeros {B} (l : list B) : ssum (map (fun _ => 0) l) = 0.
Proof.
  induction l as [|x l IH]; [reflexivity|].
  cbn [map]. rewrite rsum_cons, IH. lra.
Qed.

(** The mean of squared differences is non-negative, and zero exactly when
    the two lists agree. *)
Lemma mean_sq_diff (p ys : list R) :
  length p = length ys ->
  (0 < length p)%nat ->
  let L := mean (map (fun d => spow d 2) (zip_with Rminus p ys)) in
  0 <= L /\ (L = 0 <-> p = ys).
Proof.
  intros Hl Hpos L. subst L. unfold mean. real_ops.
  rewrite length_map, length_zip_with, <- Hl, Nat.min_id.
  assert (HM : 0 < INR (length p)) by (apply lt_0_INR; exact Hpos).
  assert (Heq : map (fun d : R => spow d 2) (zip_with Rminus p ys)
                = map (fun d => d * d) (zip_with Rminus p ys)).
  { apply map_ext. intros d. cbn [spow]. real_ops. ring. }
  rewrite Heq.
  pose proof (rsum_nonneg_sq (zip_with Rminus p ys)) as Hs.
  set (S := ssum (map (fun d => d * d) (zip_with Rminus p ys))) in *.
  set (M := INR (length p)) in *.
  assert (Hinv : 0 < / M) by (apply Rinv_0_lt_compat; exact HM).
  split; [unfold Rdiv; nra|]. split.
  - intros H0. apply zip_minus_zero; [exact Hl|].
    apply rsum_sq_zero. fold S. unfold Rdiv in H0. nra.
  - intros ->. unfold S. rewrite zip_minus_self, rsum_zeros.
    unfold Rdiv. ring.
Qed.



Lemma reported_nonincreasing (n : nat) (rows : list (list R)) (ys : list R)
  (lr : R) :
  Forall (fun r => length r = n) rows ->
  length rows = length ys ->
  0 <= lr -> lr <= safe_rate rows ->
  forall (items : list Z) (Wv : Tensor R),
  is_column n Wv ->
  exists ls,
    reported_losses n rows ys lr items Wv = map Scal ls
    /\ nonincreasing ls
    /\ Forall (fun l => l <= loss_at rows ys Wv) ls.
Proof.
  intros Hwf Hm Hlr0 Hlr1.
  induction items as [|step items IH]; intros Wv Hcol.
  - exists []. repeat split. constructor.
  - cbn [reported_losses].
    pose proof (loss_nonincreasing_step n rows ys lr Wv Hwf Hm Hcol Hlr0 Hlr1)
      as Hstep.
    destruct (IH (gd_map n rows ys lr Wv) (gd_map_column n rows ys lr Wv Hcol))
      as (ls & Hls & Hmono & Hbound).
    assert (Hbound' : Forall (fun l => l <= loss_at rows ys Wv) ls).
    { eapply List.Forall_impl; [|exact Hbound].
      intros l Hl. cbv beta in Hl |- *. lra. }
    destruct (step mod 100 =? 0)%Z.
    + exists (loss_at rows ys (gd_map n rows ys lr Wv) :: ls).
      rewrite Hls. split; [reflexivity|]. split.
      * destruct ls as [|l ls]; [exact I|]. split; [|exact Hmono].
        inversion Hbound; subst. assumption.
      * constructor; [exact Hstep | exact Hbound'].
    + exists ls. rewrite Hls. repeat split; assumption.
Qed.



Lemma zip_with_diag {B C} (f : B -> B -> C) (v : list B) :
  zip_with f v v = map (fun x => f x x) v.
Proof. induction v as [|x v IH]; [reflexivity|]. cbn. f_equal. exact IH. Qed.

Lemma rdot_self_zero (v : list R) :
  dot v v = 0 -> Forall (fun x => x = 0) v.
Proof.
  unfold dot. rewrite zip_with_diag. real_ops. apply rsum_sq_zero.
Qed.

Lemma rdot_zero_vec (v : list R) :
  Forall (fun x => x = 0) v -> forall d, dot d v = 0.
Proof.
  induction 1 as [|x v Hx Hv IH]; intros d.
  - apply rdot_nil_r.
  - destruct d as [|y d]; [reflexivity|].
    rewrite rdot_cons, IH, Hx. ring.
Qed.

Lemma closed_form_gradient_zero (n : nat) (rows : list (list R))
  (w ys : list R) :
  Forall (fun x => x = 0) (xt_times n rows (residuals rows w ys)) ->
  closed_form_gradient n rows w ys = zeros n 1.
Proof.
  intros Hz. unfold closed_form_gradient, zeros. f_equal.
  fold (predictions rows w). fold (residuals (SA:=Scalar_R) rows w ys).
  unfold xt_times in Hz.
  rewrite <- (length_transpose n rows) at 2.
  induction (transpose n rows) as [|c cs IH]; [reflexivity|].
  cbn [map length replicate] in *. inversion Hz as [|? ? Hc Hcs]; subst.
  f_equal; [|apply IH; exact Hcs].
  unfold residuals in Hc. real_ops. rewrite Hc. f_equal. ring.
Qed.

(** At weights that solve the normal equations [X^T (X w - y) = 0], as the
    closed-form least-squares solution does, the loss is minimal. *)
Lemma normal_equations_minimize (n : nat) (rows : list (list R))
  (w w' ys : list R) :
  Forall (fun r => length r = n) rows ->
  length rows = length ys ->
  length w = n -> length w' = n ->
  Forall (fun x => x = 0) (xt_times n rows (residuals rows w ys)) ->
  sq_error rows w ys <= sq_error rows w' ys.
Proof.
  intros Hwf Hm Hw Hw' Hz.
  (* w' = w - 1 * d with d = w - w' *)
  set (d := zip_with Rminus w w').
  assert (Hd : length d = n)
    by (unfold d; rewrite length_zip_with; lia).
  assert (Hw'eq : w' = zip_with Rminus w (map (fun x => 1 * x) d)).
  { unfold d. clear - Hw Hw'. revert w' n Hw Hw'.
    induction w as [|x w IH]; intros [|y w'] n Hw Hw';
      try reflexivity; cbn in *; try congruence.
    f_equal; [ring|]. apply (IH w' (length w)); congruence. }
  rewrite Hw'eq at 1. unfold sq_error.
  rewrite residuals_update by (try lia; exact Hm).
  set (e := residuals rows w ys) in *.
  rewrite rsum_sq_sub
    by (rewrite length_map; unfold e; apply length_residuals; exact Hm).
  rewrite (rdot_exchange n rows e d Hwf)
    by (unfold e; apply length_residuals; exact Hm).
  fold (xt_times n rows e).
  rewrite (rdot_zero_vec (xt_times n rows e) Hz d).
  pose proof (rsum_nonneg_sq (map (fun r => dot r d) rows)). lra.
Qed.


(** C4.  On the toy dataset [X = 0 .. 9], [Y = 2 X + 10], 1000 steps at
    learning rate 0.02 from zero weights leave [w0] within 0.01 of 2 and
    [w1] within 0.01 of 10, and the loss in the last line that the loop
    prints, at step 1000, is at most one millionth. *)
Theorem toy_regression_converges (rt : Runtime R) :
  exists X Y rt1 w0 w1 out rt2 a b loss,
    Lab.dataset rt = Ok ((X, Y), rt1)
    /\ Lab.train X Y 1000 (2 / 100) rt1 = Ok ((w0, w1, out), rt2)
    /\ vars rt2 !! vid w0 = Some (Scal a)
    /\ vars rt2 !! vid w1 = Some (Scal b)
    /\ Rabs (a - 2) <= 1 / 100
    /\ Rabs (b - 10) <= 1 / 100
    /\ (exists earlier,
          out = earlier ++ [{| Lab.l_step := 1000; Lab.l_loss := Scal loss;
                               Lab.l_w0 := Scal a; Lab.l_w1 := Scal b |}])
    /\ 0 <= loss <= 1 / 1000000.
Proof.
  destruct (dataset_run rt) as (X & Y & rt1 & Hds & HX & HY & HiX & HiY).
  assert (Hm : length (toy_xs (A:=R)) = length (toy_ys (A:=R)))
    by (unfold toy_ys; rewrite length_map; reflexivity).
  destruct (lab_train_run X Y 1000 (2 / 100) rt1 toy_xs toy_ys HX HY Hm
              HiX HiY)
    as (w0 & w1 & out & rt2 & Hrun & Hw0 & Hw1 & _ & Hout).
  change (Z.to_nat 1000) with 1000%nat in Hw0, Hw1.
  real_ops.
  destruct toy_weights_1000 as [Ha Hb]. cbv zeta in Ha, Hb.
  set (ab := Nat.iter 1000 (lab_gd_map toy_xs toy_ys (2 / 100)) (0, 0)) in *.
  exists X, Y, rt1, w0, w1, out, rt2, ab.1, ab.2,
    (lab_mse toy_xs toy_ys ab.1 ab.2).
  split; [exact Hds|]. split; [exact Hrun|].
  split; [exact Hw0|]. split; [exact Hw1|].
  split; [lra|]. split; [lra|]. split.
  - rewrite (py_range_snoc 1 1000) in Hout by lia.
    rewrite lab_report_snoc in Hout.
    rewrite length_py_range in Hout.
    change (S (Z.to_nat (1000 - 1))) with 1000%nat in Hout.
    change ((1000 mod 100 =? 0)%Z) with true in Hout.
    real_ops. fold ab in Hout.
    eexists. exact Hout.
  - apply toy_loss_small; assumption.
Qed.

End RealClaims.

(** ** The feature map and the predictions *)

Section FeatureFacts.
Context {A : Type} `{SA : Scalar A} `{EA : Elementary A}.

Lemma nth_map_in_range {B C} (f : B -> C) (l : list B) (i : nat) (d : C) (d' : B) :
  i < length l -> nth i (map f l) d = f (nth i l d').
Proof.
  intros Hi. rewrite (nth_indep (map f l) d (f d')) by (rewrite length_map; exact Hi).
  apply map_nth.
Qed.

(** Stacking the five feature columns along axis 1 gives one row per
    sample. *)
Lemma feature_rows_map (xs : list A) :
  feature_rows xs = map (fun x => [sone; x; smul x x; ssqrt x; sexp x]) xs.
Proof.
  unfold feature_rows, stack_rows. cbn [map].
  rewrite <- (map_nth_seq (fun x => [sone; x; smul x x; ssqrt x; sexp x]) xs szero).
  apply map_ext_in. intros i Hi. apply in_seq in Hi.
  rewrite !(nth_map_in_range _ xs i szero szero) by lia.
  reflexivity.
Qed.

(** X1.  On a vector of samples [make_features] returns the matrix with
    one row [1, x, x * x, sqrt x, exp x] per sample, in the order of the
    samples, and changes no variable; without samples the matrix has no
    row and still five columns. *)
Theorem make_features_builds_one_row_per_sample (X : ETensor A)
  (rt : Runtime A) (xs : list A) :
  tval X = Vec xs ->
  exists Xf rt',
    Bonus.make_features X rt = Ok (Xf, rt')
    /\ tval Xf
       = Mat 5 (map (fun x => [sone; x; smul x x; ssqrt x; sexp x]) xs)
    /\ shape_of (tval Xf) = [length xs; 5]
    /\ vars rt' = vars rt.
Proof.
  intros HX.
  destruct (make_features_run X rt xs HX) as (rt' & Hrun & _ & Hvars).
  do 2 eexists. split; [exact Hrun|]. cbn [tval shape_of].
  rewrite length_feature_rows, feature_rows_map. auto.
Qed.

(** X2.  On a single number [make_features] raises: five scalars cannot be
    stacked along axis 1. *)
Theorem make_features_of_scalar_raises (X : ETensor A) (rt : Runtime A)
  (x : A) :
  tval X = Scal x ->
  Bonus.make_features X rt = Err (AxisOutOfRange "Pack" []).
Proof.
  intros HX.
  unfold Bonus.make_features, bind, tf.ones_like, tf.square, tf.sqrt, tf.exp,
    tf.stack, bind, lift, emit.
  cbn [tval tid next_id vars tapes map]. rewrite HX. reflexivity.
Qed.

(** X3.  On an [m x n] feature matrix and [n x 1] weights [predict] returns
    the vector of the [m] products of a row with the weights, and changes
    no variable. *)
Theorem predict_returns_row_products (X : ETensor A) (W : TFVariable)
  (rt : Runtime A) (n : nat) (rows wrows : list (list A)) :
  tval X = Mat n rows ->
  vars rt !! vid W = Some (Mat 1 wrows) ->
  length wrows = n ->
  exists p rt',
    Bonus.predict X W rt = Ok (p, rt')
    /\ tval p = Vec (map (fun r => dot r (column 0 wrows)) rows)
    /\ shape_of (tval p) = [length rows]
    /\ vars rt' = vars rt.
Proof.
  intros HX HW Hn.
  unfold Bonus.predict, bind, tf.read_value, tf.matmul, tf.squeeze, bind,
    lift, emit.
  rewrite HW. cbn [tval tid next_id vars tapes]. rewrite HX.
  rewrite (k_matmul_column n rows wrows Hn).
  cbn [tval tid next_id vars tapes].
  rewrite k_squeeze_column. cbn [tval tid next_id vars tapes].
  do 2 eexists. split; [reflexivity|]. cbn [tval shape_of vars].
  rewrite (column_singletons (fun r => dot r (weights wrows)) rows).
  rewrite length_map. auto.
Qed.

Lemma k_squeeze_wide (p : nat) (rs : list (list A)) :
  p <> 1 -> k_squeeze (-1) (Mat p rs) = Err (CannotSqueeze [length rs; p]).
Proof.
  intros Hp. unfold k_squeeze. destruct p as [|[|p]]; [|congruence|];
    reflexivity.
Qed.

(** X4.  With weights of [p] columns, [p] other than 1, [predict] raises:
    the product has [p] columns and its last axis cannot be squeezed. *)
Theorem predict_with_wide_weights_raises (X : ETensor A) (W : TFVariable)
  (rt : Runtime A) (n p : nat) (rows wrows : list (list A)) :
  tval X = Mat n rows ->
  vars rt !! vid W = Some (Mat p wrows) ->
  length wrows = n ->
  p <> 1 ->
  Bonus.predict X W rt = Err (CannotSqueeze [length rows; p]).
Proof.
  intros HX HW Hn Hp.
  unfold Bonus.predict, bind, tf.read_value, tf.matmul, tf.squeeze, bind,
    lift, emit.
  rewrite HW. cbn [tval tid next_id vars tapes]. rewrite HX.
  unfold k_matmul. rewrite Hn, Nat.eqb_refl.
  cbn [tval tid next_id vars tapes].
  rewrite (k_squeeze_wide p _ Hp), length_map. reflexivity.
Qed.
End FeatureFacts.

(** ** Targets of another shape than the predictions *)

Section BroadcastFacts.
Context {A : Type} `{SA : Scalar A} `{EA : Elementary A}.

(** Two vectors of different lengths, neither of length 1, do not
    broadcast. *)
Lemma k_binop_vec_mismatch (op : string) (f : A -> A -> A) (u v : list A) :
  length u <> length v -> length u <> 1 -> length v <> 1 ->
  k_binop op f (Vec u) (Vec v)
  = Err (IncompatibleShapes op [length u] [length v]).
Proof.
  intros Huv Hu Hv. unfold k_binop. cbn [shape_of].
  rewrite shape_eqb_false by congruence.
  unfold broadcast_shape. cbn [rev app bshape_rev]. unfold bdim.
  destruct (Nat.eqb_spec (length u) (length v)); [contradiction|].
  destruct (Nat.eqb_spec (length u) 1); [contradiction|].
  destruct (Nat.eqb_spec (length v) 1); [contradiction|].
  reflexivity.
Qed.

(** A vector of length 1 is stretched along the other operand. *)
Lemma k_binop_vec_single (op : string) (f : A -> A -> A) (u : list A) (y : A) :
  k_binop op f (Vec u) (Vec [y]) = Ok (Vec (map (fun p => f p y) u)).
Proof.
  unfold k_binop. cbn [shape_of length].
  destruct (Nat.eq_dec (length u) 1) as [H1|H1].
  - destruct u as [|p [|? ?]]; try discriminate. reflexivity.
  - rewrite shape_eqb_false by congruence.
    unfold broadcast_shape. cbn [rev app bshape_rev]. unfold bdim.
    destruct (Nat.eqb_spec (length u) 1); [contradiction|].
    cbn [Nat.eqb rev app tabulate bget length nth].
    rewrite (map_bget_seq (fun p => f p y)). reflexivity.
Qed.

Lemma map_bnth_seq {B C} (f : B -> C) (v : list B) (d : B) :
  map (fun i => f (nth (if length v =? 1 then 0 else i) v d))
      (seq 0 (length v))
  = map f v.
Proof.
  destruct (Nat.eqb_spec (length v) 1) as [H1|H1].
  - destruct v as [|x [|? ?]]; try discriminate. reflexivity.
  - apply map_nth_seq.
Qed.

(** A vector against a column: every entry of the one meets every entry of
    the other. *)
Lemma k_binop_vec_column (op : string) (f : A -> A -> A) (u : list A)
  (yrows : list (list A)) :
  k_binop op f (Vec u) (Mat 1 yrows)
  = Ok (Mat (length u)
            (map (fun yr => map (fun p => f p (nth 0 yr szero)) u) yrows)).
Proof.
  unfold k_binop. cbn [shape_of].
  rewrite shape_eqb_false by discriminate.
  unfold broadcast_shape. cbn [rev app bshape_rev]. unfold bdim.
  assert (Hd : (if length u =? 1 then Some (length u)
                else if length u =? 1 then Some 1 else
                if 1 =? 1 then Some (length u) else None)
               = Some (length u)).
  { destruct (Nat.eqb_spec (length u) 1); reflexivity. }
  rewrite Hd. cbn [rev app tabulate bget Nat.eqb].
  f_equal. f_equal.
  rewrite <- (map_bnth_seq (fun yr => map (fun p => f p (nth 0 yr szero)) u)
                yrows []).
  apply map_ext. intros i.
  apply (map_bget_seq (fun p => f p (nth 0 (nth (if length yrows =? 1 then 0 else i) yrows []) szero))).
Qed.

Lemma predict_run (X : ETensor A) (W : TFVariable) (rt : Runtime A)
  (n : nat) (rows wrows : list (list A)) :
  tval X = Mat n rows ->
  vars rt !! vid W = Some (Mat 1 wrows) ->
  length wrows = n ->
  exists rt1,
    Bonus.predict X W rt
    = Ok ({| tid := 1 + next_id rt;
             tval := Vec (predictions rows (weights wrows)) |}, rt1)
    /\ vars rt1 = vars rt.
Proof.
  intros HX HW Hn.
  unfold Bonus.predict, bind, tf.read_value, tf.matmul, tf.squeeze, bind,
    lift, emit.
  rewrite HW. cbn [tval tid next_id vars tapes]. rewrite HX.
  rewrite (k_matmul_column n rows wrows Hn).
  cbn [tval tid next_id vars tapes].
  rewrite k_squeeze_column. cbn [tval tid next_id vars tapes].
  rewrite (column_singletons (fun r => dot r (weights wrows)) rows).
  eexists. split; reflexivity.
Qed.

(** X5.  When the number of targets differs from the number of samples and
    neither is 1, the loss evaluator and the gradient computer raise the
    subtraction's error, which names both lengths; so does the lab's
    evaluator. *)
Theorem target_count_mismatch_raises :
  (forall (X Y : ETensor A) (W : TFVariable) (rt : Runtime A) (n : nat)
          (rows wrows : list (list A)) (ys : list A),
      tval X = Mat n rows ->
      tval Y = Vec ys ->
      vars rt !! vid W = Some (Mat 1 wrows) ->
      length wrows = n ->
      length rows <> length ys -> length rows <> 1 -> length ys <> 1 ->
      Bonus.loss_mse X Y W rt
      = Err (IncompatibleShapes "Sub" [length rows] [length ys])
      /\ Bonus.compute_gradients X Y W rt
         = Err (IncompatibleShapes "Sub" [length rows] [length ys]))
  /\ (forall (X Y : ETensor A) (w0 w1 : TFVariable) (rt : Runtime A)
             (xs ys : list A) (a b : A),
      tval X = Vec xs ->
      tval Y = Vec ys ->
      vars rt !! vid w0 = Some (Scal a) ->
      vars rt !! vid w1 = Some (Scal b) ->
      length xs <> length ys -> length xs <> 1 -> length ys <> 1 ->
      Lab.loss_mse X Y w0 w1 rt
      = Err (IncompatibleShapes "Sub" [length xs] [length ys])).
Proof.
  split.
  - intros X Y W rt n rows wrows ys HX HY HW Hn Hne Hr Hy.
    assert (Hloss : forall rt0 : Runtime A, vars rt0 = vars rt ->
              Bonus.loss_mse X Y W rt0
              = Err (IncompatibleShapes "Sub" [length rows] [length ys])).
    { intros rt0 Hv. unfold Bonus.loss_mse, bind.
      destruct (predict_run X W rt0 n rows wrows HX
                  ltac:(rewrite Hv; exact HW) Hn) as (rt1 & -> & _).
      unfold tf.sub, bind, lift. cbn [tval]. rewrite HY.
      rewrite k_binop_vec_mismatch
        by (rewrite ?length_predictions; assumption).
      rewrite length_predictions. reflexivity. }
    split; [apply Hloss; reflexivity|].
    unfold Bonus.compute_gradients, bind, tf.GradientTape.
    rewrite Hloss by reflexivity. reflexivity.
  - intros X Y w0 w1 rt xs ys a b HX HY H0 H1 Hne Hx Hy.
    unfold Lab.loss_mse, bind, tf.read_value. rewrite H0, H1.
    unfold tf.mul, tf.add, tf.sub, bind, lift, emit.
    cbn [tval tid next_id vars tapes]. rewrite HX, k_binop_scalar_vec.
    cbn [tval tid next_id vars tapes]. rewrite k_binop_vec_scalar.
    cbn [tval tid next_id vars tapes]. rewrite HY.
    rewrite k_binop_vec_mismatch by (rewrite ?length_map; assumption).
    rewrite !length_map. reflexivity.
Qed.

(** X6.  A single target is not refused: it is compared with every
    prediction, and the loss is the mean over the samples of
    [(prediction - y)^2] for that one [y], in the loss evaluator and in the
    lab's. *)
Theorem single_target_is_broadcast :
  (forall (X Y : ETensor A) (W : TFVariable) (rt : Runtime A) (n : nat)
          (rows wrows : list (list A)) (y : A),
      tval X = Mat n rows ->
      tval Y = Vec [y] ->
      vars rt !! vid W = Some (Mat 1 wrows) ->
      length wrows = n ->
      exists l rt',
        Bonus.loss_mse X Y W rt = Ok (l, rt')
        /\ tval l
           = Scal (mean (map (fun r => spow (ssub (dot r (column 0 wrows)) y) 2)
                             rows)))
  /\ (forall (X Y : ETensor A) (w0 w1 : TFVariable) (rt : Runtime A)
             (xs : list A) (y a b : A),
      tval X = Vec xs ->
      tval Y = Vec [y] ->
      vars rt !! vid w0 = Some (Scal a) ->
      vars rt !! vid w1 = Some (Scal b) ->
      exists l rt',
        Lab.loss_mse X Y w0 w1 rt = Ok (l, rt')
        /\ tval l
           = Scal (mean (map (fun x => spow (ssub (sadd (smul a x) b) y) 2)
                             xs))).
Proof.
  split.
  - intros X Y W rt n rows wrows y HX HY HW Hn.
    unfold Bonus.loss_mse, bind.
    destruct (predict_run X W rt n rows wrows HX HW Hn) as (rt1 & -> & _).
    unfold tf.sub, bind, lift. cbn [tval]. rewrite HY.
    rewrite k_binop_vec_single.
    unfold tf.pow, tf.reduce_mean, emit. cbn [tval tid next_id vars tapes].
    do 2 eexists. split; [reflexivity|]. cbn [tval].
    unfold k_reduce_mean, k_pow, tmap, flatten, size, mean, predictions.
    rewrite !map_map, !length_map. reflexivity.
  - intros X Y w0 w1 rt xs y a b HX HY H0 H1.
    unfold Lab.loss_mse, bind, tf.read_value. rewrite H0, H1.
    unfold tf.mul, tf.add, tf.sub, bind, lift, emit.
    cbn [tval tid next_id vars tapes]. rewrite HX, k_binop_scalar_vec.
    cbn [tval tid next_id vars tapes]. rewrite k_binop_vec_scalar.
    cbn [tval tid next_id vars tapes]. rewrite HY.
    rewrite k_binop_vec_single.
    unfold tf.pow, tf.reduce_mean, emit. cbn [tval tid next_id vars tapes].
    do 2 eexists. split; [reflexivity|]. cbn [tval].
    unfold k_reduce_mean, k_pow, tmap, flatten, size, mean.
    rewrite !map_map, !length_map. reflexivity.
Qed.

(** X7.  Targets given as a [k x 1] column are not refused either: the
    subtraction stretches the [m] predictions against the column into a
    [k x m] matrix, and the loss is the mean over all [k * m] pairs of
    [(prediction_j - y_i)^2], not over the samples. *)
Theorem column_targets_are_compared_pairwise (X Y : ETensor A)
  (W : TFVariable) (rt : Runtime A) (n : nat)
  (rows wrows yrows : list (list A)) :
  tval X = Mat n rows ->
  tval Y = Mat 1 yrows ->
  vars rt !! vid W = Some (Mat 1 wrows) ->
  length wrows = n ->
  exists l rt',
    Bonus.loss_mse X Y W rt = Ok (l, rt')
    /\ tval l
       = Scal (sdiv
                 (ssum (concat
                    (map (fun y =>
                            map (fun r => spow (ssub (dot r (column 0 wrows)) y) 2)
                                rows)
                         (column 0 yrows))))
                 (sofnat (length yrows * length rows))).
Proof.
  intros HX HY HW Hn.
  unfold Bonus.loss_mse, bind.
  destruct (predict_run X W rt n rows wrows HX HW Hn) as (rt1 & -> & _).
  unfold tf.sub, bind, lift. cbn [tval]. rewrite HY.
  rewrite k_binop_vec_column.
  unfold tf.pow, tf.reduce_mean, emit. cbn [tval tid next_id vars tapes].
  do 2 eexists. split; [reflexivity|]. cbn [tval].
  unfold k_reduce_mean, k_pow, tmap, flatten, size, predictions, column.
  rewrite !map_map, !length_map. do 4 f_equal.
  apply map_ext. intros yr. rewrite !map_map. reflexivity.
Qed.

End BroadcastFacts.

(** ** The gradient computer and the training cell as a whole *)

Section TrainingCellFacts.
Context {A : Type} `{SA : Scalar A} `{EA : Elementary A}.

(** X8.  The gradient computer returns a gradient of the shape of [W],
    changes no variable, and leaves as many active tapes as it found: its
    own tape is gone when it returns. *)
Theorem compute_gradients_keeps_state (X Y : ETensor A) (W : TFVariable)
  (rt : Runtime A) (n : nat) (rows wrows : list (list A)) (ys : list A) :
  tval X = Mat n rows ->
  tval Y = Vec ys ->
  length rows = length ys ->
  vars rt !! vid W = Some (Mat 1 wrows) ->
  length wrows = n ->
  tid X < next_id rt -> tid Y < next_id rt -> vid W < next_id rt ->
  tid X <> vid W -> tid Y <> vid W ->
  exists g rt',
    Bonus.compute_gradients X Y W rt = Ok (Some g, rt')
    /\ shape_of (tval g) = shape_of (Mat 1 wrows)
    /\ vars rt' = vars rt
    /\ length (tapes rt') = length (tapes rt).
Proof.
  intros HX HY Hm HW Hn Hi1 Hi2 Hi3 Hn1 Hn2.
  rewrite (grad_run X Y W rt n rows wrows ys
             HX HY Hm HW Hn Hi1 Hi2 Hi3 Hn1 Hn2).
  do 2 eexists. split; [reflexivity|]. cbn [tval vars tapes].
  destruct (ad_gradient_rows_wf n rows (weights wrows) ys)
    as (grows & -> & Hg & _).
  split; [cbn [shape_of]; congruence|].
  split; [reflexivity|]. apply length_map.
Qed.

Lemma filter_hundreds_nat (N : nat) :
  List.filter (fun s => (s mod 100 =? 0)%Z) (py_range 1 (Z.of_nat N + 1))
  = map (fun k => (100 * (Z.of_nat k + 1))%Z)
        (seq 0 (Z.to_nat (Z.of_nat N / 100))).
Proof.
  induction N as [|N IH].
  - reflexivity.
  - rewrite Nat2Z.inj_succ. unfold Z.succ.
    rewrite py_range_snoc by lia.
    rewrite List.filter_app, IH. cbn [List.filter].
    destruct (Z.eqb_spec ((Z.of_nat N + 1) mod 100) 0) as [H0|H0].
    + replace (Z.to_nat ((Z.of_nat N + 1) / 100))
        with (S (Z.to_nat (Z.of_nat N / 100)))
        by (pose proof (Z.div_mod (Z.of_nat N + 1) 100 ltac:(lia));
            pose proof (Z.div_mod (Z.of_nat N) 100 ltac:(lia));
            pose proof (Z.mod_pos_bound (Z.of_nat N) 100 ltac:(lia));
            pose proof (Z.div_pos (Z.of_nat N) 100 ltac:(lia) ltac:(lia));
            lia).
      rewrite seq_S, map_app. cbn [map Nat.add]. f_equal. f_equal.
      pose proof (Z.div_mod (Z.of_nat N + 1) 100 ltac:(lia)).
      pose proof (Z.div_mod (Z.of_nat N) 100 ltac:(lia)).
      pose proof (Z.mod_pos_bound (Z.of_nat N) 100 ltac:(lia)).
      pose proof (Z.div_pos (Z.of_nat N) 100 ltac:(lia) ltac:(lia)).
      lia.
    + rewrite app_nil_r.
      replace ((Z.of_nat N + 1) / 100)%Z with (Z.of_nat N / 100)%Z; [reflexivity|].
      pose proof (Z.div_mod (Z.of_nat N + 1) 100 ltac:(lia)).
      pose proof (Z.div_mod (Z.of_nat N) 100 ltac:(lia)).
      pose proof (Z.mod_pos_bound (Z.of_nat N) 100 ltac:(lia)).
      pose proof (Z.mod_pos_bound (Z.of_nat N + 1) 100 ltac:(lia)).
      lia.
Qed.

(** The steps of [range(1, STEPS + 1)] that the loop reports. *)
Lemma filter_hundreds (STEPS : Z) :
  List.filter (fun s => (s mod 100 =? 0)%Z) (py_range 1 (STEPS + 1))
  = map (fun k => (100 * (Z.of_nat k + 1))%Z)
        (seq 0 (Z.to_nat (STEPS / 100))).
Proof.
  destruct (Z.le_gt_cases 0 STEPS) as [Hpos|Hneg].
  - rewrite <- (Z2Nat.id STEPS Hpos). apply filter_hundreds_nat.
  - unfold py_range.
    replace (Z.to_nat (STEPS + 1 - 1)) with 0 by lia.
    replace (Z.to_nat (STEPS / 100)) with 0; [reflexivity|].
    pose proof (Z.div_lt_upper_bound STEPS 100 0 ltac:(lia) ltac:(lia)).
    lia.
Qed.

Lemma reported_losses_snoc (n : nat) (rows : list (list A)) (ys : list A)
  (lr : A) (items : list Z) (s : Z) (Wv : Tensor A) :
  reported_losses n rows ys lr (items ++ [s]) Wv
  = reported_losses n rows ys lr items Wv
    ++ (if (s mod 100 =? 0)%Z
        then [Scal (mse rows
                (weights_of (Nat.iter (S (length items)) (gd_map n rows ys lr) Wv))
                ys)]
        else []).
Proof.
  revert Wv. induction items as [|i items IH]; intros Wv.
  - cbn [app reported_losses length Nat.iter nat_rect]. rewrite app_nil_r.
    reflexivity.
  - cbn [app reported_losses length]. rewrite IH, <- app_assoc.
    rewrite (Nat.iter_succ_r (S (length items))). reflexivity.
Qed.

(** X9.  The training cell reports at the steps 100, 200, ... up to
    [STEPS], and at no other: [STEPS / 100] reports (none when [STEPS] is
    below 100), each with one loss. *)
Theorem train_reports_every_hundredth_step (X Y : ETensor A) (STEPS : Z)
  (LEARNING_RATE : A) (rt : Runtime A) (xs ys : list A) :
  tval X = Vec xs ->
  tval Y = Vec ys ->
  length xs = length ys ->
  tid X < next_id rt ->
  tid Y < next_id rt ->
  exists W rep mse_out rt',
    Bonus.train X Y STEPS LEARNING_RATE rt = Ok ((W, rep, mse_out), rt')
    /\ Bonus.steps rep
       = map (fun k => (100 * (Z.of_nat k + 1))%Z)
             (seq 0 (Z.to_nat (STEPS / 100)))
    /\ length (Bonus.losses rep) = Z.to_nat (STEPS / 100).
Proof.
  intros HX HY Hm HiX HiY.
  destruct (train_run X Y STEPS LEARNING_RATE rt xs ys HX HY Hm HiX HiY)
    as (W & rep & mse_out & rt' & Hrun & _ & _ & Hsteps & Hlosses & _).
  exists W, rep, mse_out, rt'. split; [exact Hrun|].
  rewrite filter_hundreds in Hsteps. split; [exact Hsteps|].
  rewrite <- (length_map tval), Hlosses, length_reported_losses,
    filter_hundreds, length_map, length_seq.
  reflexivity.
Qed.

(** X10.  When [STEPS] is a positive multiple of 100, the last report is
    made at step [STEPS] and the MSE printed after the loop is the loss of
    that last report. *)
Theorem final_mse_is_last_reported_loss (X Y : ETensor A) (STEPS : Z)
  (LEARNING_RATE : A) (rt : Runtime A) (xs ys : list A) :
  tval X = Vec xs ->
  tval Y = Vec ys ->
  length xs = length ys ->
  tid X < next_id rt ->
  tid Y < next_id rt ->
  (0 < STEPS)%Z ->
  (STEPS mod 100 = 0)%Z ->
  exists W rep mse_out rt' earlier_steps earlier_losses last_loss,
    Bonus.train X Y STEPS LEARNING_RATE rt = Ok ((W, rep, mse_out), rt')
    /\ Bonus.steps rep = earlier_steps ++ [STEPS]
    /\ Bonus.losses rep = earlier_losses ++ [last_loss]
    /\ tval mse_out = tval last_loss.
Proof.
  intros HX HY Hm HiX HiY Hpos Hmod.
  destruct (train_run X Y STEPS LEARNING_RATE rt xs ys HX HY Hm HiX HiY)
    as (W & rep & mse_out & rt' & Hrun & _ & _ & Hsteps & Hlosses & Hmse).
  replace (STEPS + 1)%Z with (STEPS - 1 + 1 + 1)%Z in Hsteps, Hlosses by lia.
  rewrite (py_range_snoc 1 (STEPS - 1 + 1)) in Hsteps, Hlosses by lia.
  rewrite List.filter_app in Hsteps. cbn [List.filter] in Hsteps.
  rewrite reported_losses_snoc, length_py_range in Hlosses.
  replace (STEPS - 1 + 1)%Z with STEPS in Hsteps, Hlosses by lia.
  rewrite Hmod in Hsteps, Hlosses.
  change ((0 =? 0)%Z) with true in Hsteps, Hlosses.
  replace (S (Z.to_nat (STEPS - 1))) with (Z.to_nat STEPS) in Hlosses by lia.
  apply map_eq_app in Hlosses.
  destruct Hlosses as (earlier & lst & Hrep & _ & Hlast).
  destruct lst as [|l [|? ?]]; try discriminate.
  injection Hlast as Hl.
  exists W, rep, mse_out, rt'. do 3 eexists.
  split; [exact Hrun|]. split; [exact Hsteps|]. split; [exact Hrep|].
  rewrite Hl. exact Hmse.
Qed.

(** X11.  With [STEPS] zero or negative the loop body never runs: [W]
    keeps its initial zeros, nothing is reported, and the MSE printed is
    the loss at the zero weights. *)
Theorem train_without_steps (X Y : ETensor A) (STEPS : Z)
  (LEARNING_RATE : A) (rt : Runtime A) (xs ys : list A) :
  tval X = Vec xs ->
  tval Y = Vec ys ->
  length xs = length ys ->
  tid X < next_id rt ->
  tid Y < next_id rt ->
  (STEPS <= 0)%Z ->
  exists W rep mse_out rt',
    Bonus.train X Y STEPS LEARNING_RATE rt = Ok ((W, rep, mse_out), rt')
    /\ vars rt' !! vid W = Some (zeros 5 1)
    /\ Bonus.steps rep = []
    /\ Bonus.losses rep = []
    /\ tval mse_out
       = Scal (spec_loss (combine (feature_rows xs) ys) (replicate 5 szero)).
Proof.
  intros HX HY Hm HiX HiY Hle.
  destruct (train_run X Y STEPS LEARNING_RATE rt xs ys HX HY Hm HiX HiY)
    as (W & rep & mse_out & rt' & Hrun & Hfinal & _ & Hsteps & Hlosses & Hmse).
  assert (Hr : py_range 1 (STEPS + 1) = []).
  { unfold py_range. replace (Z.to_nat (STEPS + 1 - 1)) with 0 by lia.
    reflexivity. }
  replace (Z.to_nat STEPS) with 0 in Hfinal, Hmse by lia.
  rewrite Hr in Hsteps, Hlosses.
  cbn [Nat.iter nat_rect] in Hfinal, Hmse.
  cbn [List.filter] in Hsteps. cbn [reported_losses] in Hlosses.
  exists W, rep, mse_out, rt'. split; [exact Hrun|].
  split; [exact Hfinal|]. split; [exact Hsteps|].
  split; [destruct (Bonus.losses rep); [reflexivity|discriminate]|].
  rewrite Hmse, mse_spec_loss by (rewrite length_feature_rows; exact Hm).
  reflexivity.
Qed.

(** X12.  The training cell creates [W] as a new variable and changes no
    other: every variable of the runtime it started in keeps its value. *)
Theorem train_changes_only_its_weights (X Y : ETensor A) (STEPS : Z)
  (LEARNING_RATE : A) (rt : Runtime A) (xs ys : list A) :
  tval X = Vec xs ->
  tval Y = Vec ys ->
  length xs = length ys ->
  tid X < next_id rt ->
  tid Y < next_id rt ->
  exists W rep mse_out rt',
    Bonus.train X Y STEPS LEARNING_RATE rt = Ok ((W, rep, mse_out), rt')
    /\ next_id rt <= vid W
    /\ forall k, k <> vid W -> vars rt' !! k = vars rt !! k.
Proof.
  intros HX HY Hm HiX HiY.
  destruct (train_run X Y STEPS LEARNING_RATE rt xs ys HX HY Hm HiX HiY)
    as (W & rep & mse_out & rt' & Hrun & _ & Hframe & _).
  exists W, rep, mse_out, rt'. split; [exact Hrun|]. split; [|exact Hframe].
  unfold Bonus.train, bind in Hrun.
  destruct (make_features_run X rt xs HX) as (rt1 & Hmf & Hid1 & _).
  rewrite Hmf in Hrun.
  unfold Bonus.init_weights, bind, tf.shape_index in Hrun.
  cbn [tval shape_of nth_error] in Hrun.
  unfold ret, tf.mk_Variable in Hrun.
  destruct (for_each _ _ _ _) as [[rep0 rt2]|]; [|discriminate].
  destruct (Bonus.loss_mse _ _ _ _) as [[m0 rt3]|]; [|discriminate].
  injection Hrun as <- _ _ _. cbn [vid]. lia.
Qed.

End TrainingCellFacts.

(** ** The gradient as the derivative of the loss *)

Section GradientFacts.
Local Open Scope R_scope.

(** At weights that minimize the loss the normal equations hold:
    [X^T (X w - y) = 0]. *)
Lemma minimizer_normal_equations (n : nat) (rows wrows : list (list R))
  (ys : list R) :
  Forall (fun r => length r = n) rows ->
  length rows = length ys ->
  is_column n (Mat 1 wrows) ->
  (forall Wv, is_column n Wv ->
              loss_at rows ys (Mat 1 wrows) <= loss_at rows ys Wv) ->
  Forall (fun x => x = 0) (xt_times n rows (residuals rows (weights wrows) ys)).
Proof.
  intros Hwf Hm Hcol Hmin.
  destruct (Nat.eq_dec (length rows) 0%nat) as [H0|H0].
  - destruct rows; [|discriminate]. unfold xt_times, transpose.
    apply List.Forall_forall. intros x Hx. apply in_map_iff in Hx.
    destruct Hx as (c & <- & Hc). apply in_map_iff in Hc.
    destruct Hc as (j & <- & _). reflexivity.
  - apply rdot_self_zero.
    pose proof (safe_rate_pos rows) as Ht.
    pose proof (loss_descent n rows ys (safe_rate rows) (Mat 1 wrows)
                  Hwf Hm Hcol ltac:(lia) ltac:(lra) ltac:(lra)) as Hd.
    cbv zeta in Hd. cbn [weights_of] in Hd.
    pose proof (Hmin _ (gd_map_column n rows ys (safe_rate rows) _ Hcol))
      as Hle.
    pose proof (rdot_self_nonneg
                  (xt_times n rows (residuals rows (weights wrows) ys)))
      as Hv.
    assert (HM : 0 < INR (length rows)) by (apply lt_0_INR; lia).
    set (V := dot _ _) in *.
    assert (Hc : 0 < 2 * safe_rate rows / (INR (length rows) * INR (length rows))).
    { apply Rdiv_lt_0_compat; nra. }
    nra.
Qed.

Lemma zip_minus_back (w v : list R) :
  length w = length v ->
  zip_with Rminus w (map (fun x => 1 * x) (zip_with Rminus w v)) = v.
Proof.
  revert v. induction w as [|a w IH]; intros [|b v] Hl; try discriminate;
    [reflexivity|].
  cbn [zip_with map]. f_equal; [ring|]. apply IH. cbn in Hl. lia.
Qed.

Lemma rdot_sub_swap (u w v : list R) :
  length w = length v ->
  rdot u (zip_with Rminus w v) = - rdot u (zip_with Rminus v w).
Proof.
  intros Hl. rewrite !rdot_sub_r by congruence. ring.
Qed.

(** The squared error at [v], expanded around [w]. *)
Lemma sq_error_expand (n : nat) (rows : list (list R)) (w v ys : list R) :
  Forall (fun r => length r = n) rows ->
  length rows = length ys ->
  length w = n -> length v = n ->
  let d := zip_with Rminus v w in
  sq_error rows v ys
  = sq_error rows w ys
    + 2 * rdot (xt_times n rows (residuals rows w ys)) d
    + rsum (map (fun r => rdot r d * rdot r d) rows).
Proof.
  intros Hwf Hm Hw Hv d.
  set (g := zip_with Rminus w v).
  assert (Hg : length w = length g).
  { unfold g. rewrite length_zip_with. lia. }
  unfold sq_error at 1.
  rewrite <- (zip_minus_back w v) at 1 by congruence. fold g.
  rewrite (residuals_update rows w g ys 1 Hg Hm).
  rewrite rsum_sq_sub
    by (rewrite length_map, length_residuals by exact Hm; reflexivity).
  fold (sq_error rows w ys).
  rewrite (rdot_exchange n rows (residuals rows w ys) g Hwf)
    by (apply length_residuals; exact Hm).
  fold (xt_times n rows (residuals rows w ys)).
  rewrite (rdot_comm g).
  unfold g at 1. rewrite (rdot_sub_swap _ w v) by congruence. fold d.
  rewrite map_map.
  replace (map (fun r => rdot r g * rdot r g) rows)
    with (map (fun r => rdot r d * rdot r d) rows).
  2:{ apply map_ext. intros r. unfold g.
      rewrite (rdot_sub_swap r w v) by congruence. fold d. ring. }
  ring.
Qed.

Lemma weights_closed_form (n : nat) (rows : list (list R)) (w ys : list R) :
  weights_of (closed_form_gradient n rows w ys) = grad_vec n rows w ys.
Proof.
  unfold closed_form_gradient, grad_vec, weights_of, weights.
  apply (column_singletons
           (fun col => 2 / INR (length rows)
                     * dot col (zip_with Rminus (map (fun r => dot r w) rows) ys))).
Qed.

(** X13.  What the gradient computer returns is the derivative of the loss
    evaluator: the loss at any other weights [v] is the loss at [w], plus
    the product of the gradient with [v - w], plus the mean over the
    samples of [(x . (v - w))^2].  So the loss lies above each of its
    tangents. *)
Theorem gradient_is_derivative_of_loss (X Y : ETensor R) (W : TFVariable)
  (rt : Runtime R) (n : nat) (rows wrows : list (list R)) (ys : list R) :
  tval X = Mat n rows ->
  tval Y = Vec ys ->
  wf (Mat n rows) ->
  length rows = length ys ->
  (0 < length rows)%nat ->
  vars rt !! vid W = Some (Mat 1 wrows) ->
  length wrows = n ->
  (tid X < next_id rt)%nat -> (tid Y < next_id rt)%nat ->
  (vid W < next_id rt)%nat ->
  tid X <> vid W -> tid Y <> vid W ->
  exists g rt' l rt'',
    Bonus.compute_gradients X Y W rt = Ok (Some g, rt')
    /\ Bonus.loss_mse X Y W rt = Ok (l, rt'')
    /\ tval l = Scal (loss_at rows ys (Mat 1 wrows))
    /\ forall Wv, is_column n Wv ->
         let d := zip_with Rminus (weights_of Wv) (weights wrows) in
         loss_at rows ys Wv
         = loss_at rows ys (Mat 1 wrows)
           + rdot (weights_of (tval g)) d
           + mean (map (fun r => rdot r d * rdot r d) rows)
         /\ loss_at rows ys (Mat 1 wrows) + rdot (weights_of (tval g)) d
            <= loss_at rows ys Wv.
Proof.
  intros HX HY Hwf Hm Hpos HW Hn HiX HiY HiW HXW HYW.
  rewrite (grad_run X Y W rt n rows wrows ys
             HX HY Hm HW Hn HiX HiY HiW HXW HYW).
  rewrite (loss_mse_run X Y W rt n rows wrows ys HX HY Hm HW Hn).
  do 4 eexists. split; [reflexivity|]. split; [reflexivity|].
  split; [reflexivity|]. cbn [tval].
  intros Wv Hcol.
  set (d := zip_with Rminus (weights_of Wv) (weights wrows)).
  rewrite ad_gradient_closed_form, weights_closed_form, grad_vec_xt
    by exact Hm.
  assert (Hw : length (weights wrows) = n)
    by (unfold weights, column; rewrite length_map; exact Hn).
  pose proof (weights_of_column_length n Wv Hcol) as Hv.
  cbn [wf] in Hwf.
  pose proof (sq_error_expand n rows (weights wrows) (weights_of Wv) ys
                Hwf Hm Hw Hv) as Hexp.
  cbv zeta in Hexp. fold d in Hexp.
  unfold loss_at. cbn [weights_of].
  rewrite !mse_sq_error by exact Hm. rewrite Hexp.
  rewrite (rdot_comm (map _ _) d), rdot_scale_r, (rdot_comm d).
  unfold mean. real_ops. rewrite length_map.
  assert (HM : 0 < INR (length rows)) by (apply lt_0_INR; lia).
  set (E := sq_error rows (weights wrows) ys).
  set (V := rdot (xt_times n rows (residuals rows (weights wrows) ys)) d).
  pose proof (rsum_nonneg_sq (map (fun r => rdot r d) rows)) as HQ.
  rewrite map_map in HQ.
  set (Q := ssum (map (fun r => rdot r d * rdot r d) rows)) in *.
  split; [field; lra|].
  assert (HQM : 0 <= Q / INR (length rows)).
  { apply Rmult_le_pos; [exact HQ|]. apply Rlt_le, Rinv_0_lt_compat, HM. }
  assert (Heq : (E + 2 * V + Q) / INR (length rows)
                = E / INR (length rows) + 2 / INR (length rows) * V
                  + Q / INR (length rows)) by (field; lra).
  rewrite Heq. lra.
Qed.

End GradientFacts.

(** ** Minimizers of the loss and the training loop *)

Section MinimumFacts.
Local Open Scope R_scope.

Lemma map_eq_replicate {B C} (f : B -> C) (l : list B) (k : nat) (y : C) :
  map f l = replicate k y -> Forall (fun x => f x = y) l.
Proof.
  revert k. induction l as [|x l IH]; intros [|k] H; try discriminate;
    constructor.
  - cbn in H. congruence.
  - cbn in H. injection H as _ H. exact (IH k H).
Qed.

(** X14.  A zero gradient means a global minimum: when the gradient
    computer returns the zero tensor, no weights have a smaller loss. *)
Theorem zero_gradient_is_global_minimum (X Y : ETensor R) (W : TFVariable)
  (rt : Runtime R) (n : nat) (rows wrows : list (list R)) (ys : list R) :
  tval X = Mat n rows ->
  tval Y = Vec ys ->
  wf (Mat n rows) ->
  length rows = length ys ->
  (0 < length rows)%nat ->
  vars rt !! vid W = Some (Mat 1 wrows) ->
  length wrows = n ->
  (tid X < next_id rt)%nat -> (tid Y < next_id rt)%nat ->
  (vid W < next_id rt)%nat ->
  tid X <> vid W -> tid Y <> vid W ->
  exists g rt',
    Bonus.compute_gradients X Y W rt = Ok (Some g, rt')
    /\ (tval g = zeros n 1 ->
        forall Wv, is_column n Wv ->
                   loss_at rows ys (Mat 1 wrows) <= loss_at rows ys Wv).
Proof.
  intros HX HY Hwf Hm Hpos HW Hn HiX HiY HiW HXW HYW.
  rewrite (grad_run X Y W rt n rows wrows ys
             HX HY Hm HW Hn HiX HiY HiW HXW HYW).
  do 2 eexists. split; [reflexivity|]. cbn [tval].
  rewrite ad_gradient_closed_form by exact Hm.
  intros Hzero Wv Hcol.
  assert (HM : 0 < INR (length rows)) by (apply lt_0_INR; lia).
  assert (Hne : Forall (fun x => x = 0)
                  (xt_times n rows (residuals rows (weights wrows) ys))).
  { unfold closed_form_gradient, zeros in Hzero.
    injection Hzero as Hzero. apply map_eq_replicate in Hzero.
    unfold xt_times. apply Forall_map.
    eapply List.Forall_impl; [|exact Hzero].
    intros c Hc. cbn beta in Hc. injection Hc as Hc.
    fold (predictions rows (weights wrows)) in Hc.
    fold (residuals rows (weights wrows) ys) in Hc.
    apply Rmult_integral in Hc. destruct Hc as [Hc|Hc]; [|exact Hc].
    exfalso. unfold Rdiv in Hc. apply Rmult_integral in Hc.
    destruct Hc as [Hc|Hc]; [lra|].
    apply Rinv_neq_0_compat in Hc; [exact Hc|lra]. }
  cbn [wf] in Hwf.
  assert (Hw : length (weights wrows) = n)
    by (unfold weights, column; rewrite length_map; exact Hn).
  pose proof (weights_of_column_length n Wv Hcol) as Hv.
  pose proof (normal_equations_minimize n rows (weights wrows)
                (weights_of Wv) ys Hwf Hm Hw Hv Hne) as Hle.
  unfold loss_at. cbn [weights_of].
  rewrite !mse_sq_error by exact Hm.
  apply Rmult_le_compat_r; [|exact Hle].
  apply Rlt_le, Rinv_0_lt_compat, HM.
Qed.

Lemma zip_minus_zero_rows (wrows : list (list R)) (n : nat) (lr : R) :
  length wrows = n ->
  Forall (fun r => length r = 1%nat) wrows ->
  zip_with (zip_with Rminus) wrows
           (map (map (fun g => g * lr)) (replicate n (replicate 1 0)))
  = wrows.
Proof.
  revert n. induction wrows as [|r wrows IH]; intros [|n] Hn Hwf;
    try discriminate; [reflexivity|].
  inversion Hwf as [|? ? Hr Hwf']; subst.
  destruct r as [|x [|? ?]]; try discriminate.
  cbn [replicate map zip_with]. f_equal.
  - f_equal. ring.
  - apply IH; [cbn in Hn; lia|exact Hwf'].
Qed.

(** Where the normal equations hold, an update changes nothing. *)
Lemma gd_map_fixed (n : nat) (rows wrows : list (list R)) (ys : list R)
  (lr : R) :
  length rows = length ys ->
  is_column n (Mat 1 wrows) ->
  Forall (fun x => x = 0) (xt_times n rows (residuals rows (weights wrows) ys)) ->
  gd_map n rows ys lr (Mat 1 wrows) = Mat 1 wrows.
Proof.
  intros Hm Hcol Hne. unfold gd_map. cbn [weights_of].
  rewrite ad_gradient_closed_form by exact Hm.
  rewrite (closed_form_gradient_zero n rows (weights wrows) ys Hne).
  destruct Hcol as (wrows' & [= <-] & Hn & Hwf).
  unfold zeros. cbn [tmap k_zip]. real_ops.
  rewrite (zip_minus_zero_rows wrows n lr Hn Hwf). reflexivity.
Qed.

Lemma iter_fixed {B} (f : B -> B) (x : B) (k : nat) :
  f x = x -> Nat.iter k f x = x.
Proof.
  intros Hf. induction k as [|k IH]; [reflexivity|].
  cbn [Nat.iter nat_rect]. fold (Nat.iter k f x). rewrite IH. exact Hf.
Qed.

(** X15.  Weights that minimize the loss are a fixed point of the training
    loop: whatever the learning rate and the number of steps, the loop
    runs to its end and leaves [W] as it was. *)
Theorem training_stays_at_a_minimizer (Xf Y : ETensor R) (W : TFVariable)
  (rt : Runtime R) (n : nat) (rows wrows : list (list R)) (ys : list R)
  (STEPS : Z) (LEARNING_RATE : R) (rep : Bonus.Report) :
  tval Xf = Mat n rows ->
  tval Y = Vec ys ->
  wf (Mat n rows) ->
  length rows = length ys ->
  vars rt !! vid W = Some (Mat 1 wrows) ->
  is_column n (Mat 1 wrows) ->
  (tid Xf < next_id rt)%nat -> (tid Y < next_id rt)%nat ->
  (vid W < next_id rt)%nat ->
  tid Xf <> vid W -> tid Y <> vid W ->
  (forall Wv, is_column n Wv ->
              loss_at rows ys (Mat 1 wrows) <= loss_at rows ys Wv) ->
  exists rep' rt',
    for_each (py_range 1 (STEPS + 1))
             (Bonus.train_step Xf Y W LEARNING_RATE) rep rt
    = Ok (rep', rt')
    /\ vars rt' !! vid W = Some (Mat 1 wrows).
Proof.
  intros HX HY Hwf Hm HW Hcol HiX HiY HiW HXW HYW Hmin.
  cbn [wf] in Hwf.
  pose proof (minimizer_normal_equations n rows wrows ys Hwf Hm Hcol Hmin)
    as Hne.
  destruct (train_loop_run Xf Y W LEARNING_RATE n rows ys
              (py_range 1 (STEPS + 1))
              HX HY Hm HXW HYW rep rt (Mat 1 wrows) HW Hcol HiX HiY HiW)
    as (rep' & rt' & Hrun & Hvars & _).
  exists rep', rt'. split; [exact Hrun|].
  rewrite Hvars. f_equal. apply iter_fixed.
  apply gd_map_fixed; assumption.
Qed.

(** X16.  Every single update lowers the loss when the learning rate is at
    most [m / (2 |X|^2 + 1)], for [m] samples and the sum [|X|^2] of the
    squares of the features: the loss falls by at least
    [2 * rate / m^2] times the squared length of [X^T (X w - y)]. *)
Theorem every_update_lowers_the_loss (Xf Y : ETensor R) (W : TFVariable)
  (rt : Runtime R) (n : nat) (rows : list (list R)) (ys : list R)
  (Wv : Tensor R) (LEARNING_RATE : R) (step : Z) (rep : Bonus.Report) :
  tval Xf = Mat n rows ->
  tval Y = Vec ys ->
  wf (Mat n rows) ->
  length rows = length ys ->
  (0 < length rows)%nat ->
  vars rt !! vid W = Some Wv ->
  is_column n Wv ->
  (tid Xf < next_id rt)%nat -> (tid Y < next_id rt)%nat ->
  (vid W < next_id rt)%nat ->
  tid Xf <> vid W -> tid Y <> vid W ->
  0 <= LEARNING_RATE ->
  LEARNING_RATE * (2 * frobenius rows + 1) <= INR (length rows) ->
  exists rep' rt' Wv',
    Bonus.train_step Xf Y W LEARNING_RATE step rep rt = Ok (rep', rt')
    /\ vars rt' !! vid W = Some Wv'
    /\ let v := xt_times n rows (residuals rows (weights_of Wv) ys) in
       loss_at rows ys Wv'
       <= loss_at rows ys Wv
          - 2 * LEARNING_RATE / (INR (length rows) * INR (length rows))
            * rdot v v
       /\ loss_at rows ys Wv' <= loss_at rows ys Wv.
Proof.
  intros HX HY Hwf Hm Hpos HW Hcol HiX HiY HiW HXW HYW Hlr0 Hlr.
  destruct (train_step_run Xf Y W LEARNING_RATE step rep rt n rows ys Wv
              HX HY Hm HW Hcol HiX HiY HiW HXW HYW)
    as (rep' & rt' & Hrun & Hvars & _).
  exists rep', rt', (gd_map n rows ys LEARNING_RATE Wv).
  split; [exact Hrun|]. split; [rewrite Hvars; apply lookup_insert_eq|].
  cbn [wf] in Hwf.
  assert (Hsafe : LEARNING_RATE <= safe_rate rows).
  { unfold safe_rate. destruct (Nat.eqb_spec (length rows) 0); [lia|].
    pose proof (frobenius_nonneg rows) as HF.
    apply Rmult_le_reg_r with (r := 2 * frobenius rows + 1); [lra|].
    unfold Rdiv. rewrite Rmult_assoc, Rinv_l, Rmult_1_r by lra. exact Hlr. }
  pose proof (loss_descent n rows ys LEARNING_RATE Wv
                Hwf Hm Hcol Hpos Hlr0 Hsafe) as Hd.
  cbv zeta in Hd |- *. split; [exact Hd|].
  apply loss_nonincreasing_step; assumption.
Qed.

End MinimumFacts.

(** ** The baseline and the dataset cells *)

Section BaselineRun.
Context {A : Type} `{SA : Scalar A}.

Lemma zip_with_replicate_const {B C} (f : A -> B -> C) (c : A) (l : list B) :
  zip_with f (replicate (length l) c) l = map (f c) l.
Proof. induction l as [|x l IH]; [reflexivity|]. cbn. f_equal. exact IH. Qed.

(** The baseline on test inputs whose first dimension is the number of
    test targets. *)
Lemma baseline_run (Y X_test Y_test : ETensor A) (rt : Runtime A)
  (ts : list A) (s : shape) :
  tval Y_test = Vec ts ->
  shape_of (tval X_test) = length ts :: s ->
  exists l rt',
    Baseline.baseline Y X_test Y_test rt = Ok (l, rt')
    /\ tval l
       = Scal (mean (map (fun t => spow (ssub (Baseline.y_mean Y) t) 2) ts))
    /\ vars rt' = vars rt.
Proof.
  intros HY HX.
  unfold Baseline.baseline, Baseline.predict_mean, Baseline.len, bind.
  rewrite HX. unfold ret, Baseline.baseline_loss, bind, tf.constant, fresh,
    tf.sub, bind, lift, emit.
  cbn [tval tid next_id vars tapes]. rewrite HY.
  rewrite k_binop_same_length by apply length_replicate.
  rewrite zip_with_replicate_const.
  unfold tf.pow, tf.reduce_mean, emit. cbn [tval tid next_id vars tapes].
  do 2 eexists. split; [reflexivity|]. cbn [tval vars].
  unfold k_reduce_mean, k_pow, tmap, flatten, size, mean.
  rewrite !map_map, !length_map. auto.
Qed.

(** The loss of a list of predictions that are all [c]. *)
Lemma constant_loss_run (Y_test : ETensor A) (rt : Runtime A) (ts : list A)
  (c : A) :
  tval Y_test = Vec ts ->
  exists l rt',
    Baseline.baseline_loss (replicate (length ts) c) Y_test rt = Ok (l, rt')
    /\ tval l = Scal (mean (map (fun t => spow (ssub c t) 2) ts)).
Proof.
  intros HY.
  unfold Baseline.baseline_loss, bind, tf.constant, fresh,
    tf.sub, bind, lift, emit.
  cbn [tval tid next_id vars tapes]. rewrite HY.
  rewrite k_binop_same_length by apply length_replicate.
  rewrite zip_with_replicate_const.
  unfold tf.pow, tf.reduce_mean, emit. cbn [tval tid next_id vars tapes].
  do 2 eexists. split; [reflexivity|]. cbn [tval vars].
  unfold k_reduce_mean, k_pow, tmap, flatten, size, mean.
  rewrite !map_map, !length_map. auto.
Qed.

(** The two dataset cells. *)
Lemma range_dataset_run (lo hi : nat) (rt : Runtime A) :
  let xs := map sofnat (seq lo (hi - lo)) in
  exists X Y rt',
    Baseline.range_dataset lo hi rt = Ok ((X, Y), rt')
    /\ tval X = Vec xs
    /\ tval Y = Vec (map (fun x => sadd (smul (sofnat 2) x) (sofnat 10)) xs).
Proof.
  intros xs.
  unfold Baseline.range_dataset, bind, tf.constant, fresh, tf.mul, tf.add,
    bind, lift, emit, ret.
  cbn [tval tid next_id vars tapes].
  rewrite k_binop_scalar_vec. cbn [tval tid next_id vars tapes].
  rewrite k_binop_vec_scalar.
  do 3 eexists. split; [reflexivity|]. split; [reflexivity|].
  cbn [tval]. rewrite map_map. reflexivity.
Qed.

(** The first dataset cell is the range from 0 to 10. *)
Lemma dataset_is_range_dataset :
  Lab.dataset (A:=A) = Baseline.range_dataset 0 10.
Proof. reflexivity. Qed.

End BaselineRun.

Section BaselineReal.
Local Open Scope R_scope.

Lemma rsum_sq_const (c : R) (ts : list R) :
  rsum (map (fun t => spow (ssub c t) 2) ts)
  = INR (length ts) * c * c - 2 * c * rsum ts + rsum (map (fun t => t * t) ts).
Proof.
  induction ts as [|t ts IH].
  - unfold ssum. cbn. real_ops. ring.
  - cbn [map length]. rewrite !rsum_cons, IH, S_INR. cbn [spow]. real_ops.
    ring.
Qed.

(** The mean squared distance of the targets to a constant, around their
    own mean. *)
Lemma mean_sq_const (c : R) (ts : list R) :
  (0 < length ts)%nat ->
  mean (map (fun t => spow (ssub c t) 2) ts)
  = mean (map (fun t => spow (ssub (mean ts) t) 2) ts)
    + (c - mean ts) * (c - mean ts).
Proof.
  intros Hpos. unfold mean at 1 2. rewrite !length_map, !rsum_sq_const.
  unfold mean. real_ops.
  assert (HM : 0 < INR (length ts)) by (apply lt_0_INR; exact Hpos).
  field. lra.
Qed.

(** X18.  The baseline's loss is the variance of the test targets plus the
    square of the distance between the mean it predicts and the mean of
    the test targets. *)
Theorem baseline_loss_is_variance_plus_offset (Y X_test Y_test : ETensor R)
  (rt : Runtime R) (ts : list R) (s : shape) :
  tval Y_test = Vec ts ->
  shape_of (tval X_test) = length ts :: s ->
  (0 < length ts)%nat ->
  exists l rt' loss,
    Baseline.baseline Y X_test Y_test rt = Ok (l, rt')
    /\ tval l = Scal loss
    /\ loss
       = mean (map (fun t => (mean ts - t) * (mean ts - t)) ts)
         + (Baseline.y_mean Y - mean ts) * (Baseline.y_mean Y - mean ts).
Proof.
  intros HY HX Hpos.
  destruct (baseline_run Y X_test Y_test rt ts s HY HX)
    as (l & rt' & Hrun & Hl & _).
  exists l, rt'. eexists. split; [exact Hrun|]. split; [exact Hl|].
  rewrite (mean_sq_const _ ts Hpos). f_equal. f_equal.
  apply map_ext. intros t. cbn [spow]. real_ops. ring.
Qed.

(** X19.  On the targets whose mean it predicts, the baseline has the
    least loss that a constant prediction can have. *)
Theorem mean_is_the_best_constant_prediction (X Y : ETensor R)
  (rt rt0 : Runtime R) (ys : list R) (s : shape) (c : R) :
  tval Y = Vec ys ->
  shape_of (tval X) = length ys :: s ->
  (0 < length ys)%nat ->
  exists l rt' lc rt0' loss loss_c,
    Baseline.baseline Y X Y rt = Ok (l, rt')
    /\ Baseline.baseline_loss (replicate (length ys) c) Y rt0 = Ok (lc, rt0')
    /\ tval l = Scal loss
    /\ tval lc = Scal loss_c
    /\ loss <= loss_c.
Proof.
  intros HY HX Hpos.
  destruct (baseline_run Y X Y rt ys s HY HX) as (l & rt' & Hrun & Hl & _).
  destruct (constant_loss_run Y rt0 ys c HY) as (lc & rt0' & Hrunc & Hlc).
  exists l, rt', lc, rt0'. do 2 eexists.
  split; [exact Hrun|]. split; [exact Hrunc|].
  split; [exact Hl|]. split; [exact Hlc|].
  assert (Hmean : Baseline.y_mean Y = mean ys).
  { unfold Baseline.y_mean. rewrite HY. reflexivity. }
  rewrite Hmean, (mean_sq_const c ys Hpos).
  pose proof (Rle_0_sqr (c - mean ys)) as Hsq. unfold Rsqr in Hsq. lra.
Qed.

(** X20.  On a dataset that either dataset cell builds from a non-empty
    range, the weights [w0 = 2] and [w1 = 10] that generated the targets
    have loss zero. *)
Theorem generating_weights_have_zero_loss (lo hi : nat) (rt : Runtime R) :
  (lo < hi)%nat ->
  exists X Y rt1,
    Baseline.range_dataset lo hi rt = Ok ((X, Y), rt1)
    /\ shape_of (tval X) = [(hi - lo)%nat]
    /\ shape_of (tval Y) = [(hi - lo)%nat]
    /\ forall (w0 w1 : TFVariable) (rt2 : Runtime R),
         vars rt2 !! vid w0 = Some (Scal 2) ->
         vars rt2 !! vid w1 = Some (Scal 10) ->
         exists l rt3,
           Lab.loss_mse X Y w0 w1 rt2 = Ok (l, rt3) /\ tval l = Scal 0.
Proof.
  intros Hlt.
  destruct (range_dataset_run lo hi rt) as (X & Y & rt1 & Hrun & HX & HY).
  cbv zeta in HX, HY.
  exists X, Y, rt1. split; [exact Hrun|].
  rewrite HX, HY. cbn [shape_of]. rewrite !length_map, length_seq.
  split; [reflexivity|]. split; [reflexivity|].
  intros w0 w1 rt2 H0 H1.
  set (xs := map sofnat (seq lo (hi - lo))) in *.
  destruct (lab_loss_run X Y w0 w1 rt2 xs _ 2 10 HX HY
              ltac:(rewrite length_map; reflexivity) H0 H1)
    as (l & rt3 & Hl & Hv & _).
  exists l, rt3. split; [exact Hl|]. rewrite Hv. f_equal.
  unfold lab_mse, lab_predictions.
  replace (map (fun x : R => sadd (smul (sofnat 2) x) (sofnat 10)) xs)
    with (map (fun x : R => sadd (smul 2 x) 10) xs)
    by (apply map_ext; intros x; real_ops; cbn [INR]; ring).
  rewrite zip_with_diag, !map_map.
  unfold mean. rewrite length_map.
  replace (map (fun x : R => spow (ssub (sadd (smul 2 x) 10)
                                        (sadd (smul 2 x) 10)) 2) xs)
    with (map (fun _ : R => 0) xs)
    by (apply map_ext; intros x; cbn [spow]; real_ops; ring).
  rewrite rsum_zeros. real_ops.
  assert (HM : 0 < INR (length xs)).
  { apply lt_0_INR. unfold xs. rewrite length_map, length_seq. lia. }
  field. lra.
Qed.

(** X21.  On samples that are not empty and lie between 0 and 88, where
    all five features are finite numbers, the linear model of the lab is
    the model on engineered features with the weights [(w1, w0, 0, 0, 0)]:
    the two loss evaluators return the same loss.  Over the real
    numbers. *)
Theorem lab_loss_is_feature_loss (X Y : ETensor R) (W w0 w1 : TFVariable)
  (rt rt0 : Runtime R) (xs ys : list R) (a b : R) :
  tval X = Vec xs ->
  tval Y = Vec ys ->
  length xs = length ys ->
  (0 < length xs)%nat ->
  Forall (fun x => 0 <= x <= 88) xs ->
  vars rt !! vid W = Some (Mat 1 [[b]; [a]; [0]; [0]; [0]]) ->
  vars rt0 !! vid w0 = Some (Scal a) ->
  vars rt0 !! vid w1 = Some (Scal b) ->
  exists Xf rt1 l rt2 l0 rt3,
    Bonus.make_features X rt = Ok (Xf, rt1)
    /\ Bonus.loss_mse Xf Y W rt1 = Ok (l, rt2)
    /\ Lab.loss_mse X Y w0 w1 rt0 = Ok (l0, rt3)
    /\ tval l = tval l0.
Proof.
  intros HX HY Hm _ _ HW H0 H1.
  destruct (make_features_run X rt xs HX) as (rt1 & Hmf & _ & Hvars).
  destruct (lab_loss_run X Y w0 w1 rt0 xs ys a b HX HY Hm H0 H1)
    as (l0 & rt3 & Hl0 & Hv0 & _).
  set (Xf := {| tid := 4 + next_id rt; tval := Mat 5 (feature_rows xs) |}) in *.
  pose proof (loss_mse_run Xf Y W rt1 5 (feature_rows xs)
                [[b]; [a]; [0]; [0]; [0]] ys eq_refl HY
                ltac:(rewrite length_feature_rows; exact Hm)
                ltac:(rewrite Hvars; exact HW) eq_refl) as Hl.
  do 6 eexists. split; [exact Hmf|]. split; [exact Hl|].
  split; [exact Hl0|]. cbn [tval]. rewrite Hv0. f_equal.
  unfold mse, lab_mse, residuals, predictions, lab_predictions.
  rewrite feature_rows_map, map_map. do 3 f_equal.
  apply map_ext. intros x.
  unfold weights, column, dot, ssum.
  cbn [map nth zip_with fold_right]. real_ops. ring.
Qed.

End BaselineReal.

(** ** The loss at the end of training *)

Section FinalLossFacts.
Local Open Scope R_scope.

(** Below the safe rate no number of updates raises the loss. *)
Lemma loss_iter_le (n : nat) (rows : list (list R)) (ys : list R) (t : R)
  (k : nat) (Wv : Tensor R) :
  Forall (fun r => length r = n) rows ->
  length rows = length ys ->
  is_column n Wv ->
  0 <= t -> t <= safe_rate rows ->
  loss_at rows ys (Nat.iter k (gd_map n rows ys t) Wv) <= loss_at rows ys Wv.
Proof.
  intros Hwf Hm Hcol Ht0 Ht. induction k as [|k IH]; [apply Rle_refl|].
  cbn [Nat.iter nat_rect]. fold (Nat.iter k (gd_map n rows ys t) Wv).
  eapply Rle_trans; [|exact IH].
  apply loss_nonincreasing_step; try assumption.
  apply gd_iter_column. exact Hcol.
Qed.

Lemma zip_minus_zeros {B} (rows : list B) (ys : list R) :
  length rows = length ys ->
  zip_with Rminus (map (fun _ => 0) rows) ys = map (fun y => 0 - y) ys.
Proof.
  revert ys. induction rows as [|r rows IH]; intros [|y ys] Hl;
    try discriminate; [reflexivity|].
  cbn [map zip_with]. f_equal. apply IH. cbn in Hl. lia.
Qed.

(** The loss at the zero weights is the mean of the squared targets. *)
Lemma loss_at_zeros (rows : list (list R)) (ys : list R) :
  length rows = length ys ->
  loss_at rows ys (zeros 5 1) = mean (map (fun y => y * y) ys).
Proof.
  intros Hm. unfold loss_at, mse, residuals, predictions.
  change (weights_of (zeros 5 1))
    with (map (fun _ : nat => 0) [0; 1; 2; 3; 4]%nat).
  replace (map (fun r => dot r (map (fun _ : nat => 0) [0; 1; 2; 3; 4]%nat)) rows)
    with (map (fun _ : list R => 0) rows)
    by (apply map_ext; intros r; rewrite rdot_zero_r; reflexivity).
  real_ops. rewrite (zip_minus_zeros rows ys Hm), map_map. f_equal.
  apply map_ext. intros y. cbn [spow]. real_ops. ring.
Qed.


End FinalLossFacts.

(** ** The model evaluated on rationals *)

Example q_loss_and_gradient_value :
  value_of (q_loss_and_gradient empty_runtime)
  = Some (Scal (35 # 3), Some (Mat 1 [[-6 # 1]; [-26 # 3]])).
Proof. vm_compute. reflexivity. Qed.

Example q_mismatch_error :
  error_of (q_mismatch empty_runtime)
  = Some (MatrixSizeIncompatible [3; 2]%nat [3; 1]%nat).
Proof. vm_compute. reflexivity. Qed.

Example q_lab_step_value :
  value_of (q_lab_step empty_runtime)
  = Some (Scal (102 # 25), Scal (19 # 25)).
Proof. vm_compute. reflexivity. Qed.

(** ** The results at concrete inputs *)

Lemma train_iterates_update_witness :
  exists W rep mse_out rt',
    Bonus.train ex_X ex_Y 3 (2 / 100)%R ex_rt = Ok ((W, rep, mse_out), rt')
    /\ length (py_range 1 (3 + 1)) = Z.to_nat 3
    /\ vars rt' !! vid W
       = Some (Nat.iter (Z.to_nat 3)
                        (gd_map 5 (feature_rows [0; 1]%R) [10; 12]%R (2 / 100)%R)
                        (zeros 5 1)).
Proof.
  apply (train_iterates_update ex_X ex_Y 3 (2 / 100)%R ex_rt
           [0; 1]%R [10; 12]%R).
  - reflexivity.
  - reflexivity.
  - reflexivity.
  - cbn. lia.
  - cbn. lia.
Defined.

Lemma loss_mse_is_mean_squared_error_witness :
  (exists l rt',
      Bonus.loss_mse ex_Xf ex_Y ex_W ex_rtW = Ok (l, rt')
      /\ tval l = Scal (spec_loss (combine [[0; 1]; [1; 1]] [10; 12])%R
                                  (weights [[2]; [10]]%R))
      /\ vars rt' = vars ex_rtW
      /\ (tapes ex_rtW = [] -> tapes rt' = []))
  /\ (exists l rt',
      Lab.loss_mse ex_X ex_Y ex_w0 ex_w1 ex_rt_lab = Ok (l, rt')
      /\ tval l
         = Scal (mean (map (fun s => spow (ssub (sadd (smul 2%R s.1) 10%R) s.2) 2)
                           (combine [0; 1] [10; 12])%R))
      /\ vars rt' = vars ex_rt_lab
      /\ (tapes ex_rt_lab = [] -> tapes rt' = [])).
Proof.
  split.
  - apply (proj1 loss_mse_is_mean_squared_error
             ex_Xf ex_Y ex_W ex_rtW 2%nat [[0; 1]; [1; 1]]%R [[2]; [10]]%R
             [10; 12]%R); reflexivity.
  - apply (proj2 loss_mse_is_mean_squared_error
             ex_X ex_Y ex_w0 ex_w1 ex_rt_lab [0; 1]%R [10; 12]%R 2%R 10%R);
      reflexivity.
Defined.


Lemma dimension_mismatch_raises_witness :
  exists e,
    Bonus.loss_mse ex_Xf ex_Y ex_W ex_rt_bad = Err e
    /\ Bonus.compute_gradients ex_Xf ex_Y ex_W ex_rt_bad = Err e
    /\ (forall p wrows, (zeros 3 1 : Tensor R) = Mat p wrows ->
        length wrows <> 2 ->
        e = MatrixSizeIncompatible [length [[0; 1]; [1; 1]]%R; 2]
                                   [length wrows; p]).
Proof.
  apply (dimension_mismatch_raises ex_Xf ex_Y ex_W ex_rt_bad 2
           [[0; 1]; [1; 1]]%R (zeros 3 1)).
  - reflexivity.
  - reflexivity.
  - cbn. discriminate.
Defined.


Lemma training_is_deterministic_witness :
  exists r1 rt1' r2 rt2' Wfinal,
    for_each (py_range 1 (3 + 1))
             (Bonus.train_step ex_Xf ex_Y ex_W (2 / 100)%R)
             (Bonus.Build_Report [] []) ex_rtW
    = Ok (r1, rt1')
    /\ for_each (py_range 1 (3 + 1))
                (Bonus.train_step ex_Xf' ex_Y' ex_W' (2 / 100)%R)
                (Bonus.Build_Report [] []) ex_rtW'
       = Ok (r2, rt2')
    /\ vars rt1' !! vid ex_W = Some Wfinal
    /\ vars rt2' !! vid ex_W' = Some Wfinal.
Proof.
  apply (training_is_deterministic ex_Xf ex_Y ex_Xf' ex_Y' ex_W ex_W'
           ex_rtW ex_rtW' (Bonus.Build_Report [] []) (Bonus.Build_Report [] [])
           (2 / 100)%R 3 2 [[0; 1]; [1; 1]]%R [10; 12]%R
           (Mat 1 [[2]; [10]]%R));
    try reflexivity; try (cbn; lia).
  exists [[2]; [10]]%R. split; [reflexivity|]. split; [reflexivity|].
  repeat constructor.
Defined.

Lemma weight_shape_is_invariant_witness :
  exists W rt0 W0,
    Bonus.init_weights ex_Xf ex_rtW = Ok (W, rt0)
    /\ vars rt0 !! vid W = Some W0
    /\ shape_of W0 = [2; 1]
    /\ forall (items : list Z) (rep : Bonus.Report),
       exists rep' rt' Wk,
         for_each items (Bonus.train_step ex_Xf ex_Y W (2 / 100)%R) rep rt0
         = Ok (rep', rt')
         /\ vars rt' !! vid W = Some Wk
         /\ shape_of Wk = shape_of W0.
Proof.
  apply (weight_shape_is_invariant ex_Xf ex_Y (2 / 100)%R ex_rtW 2
           [[0; 1]; [1; 1]]%R [10; 12]%R);
    try reflexivity; cbn; lia.
Defined.


Lemma loss_at_nonneg (rows : list (list R)) (ys : list R) (Wv : Tensor R) :
  length rows = length ys ->
  0 < length rows ->
  (0 <= loss_at rows ys Wv)%R.
Proof.
  intros Hm Hpos. unfold loss_at, mse, residuals.
  apply (mean_sq_diff (predictions rows (weights_of Wv)) ys);
    rewrite length_predictions; assumption.
Qed.


Lemma make_features_builds_one_row_per_sample_witness :
  exists Xf rt',
    Bonus.make_features ex_X ex_rt = Ok (Xf, rt')
    /\ tval Xf
       = Mat 5 (map (fun x => [sone; x; smul x x; ssqrt x; sexp x]) [0; 1]%R)
    /\ shape_of (tval Xf) = [length [0; 1]%R; 5]
    /\ vars rt' = vars ex_rt.
Proof.
  apply (make_features_builds_one_row_per_sample ex_X ex_rt [0; 1]%R).
  reflexivity.
Defined.

Lemma make_features_of_scalar_raises_witness :
  Bonus.make_features ex_x0 ex_rt = Err (AxisOutOfRange "Pack" []).
Proof.
  apply (make_features_of_scalar_raises ex_x0 ex_rt 3%R). reflexivity.
Defined.

Lemma predict_returns_row_products_witness :
  exists p rt',
    Bonus.predict ex_Xf ex_W ex_rtW = Ok (p, rt')
    /\ tval p = Vec (map (fun r => dot r (column 0 [[2]; [10]]%R))
                         [[0; 1]; [1; 1]]%R)
    /\ shape_of (tval p) = [length [[0; 1]; [1; 1]]%R]
    /\ vars rt' = vars ex_rtW.
Proof.
  apply (predict_returns_row_products ex_Xf ex_W ex_rtW 2
           [[0; 1]; [1; 1]]%R [[2]; [10]]%R); reflexivity.
Defined.

Lemma predict_with_wide_weights_raises_witness :
  Bonus.predict ex_Xf ex_W ex_rt_wide
  = Err (CannotSqueeze [length [[0; 1]; [1; 1]]%R; 2]).
Proof.
  apply (predict_with_wide_weights_raises ex_Xf ex_W ex_rt_wide 2 2
           [[0; 1]; [1; 1]]%R [[1; 0]; [0; 1]]%R);
    try reflexivity. lia.
Defined.

Lemma target_count_mismatch_raises_witness :
  Bonus.loss_mse ex_Xf {| tid := 1; tval := Vec [10; 12; 14]%R |} ex_W ex_rtW
  = Err (IncompatibleShapes "Sub" [2] [3])
  /\ Lab.loss_mse ex_X {| tid := 1; tval := Vec [10; 12; 14]%R |}
                  ex_w0 ex_w1 ex_rt_lab
     = Err (IncompatibleShapes "Sub" [2] [3]).
Proof.
  split.
  - apply (proj1 target_count_mismatch_raises
             ex_Xf {| tid := 1; tval := Vec [10; 12; 14]%R |} ex_W ex_rtW 2
             [[0; 1]; [1; 1]]%R [[2]; [10]]%R [10; 12; 14]%R);
      try reflexivity; cbn; lia.
  - apply (proj2 target_count_mismatch_raises
             ex_X {| tid := 1; tval := Vec [10; 12; 14]%R |} ex_w0 ex_w1
             ex_rt_lab [0; 1]%R [10; 12; 14]%R 2%R 10%R);
      try reflexivity; cbn; lia.
Defined.

Lemma single_target_is_broadcast_witness :
  (exists l rt',
      Bonus.loss_mse ex_Xf {| tid := 1; tval := Vec [10]%R |} ex_W ex_rtW
      = Ok (l, rt')
      /\ tval l
         = Scal (mean (map (fun r => spow (ssub (dot r (column 0 [[2]; [10]]%R))
                                                10%R) 2)
                           [[0; 1]; [1; 1]]%R)))
  /\ (exists l rt',
      Lab.loss_mse ex_X {| tid := 1; tval := Vec [10]%R |} ex_w0 ex_w1 ex_rt_lab
      = Ok (l, rt')
      /\ tval l
         = Scal (mean (map (fun x => spow (ssub (sadd (smul 2%R x) 10%R) 10%R) 2)
                           [0; 1]%R))).
Proof.
  split.
  - apply (proj1 single_target_is_broadcast
             ex_Xf {| tid := 1; tval := Vec [10]%R |} ex_W ex_rtW 2
             [[0; 1]; [1; 1]]%R [[2]; [10]]%R 10%R); reflexivity.
  - apply (proj2 single_target_is_broadcast
             ex_X {| tid := 1; tval := Vec [10]%R |} ex_w0 ex_w1 ex_rt_lab
             [0; 1]%R 10%R 2%R 10%R); reflexivity.
Defined.

Lemma column_targets_are_compared_pairwise_witness :
  exists l rt',
    Bonus.loss_mse ex_Xf ex_Ycol ex_W ex_rtW = Ok (l, rt')
    /\ tval l
       = Scal (sdiv
                 (ssum (concat
                    (map (fun y =>
                            map (fun r => spow (ssub (dot r (column 0 [[2]; [10]]%R)) y) 2)
                                [[0; 1]; [1; 1]]%R)
                         (column 0 [[10]; [12]]%R))))
                 (sofnat (length [[10]; [12]]%R * length [[0; 1]; [1; 1]]%R))).
Proof.
  apply (column_targets_are_compared_pairwise ex_Xf ex_Ycol ex_W ex_rtW 2
           [[0; 1]; [1; 1]]%R [[2]; [10]]%R [[10]; [12]]%R); reflexivity.
Defined.

Lemma compute_gradients_keeps_state_witness :
  exists g rt',
    Bonus.compute_gradients ex_Xf ex_Y ex_W ex_rtW = Ok (Some g, rt')
    /\ shape_of (tval g) = shape_of (Mat 1 [[2]; [10]]%R)
    /\ vars rt' = vars ex_rtW
    /\ length (tapes rt') = length (tapes ex_rtW).
Proof.
  apply (compute_gradients_keeps_state ex_Xf ex_Y ex_W ex_rtW 2
           [[0; 1]; [1; 1]]%R [[2]; [10]]%R [10; 12]%R);
    try reflexivity; cbn; lia.
Defined.

Lemma train_reports_every_hundredth_step_witness :
  exists W rep mse_out rt',
    Bonus.train ex_X ex_Y 250 (2 / 100)%R ex_rt = Ok ((W, rep, mse_out), rt')
    /\ Bonus.steps rep
       = map (fun k => (100 * (Z.of_nat k + 1))%Z)
             (seq 0 (Z.to_nat (250 / 100)))
    /\ length (Bonus.losses rep) = Z.to_nat (250 / 100).
Proof.
  apply (train_reports_every_hundredth_step ex_X ex_Y 250 (2 / 100)%R ex_rt
           [0; 1]%R [10; 12]%R);
    try reflexivity; cbn; lia.
Defined.

Lemma final_mse_is_last_reported_loss_witness :
  exists W rep mse_out rt' earlier_steps earlier_losses last_loss,
    Bonus.train ex_X ex_Y 200 (2 / 100)%R ex_rt = Ok ((W, rep, mse_out), rt')
    /\ Bonus.steps rep = earlier_steps ++ [200%Z]
    /\ Bonus.losses rep = earlier_losses ++ [last_loss]
    /\ tval mse_out = tval last_loss.
Proof.
  apply (final_mse_is_last_reported_loss ex_X ex_Y 200 (2 / 100)%R ex_rt
           [0; 1]%R [10; 12]%R);
    try reflexivity; cbn; lia.
Defined.

Lemma train_without_steps_witness :
  exists W rep mse_out rt',
    Bonus.train ex_X ex_Y 0 (2 / 100)%R ex_rt = Ok ((W, rep, mse_out), rt')
    /\ vars rt' !! vid W = Some (zeros 5 1)
    /\ Bonus.steps rep = []
    /\ Bonus.losses rep = []
    /\ tval mse_out
       = Scal (spec_loss (combine (feature_rows [0; 1]%R) [10; 12]%R)
                         (replicate 5 szero)).
Proof.
  apply (train_without_steps ex_X ex_Y 0 (2 / 100)%R ex_rt
           [0; 1]%R [10; 12]%R);
    try reflexivity; cbn; lia.
Defined.

Lemma train_changes_only_its_weights_witness :
  exists W rep mse_out rt',
    Bonus.train ex_X ex_Y 3 (2 / 100)%R ex_rt = Ok ((W, rep, mse_out), rt')
    /\ next_id ex_rt <= vid W
    /\ forall k, k <> vid W -> vars rt' !! k = vars ex_rt !! k.
Proof.
  apply (train_changes_only_its_weights ex_X ex_Y 3 (2 / 100)%R ex_rt
           [0; 1]%R [10; 12]%R);
    try reflexivity; cbn; lia.
Defined.

Lemma ex_weights_minimize (Wv : Tensor R) :
  (loss_at [[0; 1]; [1; 1]] [10; 12] (Mat 1 [[2]; [10]])
   <= loss_at [[0; 1]; [1; 1]] [10; 12] Wv)%R.
Proof.
  apply Rle_trans with (r2 := 0%R).
  - right. unfold loss_at, mse, mean, residuals, predictions, weights_of,
      weights, column, dot, ssum.
    cbn [map nth zip_with fold_right length spow]. real_ops.
    cbn [INR]. field.
  - apply loss_at_nonneg; [reflexivity | cbn; lia].
Qed.

Lemma gradient_is_derivative_of_loss_witness :
  exists g rt' l rt'',
    Bonus.compute_gradients ex_Xf ex_Y ex_W ex_rtW = Ok (Some g, rt')
    /\ Bonus.loss_mse ex_Xf ex_Y ex_W ex_rtW = Ok (l, rt'')
    /\ tval l = Scal (loss_at [[0; 1]; [1; 1]] [10; 12] (Mat 1 [[2]; [10]]))%R
    /\ forall Wv, is_column 2 Wv ->
         (loss_at [[0; 1]; [1; 1]] [10; 12] Wv
          = loss_at [[0; 1]; [1; 1]] [10; 12] (Mat 1 [[2]; [10]])
            + rdot (weights_of (tval g))
                   (zip_with Rminus (weights_of Wv) (weights [[2]; [10]]))
            + mean (map (fun r =>
                rdot r (zip_with Rminus (weights_of Wv) (weights [[2]; [10]]))
                * rdot r (zip_with Rminus (weights_of Wv) (weights [[2]; [10]])))
                [[0; 1]; [1; 1]])
          /\ loss_at [[0; 1]; [1; 1]] [10; 12] (Mat 1 [[2]; [10]])
             + rdot (weights_of (tval g))
                    (zip_with Rminus (weights_of Wv) (weights [[2]; [10]]))
             <= loss_at [[0; 1]; [1; 1]] [10; 12] Wv)%R.
Proof.
  apply (gradient_is_derivative_of_loss ex_Xf ex_Y ex_W ex_rtW 2
           [[0; 1]; [1; 1]]%R [[2]; [10]]%R [10; 12]%R);
    try reflexivity; try (cbn; lia).
  cbn. repeat constructor.
Defined.

Lemma zero_gradient_is_global_minimum_witness :
  exists g rt',
    Bonus.compute_gradients ex_Xf ex_Y ex_W ex_rtW = Ok (Some g, rt')
    /\ (tval g = zeros 2 1 ->
        forall Wv, is_column 2 Wv ->
          (loss_at [[0; 1]; [1; 1]] [10; 12] (Mat 1 [[2]; [10]])
           <= loss_at [[0; 1]; [1; 1]] [10; 12] Wv)%R).
Proof.
  apply (zero_gradient_is_global_minimum ex_Xf ex_Y ex_W ex_rtW 2
           [[0; 1]; [1; 1]]%R [[2]; [10]]%R [10; 12]%R);
    try reflexivity; try (cbn; lia).
  cbn. repeat constructor.
Defined.

Lemma training_stays_at_a_minimizer_witness :
  exists rep' rt',
    for_each (py_range 1 (250 + 1))
             (Bonus.train_step ex_Xf ex_Y ex_W (1 / 2)%R)
             (Bonus.Build_Report [] []) ex_rtW
    = Ok (rep', rt')
    /\ vars rt' !! vid ex_W = Some (Mat 1 [[2]; [10]]%R).
Proof.
  apply (training_stays_at_a_minimizer ex_Xf ex_Y ex_W ex_rtW 2
           [[0; 1]; [1; 1]]%R [[2]; [10]]%R [10; 12]%R
           250 (1 / 2)%R (Bonus.Build_Report [] []));
    try reflexivity; try (cbn; lia).
  - cbn. repeat constructor.
  - exists [[2]; [10]]%R. split; [reflexivity|]. split; [reflexivity|].
    repeat constructor.
  - intros Wv _. apply ex_weights_minimize.
Defined.

Lemma every_update_lowers_the_loss_witness :
  exists rep' rt' Wv',
    Bonus.train_step ex_Xf ex_Y ex_W (2 / 100)%R 100
                     (Bonus.Build_Report [] []) ex_rtW
    = Ok (rep', rt')
    /\ vars rt' !! vid ex_W = Some Wv'
    /\ (loss_at [[0; 1]; [1; 1]] [10; 12] Wv'
        <= loss_at [[0; 1]; [1; 1]] [10; 12] (Mat 1 [[2]; [10]])
           - 2 * (2 / 100) / (INR (length [[0; 1]; [1; 1]]%R)
                              * INR (length [[0; 1]; [1; 1]]%R))
             * rdot (xt_times 2 [[0; 1]; [1; 1]]
                       (residuals [[0; 1]; [1; 1]]
                                  (weights_of (Mat 1 [[2]; [10]])) [10; 12]))
                    (xt_times 2 [[0; 1]; [1; 1]]
                       (residuals [[0; 1]; [1; 1]]
                                  (weights_of (Mat 1 [[2]; [10]])) [10; 12]))
        /\ loss_at [[0; 1]; [1; 1]] [10; 12] Wv'
           <= loss_at [[0; 1]; [1; 1]] [10; 12] (Mat 1 [[2]; [10]]))%R.
Proof.
  apply (every_update_lowers_the_loss ex_Xf ex_Y ex_W ex_rtW 2
           [[0; 1]; [1; 1]]%R [10; 12]%R (Mat 1 [[2]; [10]]%R)
           (2 / 100)%R 100 (Bonus.Build_Report [] []));
    try reflexivity; try (cbn; lia).
  - cbn. repeat constructor.
  - exists [[2]; [10]]%R. split; [reflexivity|]. split; [reflexivity|].
    repeat constructor.
  - lra.
  - unfold frobenius, dot, ssum.
    cbn [map zip_with fold_right length]. real_ops. cbn [INR]. lra.
Defined.

Lemma baseline_loss_is_variance_plus_offset_witness :
  exists l rt' loss,
    Baseline.baseline ex_Y ex_X ex_Y ex_rt = Ok (l, rt')
    /\ tval l = Scal loss
    /\ (loss
        = mean (map (fun t => (mean [10; 12] - t) * (mean [10; 12] - t))
                    [10; 12])
          + (Baseline.y_mean ex_Y - mean [10; 12])
            * (Baseline.y_mean ex_Y - mean [10; 12]))%R.
Proof.
  apply (baseline_loss_is_variance_plus_offset ex_Y ex_X ex_Y ex_rt
           [10; 12]%R []); try reflexivity. cbn. lia.
Defined.

Lemma mean_is_the_best_constant_prediction_witness :
  exists l rt' lc rt0' loss loss_c,
    Baseline.baseline ex_Y ex_X ex_Y ex_rt = Ok (l, rt')
    /\ Baseline.baseline_loss (replicate (length [10; 12]%R) 0%R) ex_Y ex_rt
       = Ok (lc, rt0')
    /\ tval l = Scal loss
    /\ tval lc = Scal loss_c
    /\ (loss <= loss_c)%R.
Proof.
  apply (mean_is_the_best_constant_prediction ex_X ex_Y ex_rt ex_rt
           [10; 12]%R [] 0%R); try reflexivity. cbn. lia.
Defined.

Lemma generating_weights_have_zero_loss_witness :
  exists X Y rt1,
    Baseline.range_dataset 10 20 ex_rt = Ok ((X, Y), rt1)
    /\ shape_of (tval X) = [20 - 10]
    /\ shape_of (tval Y) = [20 - 10]
    /\ forall (w0 w1 : TFVariable) (rt2 : Runtime R),
         vars rt2 !! vid w0 = Some (Scal 2%R) ->
         vars rt2 !! vid w1 = Some (Scal 10%R) ->
         exists l rt3,
           Lab.loss_mse X Y w0 w1 rt2 = Ok (l, rt3) /\ tval l = Scal 0%R.
Proof.
  apply (generating_weights_have_zero_loss 10 20 ex_rt). lia.
Defined.

Lemma lab_loss_is_feature_loss_witness :
  exists Xf rt1 l rt2 l0 rt3,
    Bonus.make_features ex_X ex_rt_feat = Ok (Xf, rt1)
    /\ Bonus.loss_mse Xf ex_Y ex_W rt1 = Ok (l, rt2)
    /\ Lab.loss_mse ex_X ex_Y ex_w0 ex_w1 ex_rt_lab = Ok (l0, rt3)
    /\ tval l = tval l0.
Proof.
  apply (lab_loss_is_feature_loss ex_X ex_Y ex_W ex_w0 ex_w1
           ex_rt_feat ex_rt_lab [0; 1]%R [10; 12]%R 2%R 10%R);
    try reflexivity.
  - cbn. lia.
  - repeat constructor; lra.
Defined.

Lemma ex_rate_is_safe :
  (2 / 100 * (2 * frobenius (feature_rows [0; 1]) + 1) <= INR 2)%R.
Proof.
  unfold frobenius, feature_rows, stack_rows, dot, ssum.
  cbn [map seq length nth zip_with fold_right]. real_ops.
  cbn [ssqrt sexp Elementary_R]. rewrite sqrt_0, sqrt_1, exp_0.
  pose proof exp_le_3 as He. pose proof (exp_pos 1) as Hp.
  cbn [INR]. nra.
Qed.

